(** * moat.dev.heat: the Solvis heat-pump controller

    A shallow embedding of [src/moat/dev/heat/solvis.py]: the [Run]
    enumeration, the body of the [Data.run_pump] loop (transition check,
    entry actions, exit conditions, heating hysteresis, control cascade),
    the actuator helpers [set_load], [set_flow_pwm] and [handle_flow], the
    fault monitor [Data.err_mon], the startup barrier
    ([Data._kv], [Data.all_done], [Data.run_init]), the start of
    [Data.run_pump] from the persisted state and the shutdown procedure
    [Data.off].

    Conventions.
    - Python floats are modelled as rationals [Q]: comparisons, [min] and
      [max] are exact on both; rounding of [+], [*] and [/] is not modelled.
    - One pass through the [while True:] body is one [iteration]. The
      attributes the feed tasks write on [self] are read from a snapshot
      [self.t] taken when the loop wakes up.
    - [await self.cl.set(...)], the PWM port and the GPIO pin are recorded
      as a list of [action]s in program order; [print] is not modelled.
    - The feedback loops ([moat.lib.pid.CPID]) are an interface: every
      statement holds for all implementations of the class [CPID]. *)

From Stdlib Require Import ZArith QArith Qminmax Qfield Lia Lqa Bool List String.
From stdpp Require Import base gmap sets strings.
Import ListNotations.

Local Open Scope Q_scope.

(** ** Comparisons of Python numbers *)

(** [x < y] *)
Definition Qlt_bool (x y : Q) : bool := negb (Qle_bool y x).

(** truthiness of a number: [if x:] *)
Definition Qtruthy (x : Q) : bool := negb (Qeq_bool x 0).

(** ** The Run enumeration (an [IntEnum]) *)

Module Run.
Inductive t : Type :=
| off | wait_time | wait_flow | flow | wait_power | temp | run | ice | down.

(** [run.value] *)
Definition value (r : t) : Z :=
  match r with
  | off => 0 | wait_time => 1 | wait_flow => 2 | flow => 3
  | wait_power => 4 | temp => 5 | run => 6 | ice => 7 | down => 8
  end%Z.

(** [Run(n)]; any other number raises in Python *)
Definition of_value (n : Z) : option t :=
  match n with
  | 0 => Some off | 1 => Some wait_time | 2 => Some wait_flow
  | 3 => Some flow | 4 => Some wait_power | 5 => Some temp
  | 6 => Some run | 7 => Some ice | 8 => Some down
  | _ => None
  end%Z.

Definition eqb (a b : t) : bool := (value a =? value b)%Z.

End Run.

(** ** Configuration: the keys of the YAML tree that the loop reads *)

Module cfg.
Record t : Type := {
  adj_water : Q;
  adj_heat : Q;
  adj_more : Q;
  adj_max : Q;
  adj_low_water : Q;
  adj_low_heat : Q;
  adj_low_buffer : Q;
  lim_power_min : Q;
  lim_power_time : Q;
  misc_de_ice : Q;
  misc_stop_flow : Q;
  misc_stop_delta : Q;
  misc_start_delay : Q;
  misc_start_flow_init_rate : Q;
  misc_start_flow_init_pwm : Q;
  misc_start_flow_power_rate : Q;
  misc_start_flow_power_pwm : Q;
  misc_start_power : Q;
  misc_start_delta : Q;
  misc_min_power : Q;
  setting_heat_power : option Z;   (* heat_pin *)
  setting_heat_mode_on : Q;
  setting_heat_mode_off : Q;
  setting_heat_mode_delay : Q;
  cmd_mode_on : Q;
  cmd_mode_off : Q
}.

(** the values of the built-in [CFG] text *)
Definition default : t := {|
  adj_water := 3; adj_heat := 15 # 10; adj_more := 2; adj_max := 61;
  adj_low_water := 1; adj_low_heat := 5 # 10; adj_low_buffer := -2;
  lim_power_min := 4 # 100; lim_power_time := 300;
  misc_de_ice := 17; misc_stop_flow := 10; misc_stop_delta := 3;
  misc_start_delay := 330;
  misc_start_flow_init_rate := 6; misc_start_flow_init_pwm := 25 # 100;
  misc_start_flow_power_rate := 15; misc_start_flow_power_pwm := 4 # 10;
  misc_start_power := 1 # 10; misc_start_delta := 2;
  misc_min_power := 9 # 10;
  setting_heat_power := Some 19%Z;
  setting_heat_mode_on := 3; setting_heat_mode_off := 5;
  setting_heat_mode_delay := 30;
  cmd_mode_on := 3; cmd_mode_off := 0
|}.
End cfg.

(** ** Paths of the feed and fault table *)

(** A [moat.util.Path] element is a string or an integer. *)
Abbreviation path := (list (string + Z)).

(** [P("pump")] *)
Definition err_base : path := [inl "pump"%string].

(** [P(":1")]: the path whose only element is the integer 1 *)
Definition P_1 : path := [inr 1%Z].

(** ** The attributes of [self] written by the feed tasks *)

Module self.
Record t : Type := {
  cm_main : bool;
  cm_heat : bool;
  c_heat : Q;
  c_water : Q;
  t_in : Q;
  t_out : Q;
  r_flow : Q;
  m_ice : bool;
  tb_water : Q;
  tb_heat : Q;
  tb_mid : Q;
  tb_low : Q;
  m_power : Q;
  time : Q;
  m_errors : gmap path Z
}.
End self.

(** ** What the loop writes to the outside *)

Inductive target : Type :=
| cmd_power | cmd_mode_path | feedback_ice | feedback_main | feedback_heat
| setting_heat_mode_path | sensor_cop.

Inductive value : Type :=
| VNum (q : Q)
| VBool (b : bool).

Inductive action : Type :=
| ClSet (p : target) (v : value) (idem : bool)  (* await self.cl.set(p, v, idem=..) *)
| FlowPwm (r : Q)                               (* the port behind set_flow_pwm *)
| GpioOutput (pin : Z) (b : bool).              (* GPIO.output(heat_pin, b) *)

Inductive exn : Type :=
| ValueError_cannot_go (orun run : Run.t)
| ValueError_missing (want : gset string)
| KeyError (v : string)
| AttributeError (name : string).

(** ** The feedback-loop interface (moat.lib.pid.CPID) *)

Class CPID (P : Type) : Type := {
  (** [pid(i, t=t)]: the output and the controller's new memory *)
  pid_call : P -> Q -> Q -> Q * P;
  (** [pid.setpoint(v)] *)
  pid_setpoint : P -> Q -> P;
  (** [pid.state.get("setpoint", None)] *)
  pid_get_setpoint : P -> option Q;
  (** [pid.reset()] *)
  pid_reset : P -> P;
  (** [pid.move_to(i, o, t=t)]; [o] may be [None], [t] may be left out *)
  pid_move_to : P -> Q -> option Q -> option Q -> P
}.

(** ** moat.util.val2pos / pos2val *)

(** Modelled from the spec: [moat.util.val2pos] is imported, its body is
    not among the sources. "A monotonic interpolation function maps a
    measured quantity between a low and high reference point to a
    fractional position (clamped to [0,1])"; the [clamp] keyword is the
    one the call in [run_pump] passes. *)
Definition val2pos (a b c : Q) (clamp : bool) : Q :=
  let f := (b - a) / (c - a) in
  if clamp then Qmax 0 (Qmin 1 f) else f.

(** Modelled from the spec: [moat.util.pos2val] is imported, its body is
    not among the sources. "A complementary function maps a fractional
    position back onto an output range"; positions outside [0,1] "clamp to
    [low,high]" when clamping is asked for. *)
Definition pos2val (a b c : Q) (clamp : bool) : Q :=
  let f := if clamp then Qmax 0 (Qmin 1 b) else b in
  a + (c - a) * f.

(** ** [self.state]: the persisted record *)

Inductive heat_ok_t : Type :=
| HFalse               (* False: heating path disabled *)
| HSince (t : Q)       (* a timestamp: enabling is pending since t *)
| HTrue.               (* True: heating path enabled *)

(** [x is False] *)
Definition is_HFalse (h : heat_ok_t) : bool :=
  match h with HFalse => true | _ => false end.

Module state.
Record t : Type := {
  run : Z;
  last_pwm : option Q;
  last_load : option Q;
  load_last : option Q;
  t_run : option Q;
  t_load : option Q;
  heat_ok : heat_ok_t;
  last_pump : option Q
}.

(** the empty [attrdict()] after [setdefault("heat_ok", False)] *)
Definition empty : t := {|
  run := 0; last_pwm := None; last_load := None; load_last := None;
  t_run := None; t_load := None; heat_ok := HFalse; last_pump := None
|}.

Definition set_run v (s : t) : t :=
  {| run := v; last_pwm := last_pwm s; last_load := last_load s;
     load_last := load_last s; t_run := t_run s; t_load := t_load s;
     heat_ok := heat_ok s; last_pump := last_pump s |}.
Definition set_last_pwm v (s : t) : t :=
  {| run := run s; last_pwm := v; last_load := last_load s;
     load_last := load_last s; t_run := t_run s; t_load := t_load s;
     heat_ok := heat_ok s; last_pump := last_pump s |}.
Definition set_last_load v (s : t) : t :=
  {| run := run s; last_pwm := last_pwm s; last_load := v;
     load_last := load_last s; t_run := t_run s; t_load := t_load s;
     heat_ok := heat_ok s; last_pump := last_pump s |}.
Definition set_load_last v (s : t) : t :=
  {| run := run s; last_pwm := last_pwm s; last_load := last_load s;
     load_last := v; t_run := t_run s; t_load := t_load s;
     heat_ok := heat_ok s; last_pump := last_pump s |}.
Definition set_t_run v (s : t) : t :=
  {| run := run s; last_pwm := last_pwm s; last_load := last_load s;
     load_last := load_last s; t_run := v; t_load := t_load s;
     heat_ok := heat_ok s; last_pump := last_pump s |}.
Definition set_t_load v (s : t) : t :=
  {| run := run s; last_pwm := last_pwm s; last_load := last_load s;
     load_last := load_last s; t_run := t_run s; t_load := v;
     heat_ok := heat_ok s; last_pump := last_pump s |}.
Definition set_heat_ok v (s : t) : t :=
  {| run := run s; last_pwm := last_pwm s; last_load := last_load s;
     load_last := load_last s; t_run := t_run s; t_load := t_load s;
     heat_ok := v; last_pump := last_pump s |}.
Definition set_last_pump v (s : t) : t :=
  {| run := run s; last_pwm := last_pwm s; last_load := last_load s;
     load_last := load_last s; t_run := t_run s; t_load := t_load s;
     heat_ok := heat_ok s; last_pump := v |}.
End state.

(** ** The local variables of [run_pump] that live across iterations *)

Module var.
Record t : Type := {
  run : Run.t;
  orun : option Run.t;
  m_ice : bool;
  cm_main : option bool;
  cm_heat : option bool;
  n_cop : Z;
  t_no_power : option Q;
  heat_off : option bool
}.

(** the assignments before [while True:], with [run = Run(state.get("run",0))] *)
Definition init (r : Run.t) : t := {|
  run := r; orun := None; m_ice := false; cm_main := None;
  cm_heat := None; n_cop := 0; t_no_power := None; heat_off := Some false
|}.

Definition set_run v (s : t) : t :=
  {| run := v; orun := orun s; m_ice := m_ice s; cm_main := cm_main s;
     cm_heat := cm_heat s; n_cop := n_cop s; t_no_power := t_no_power s;
     heat_off := heat_off s |}.
Definition set_orun v (s : t) : t :=
  {| run := run s; orun := v; m_ice := m_ice s; cm_main := cm_main s;
     cm_heat := cm_heat s; n_cop := n_cop s; t_no_power := t_no_power s;
     heat_off := heat_off s |}.
Definition set_m_ice v (s : t) : t :=
  {| run := run s; orun := orun s; m_ice := v; cm_main := cm_main s;
     cm_heat := cm_heat s; n_cop := n_cop s; t_no_power := t_no_power s;
     heat_off := heat_off s |}.
Definition set_cm_main v (s : t) : t :=
  {| run := run s; orun := orun s; m_ice := m_ice s; cm_main := v;
     cm_heat := cm_heat s; n_cop := n_cop s; t_no_power := t_no_power s;
     heat_off := heat_off s |}.
Definition set_cm_heat v (s : t) : t :=
  {| run := run s; orun := orun s; m_ice := m_ice s; cm_main := cm_main s;
     cm_heat := v; n_cop := n_cop s; t_no_power := t_no_power s;
     heat_off := heat_off s |}.
Definition set_n_cop v (s : t) : t :=
  {| run := run s; orun := orun s; m_ice := m_ice s; cm_main := cm_main s;
     cm_heat := cm_heat s; n_cop := v; t_no_power := t_no_power s;
     heat_off := heat_off s |}.
Definition set_t_no_power v (s : t) : t :=
  {| run := run s; orun := orun s; m_ice := m_ice s; cm_main := cm_main s;
     cm_heat := cm_heat s; n_cop := n_cop s; t_no_power := v;
     heat_off := heat_off s |}.
Definition set_heat_off v (s : t) : t :=
  {| run := run s; orun := orun s; m_ice := m_ice s; cm_main := cm_main s;
     cm_heat := cm_heat s; n_cop := n_cop s; t_no_power := t_no_power s;
     heat_off := v |}.
End var.

(** truthiness of an optional number or flag: [None], [0] and [False] are false *)
Definition otruthy (o : option Q) : bool :=
  match o with Some q => Qtruthy q | None => false end.

Definition is_true (o : option bool) : bool :=
  match o with Some b => b | None => false end.

(** [orun == r], where [orun] may be [None] *)
Definition oeqb (orun : option Run.t) (r : Run.t) : bool :=
  match orun with Some o => Run.eqb o r | None => false end.

(** ** The machine: everything one iteration can change *)

Module pids.
Record t (P : Type) : Type := {
  load : P; buffer : P; limit : P; pump : P; flow : P
}.
Arguments load {P}.
Arguments buffer {P}.
Arguments limit {P}.
Arguments pump {P}.
Arguments flow {P}.
Definition set_load {P} v (s : t P) : t P :=
  {| load := v; buffer := buffer s; limit := limit s; pump := pump s; flow := flow s |}.
Definition set_buffer {P} v (s : t P) : t P :=
  {| load := load s; buffer := v; limit := limit s; pump := pump s; flow := flow s |}.
Definition set_limit {P} v (s : t P) : t P :=
  {| load := load s; buffer := buffer s; limit := v; pump := pump s; flow := flow s |}.
Definition set_pump {P} v (s : t P) : t P :=
  {| load := load s; buffer := buffer s; limit := limit s; pump := v; flow := flow s |}.
Definition set_flow {P} v (s : t P) : t P :=
  {| load := load s; buffer := buffer s; limit := limit s; pump := pump s; flow := v |}.
End pids.

Record machine (P : Type) : Type := {
  vars : var.t;             (* locals of run_pump *)
  st : state.t;             (* self.state *)
  pid : pids.t P;           (* self.pid_load, ..., self.pid_flow *)
  force_on : bool;          (* self.force_on *)
  m_cop : Q;                (* self.m_cop *)
  out : list action         (* what has been written so far *)
}.
Arguments vars {P}.
Arguments st {P}.
Arguments pid {P}.
Arguments force_on {P}.
Arguments m_cop {P}.
Arguments out {P}.

Definition with_vars {P} (f : var.t -> var.t) (m : machine P) : machine P :=
  {| vars := f (vars m); st := st m; pid := pid m; force_on := force_on m;
     m_cop := m_cop m; out := out m |}.
Definition with_st {P} (f : state.t -> state.t) (m : machine P) : machine P :=
  {| vars := vars m; st := f (st m); pid := pid m; force_on := force_on m;
     m_cop := m_cop m; out := out m |}.
Definition with_pid {P} (f : pids.t P -> pids.t P) (m : machine P) : machine P :=
  {| vars := vars m; st := st m; pid := f (pid m); force_on := force_on m;
     m_cop := m_cop m; out := out m |}.
Definition with_force_on {P} (b : bool) (m : machine P) : machine P :=
  {| vars := vars m; st := st m; pid := pid m; force_on := b;
     m_cop := m_cop m; out := out m |}.
Definition with_m_cop {P} (q : Q) (m : machine P) : machine P :=
  {| vars := vars m; st := st m; pid := pid m; force_on := force_on m;
     m_cop := q; out := out m |}.
Definition with_out {P} (f : list action -> list action) (m : machine P) : machine P :=
  {| vars := vars m; st := st m; pid := pid m; force_on := force_on m;
     m_cop := m_cop m; out := f (out m) |}.

(** ** A small monad: state, [continue] and [raise] *)

Inductive ctl (P A : Type) : Type :=
| Next (a : A) (m : machine P)     (* fall through to the next statement *)
| Continue (m : machine P)         (* [continue]: back to the top of the loop *)
| Raise (e : exn).                 (* an exception leaves the loop *)
Arguments Next {P A}.
Arguments Continue {P A}.
Arguments Raise {P A}.

Definition prog (P A : Type) : Type := machine P -> ctl P A.

Definition ret {P A} (a : A) : prog P A := fun m => Next a m.

Definition bind {P A B} (c : prog P A) (k : A -> prog P B) : prog P B :=
  fun m =>
    match c m with
    | Next a m' => k a m'
    | Continue m' => Continue m'
    | Raise e => Raise e
    end.

Declare Scope prog_scope.
Delimit Scope prog_scope with prog.
Notation "x <- c ;; k" := (bind c (fun x => k))
  (at level 20, c at level 99, k at level 200, only parsing) : prog_scope.
Notation "c ;; k" := (bind c (fun _ => k))
  (at level 100, k at level 200, only parsing, right associativity) : prog_scope.

Definition get {P} : prog P (machine P) := fun m => Next m m.
Definition modify {P} (f : machine P -> machine P) : prog P unit := fun m => Next tt (f m).
Definition continue {P A} : prog P A := fun m => Continue m.
Definition raise {P A} (e : exn) : prog P A := fun _ => Raise e.
Definition pass {P} : prog P unit := ret tt.
Definition emit {P} (a : action) : prog P unit := modify (with_out (fun l => l ++ [a])).
Definition set_var {P} (f : var.t -> var.t) : prog P unit := modify (with_vars f).
Definition set_state {P} (f : state.t -> state.t) : prog P unit := modify (with_st f).
Definition set_pid {P} (f : pids.t P -> pids.t P) : prog P unit := modify (with_pid f).

(** ** The targets computed on every pass (lines "Calculate desired
    temperatures" to "on/off thresholds") *)

Record temps : Type := {
  t_nom : Q; t_low : Q; t_adj : Q; t_cur : Q;
  t_limit : Q; t_pump : Q; t_load : Q; t_buffer : Q;
  t_set_on : Q; t_set_off : Q
}.

(** [water_ok] is [True] throughout: the branch that could clear it sits
    behind [if True: pass]. *)
Definition water_ok : bool := true.

Definition targets (c : cfg.t) (s : self.t) (cm_heat : option bool) : temps :=
  let tw_nom := self.c_water s in
  let tw_low := tw_nom + cfg.adj_low_water c in
  let tw_adj := tw_nom + cfg.adj_water c in
  let th_nom := self.c_heat s in
  let th_low := th_nom + cfg.adj_low_heat c in
  let th_adj := th_nom + cfg.adj_heat c in
  let heat := is_true cm_heat && water_ok in
  let nom := if heat then Qmax th_nom tw_nom else tw_nom in
  let low := if heat then Qmax th_low tw_low else tw_low in
  let adj := if heat then Qmax th_adj tw_adj else tw_adj in
  let cur := if heat then self.tb_heat s else self.tb_water s in
  let f := val2pos nom cur adj true in
  let limit := Qmin (cfg.adj_max c) (adj + cfg.adj_more c) in
  {| t_nom := nom; t_low := low; t_adj := adj; t_cur := cur;
     t_limit := limit;
     t_pump := pos2val low f limit false;
     t_load := adj + cfg.adj_more c;
     t_buffer := low + cfg.adj_low_buffer c;
     t_set_on := (low + adj) / 2;
     t_set_off := nom |}.

(** ** Reading the output list *)

(** the values written to [cfg.cmd.power] *)
Fixpoint power_writes (l : list action) : list Q :=
  match l with
  | [] => []
  | ClSet cmd_power (VNum q) _ :: l' => q :: power_writes l'
  | _ :: l' => power_writes l'
  end.

(** the values handed to the flow port *)
Fixpoint flow_writes (l : list action) : list Q :=
  match l with
  | [] => []
  | FlowPwm r :: l' => r :: flow_writes l'
  | _ :: l' => flow_writes l'
  end.

(** ** The legal-transition table, in the words of the specification

    "same state; startup with orun unset; target off; target ice; advance
    by exactly one step; any non-off state to down; down to off". *)

Inductive legal : option Run.t -> Run.t -> Prop :=
| legal_same r : legal (Some r) r
| legal_startup r : legal None r
| legal_off o : legal o Run.off
| legal_ice o : legal o Run.ice
| legal_advance o r : Run.value r = (Run.value o + 1)%Z -> legal (Some o) r
| legal_down o : o <> Run.off -> legal (Some o) Run.down
| legal_down_off : legal (Some Run.down) Run.off.

(** ** The controller *)

Section Controller.
Context {P : Type} `{CPID P}.
Variable c : cfg.t.
Local Open Scope prog_scope.

Definition cl_set (p : target) (v : value) (idem : bool) : prog P unit :=
  emit (ClSet p v idem).

(** [set_flow_pwm], either variant built in [__init__] *)
Definition set_flow_pwm (r : Q) : prog P unit :=
  set_state (state.set_last_pwm (Some r)) ;;
  emit (FlowPwm r).

Definition set_load (p : Q) : prog P unit :=
  if Qlt_bool p (cfg.lim_power_min c) then
    cl_set cmd_power (VNum 0) true ;;
    cl_set cmd_mode_path (VNum (cfg.cmd_mode_off c)) true ;;
    set_state (state.set_last_load (Some 0))
  else
    cl_set cmd_power (VNum (Qmin p 1)) true ;;
    cl_set cmd_mode_path (VNum (cfg.cmd_mode_on c)) true ;;
    set_state (state.set_last_load (Some p)).

(** [self.pid_x(i, t=t)] *)
Definition call_pid (sel : pids.t P -> P) (upd : P -> pids.t P -> pids.t P)
    (i t : Q) : prog P Q :=
  fun m =>
    let r := pid_call (sel (pid m)) i t in
    Next (fst r) (with_pid (upd (snd r)) m).

(** [if self.pid_x.state.get("setpoint",None) != v: self.pid_x.setpoint(v)] *)
Definition sync_setpoint (sel : pids.t P -> P) (upd : P -> pids.t P -> pids.t P)
    (v : Q) : prog P unit :=
  m <- get ;;
  let differs :=
    match pid_get_setpoint (sel (pid m)) with
    | Some old => negb (Qeq_bool old v)
    | None => true
    end in
  if differs then set_pid (fun ps => upd (pid_setpoint (sel ps) v) ps) else pass.

Definition handle_flow (s : self.t) : prog P unit :=
  l_flow <- call_pid pids.flow pids.set_flow (self.r_flow s) (self.time s) ;;
  l_temp <- call_pid pids.pump pids.set_pump (self.t_out s) (self.time s) ;;
  let res := Qmax l_flow l_temp in
  set_flow_pwm res ;;
  set_state (state.set_last_pump (Some res)).

(** *** Part 1: what to do when a state changes *)

(** "check for inappropriate state changes" *)
Definition check_transition (orun : option Run.t) (run : Run.t) : prog P unit :=
  if oeqb orun run then pass
  else match orun with
  | None => pass
  | Some o =>
    if Run.eqb run Run.off then pass
    else if Run.eqb run Run.ice then pass
    else if (Run.value run =? Run.value o + 1)%Z then pass
    else if negb (Run.eqb o Run.off) && Run.eqb run Run.down then pass
    else if Run.eqb o Run.down && Run.eqb run Run.off then pass
    else raise (ValueError_cannot_go o run)
  end.

(** [orun in (Run.off,Run.wait_time,Run.wait_flow,Run.wait_power,Run.down)] *)
Definition in_off_tuple (orun : option Run.t) : bool :=
  oeqb orun Run.off || oeqb orun Run.wait_time || oeqb orun Run.wait_flow
  || oeqb orun Run.wait_power || oeqb orun Run.down.

(** "redirect for shutdown" *)
Definition redirect (orun : option Run.t) : prog P unit :=
  m <- get ;;
  if Run.eqb (var.run (vars m)) Run.off then
    if negb (in_off_tuple orun) then set_var (var.set_run Run.down) else pass
  else pass.

(** "Leaving a state" *)
Definition leave_state (orun : option Run.t) : prog P unit :=
  m <- get ;;
  match orun with
  | None =>
    if Run.eqb (var.run (vars m)) Run.run then
      match state.load_last (st m) with
      | Some last => set_load last
      | None => pass
      end
    else pass
  | Some _ => pass
  end.

(** "Entering a state"; [oheat_off,heat_off = heat_off,None] comes first *)
Definition enter_state (s : self.t) (orun : option Run.t) : prog P unit :=
  m <- get ;;
  let run := var.run (vars m) in
  let oheat_off := var.heat_off (vars m) in
  set_var (var.set_heat_off None) ;;
  if oeqb orun run then
    (* no change; [await self.wait()] happens here *)
    set_var (var.set_heat_off oheat_off)
  else match run with
  | Run.off =>
    set_var (var.set_heat_off (Some false)) ;;
    set_flow_pwm 0 ;;
    set_load 0 ;;
    set_state (state.set_last_pwm None)
  | Run.wait_time =>
    set_flow_pwm 0 ;;
    set_load 0
  | Run.wait_flow =>
    set_var (var.set_heat_off (Some true)) ;;
    cl_set cmd_mode_path (VNum (cfg.cmd_mode_off c)) false ;;
    set_flow_pwm (cfg.misc_start_flow_init_pwm c)
  | Run.flow => pass
  | Run.wait_power =>
    m <- get ;;
    set_pid (fun ps => pids.set_flow
      (pid_move_to (pids.flow ps) (self.r_flow s) (state.last_pwm (st m)) None) ps) ;;
    set_load (cfg.misc_start_power c)
  | Run.temp =>
    set_pid (fun ps => pids.set_flow
      (pid_setpoint (pids.flow ps) (cfg.misc_start_flow_power_rate c)) ps) ;;
    set_flow_pwm (cfg.misc_start_flow_power_pwm c)
  | Run.run =>
    set_var (var.set_heat_off (Some false)) ;;
    m <- get ;;
    (match state.t_run (st m) with
     | Some _ => pass
     | None => set_state (state.set_t_run (Some (self.time s)))
     end) ;;
    (match orun with
     | Some _ =>
       set_pid (fun ps => pids.set_limit (pid_reset (pids.limit ps)) ps) ;;
       set_pid (fun ps => pids.set_load (pid_reset (pids.load ps)) ps) ;;
       set_pid (fun ps => pids.set_buffer (pid_reset (pids.buffer ps)) ps)
     | None => pass
     end) ;;
    m <- get ;;
    set_pid (fun ps => pids.set_pump
      (pid_move_to (pids.pump ps) (self.t_out s) (state.last_pwm (st m))
         (Some (self.time s))) ps) ;;
    set_state (state.set_load_last None)
  | Run.ice =>
    set_var (var.set_heat_off (Some true)) ;;
    set_pid (fun ps => pids.set_flow
      (pid_setpoint (pids.flow ps) (cfg.misc_de_ice c)) ps) ;;
    cl_set cmd_mode_path (VNum (cfg.cmd_mode_off c)) false ;;
    cl_set cmd_power (VNum 0) false
  | Run.down =>
    set_var (var.set_heat_off (Some true)) ;;
    set_pid (fun ps => pids.set_flow
      (pid_setpoint (pids.flow ps) (cfg.misc_stop_flow c)) ps) ;;
    cl_set cmd_mode_path (VNum (cfg.cmd_mode_off c)) false ;;
    cl_set cmd_power (VNum 0) false
  end.

(** [orun = run; self.state.run = int(run)] *)
Definition commit_state : prog P unit :=
  m <- get ;;
  set_var (var.set_orun (Some (var.run (vars m)))) ;;
  set_state (state.set_run (Run.value (var.run (vars m)))).

(** *** Exit conditions *)

(** "When de-icing starts, shut down (for now)." *)
Definition check_ice (s : self.t) : prog P unit :=
  m <- get ;;
  if self.m_ice s then
    if negb (var.m_ice (vars m)) then
      set_var (var.set_m_ice true) ;;
      cl_set feedback_ice (VBool true) false ;;
      set_var (var.set_run Run.ice) ;;
      continue
    else pass
  else
    (if var.m_ice (vars m) then cl_set feedback_ice (VBool false) false else pass) ;;
    set_var (var.set_m_ice false).

(** "Process the main switch" *)
Definition check_main (s : self.t) : prog P unit :=
  m <- get ;;
  if negb (self.cm_main s) || bool_decide (self.m_errors s ≠ ∅) then
    if is_true (var.cm_main (vars m)) then
      set_var (var.set_cm_main (Some false)) ;;
      cl_set feedback_main (VBool (self.cm_main s)) false ;;
      set_var (var.set_run Run.off) ;;
      continue
    else pass
  else
    if negb (is_true (var.cm_main (vars m))) then
      set_var (var.set_cm_main (Some true)) ;;
      cl_set feedback_main (VBool (self.cm_main s)) false
    else pass.

(** "Process the heating control switch" *)
Definition check_heat (s : self.t) : prog P unit :=
  m <- get ;;
  if bool_decide (Some (self.cm_heat s) ≠ var.cm_heat (vars m)) then
    cl_set feedback_heat (VBool (self.cm_heat s)) false ;;
    set_var (var.set_cm_heat (Some (self.cm_heat s)))
  else pass.

Definition goto (r : Run.t) : prog P unit :=
  set_var (var.set_run r) ;; continue.

(** "State handling" *)
Definition handle_state (s : self.t) (T : temps) : prog P unit :=
  m <- get ;;
  match var.run (vars m) with
  | Run.off =>
    if negb (is_true (var.cm_main (vars m))) then pass
    else if bool_decide (self.m_errors s ≠ ∅) then pass
    else if force_on m || Qlt_bool (t_cur T) (t_set_on T) then
      set_var (var.set_run Run.wait_time) ;;
      modify (with_force_on false) ;;
      continue
    else pass
  | Run.wait_time =>
    let t_load := match state.t_load (st m) with Some t => t | None => 0 end in
    if Qlt_bool (t_load + cfg.misc_start_delay c) (self.time s)
    then goto Run.wait_flow else pass
  | Run.wait_flow =>
    if Qtruthy (self.r_flow s) then goto Run.flow else pass
  | Run.flow =>
    if Qle_bool (cfg.misc_start_flow_init_rate c * 3 / 4) (self.r_flow s)
    then goto Run.wait_power
    else
      l_flow <- call_pid pids.flow pids.set_flow (self.r_flow s) (self.time s) ;;
      set_flow_pwm l_flow
  | Run.wait_power =>
    if Qle_bool (cfg.misc_min_power c) (self.m_power s)
    then goto Run.temp
    else
      l_flow <- call_pid pids.flow pids.set_flow (self.r_flow s) (self.time s) ;;
      set_flow_pwm l_flow
  | Run.temp =>
    set_state (state.set_t_load (Some (self.time s))) ;;
    if Qlt_bool (cfg.misc_start_delta c) (self.t_out s - self.t_in s)
    then goto Run.run
    else handle_flow s
  | Run.run =>
    set_state (state.set_t_load (Some (self.time s)))
  | Run.ice =>
    handle_flow s ;;
    if negb (self.m_ice s) then goto Run.down else pass
  | Run.down =>
    handle_flow s ;;
    if Qlt_bool (self.t_out s - self.t_in s) (cfg.misc_stop_delta c)
    then goto Run.off else pass
  end.

(** *** Heating path *)

(** the local [heat_ok] *)
Definition heat_cond (s : self.t) (m : machine P) : bool :=
  negb (is_true (var.heat_off (vars m)))
  && Qle_bool (self.c_heat s)
       (Qmin (self.tb_heat s)
             (if otruthy (state.last_pwm (st m)) then self.t_out s else 9999)).

(** the heating command, through the feed or through the GPIO pin *)
Definition heat_write (on : bool) : action :=
  match cfg.setting_heat_power c with
  | None =>
    ClSet setting_heat_mode_path
      (VNum (if on then cfg.setting_heat_mode_on c else cfg.setting_heat_mode_off c))
      false
  | Some heat_pin => GpioOutput heat_pin on
  end.

Definition heat_command (on : bool) : prog P unit := emit (heat_write on).

Definition heat_path (s : self.t) : prog P unit :=
  m <- get ;;
  if negb (heat_cond s m) then
    if negb (Run.eqb (var.run (vars m)) Run.run)
       && negb (is_HFalse (state.heat_ok (st m)))
    then
      heat_command false ;;
      set_state (state.set_heat_ok HFalse)
    else pass
  else match state.heat_ok (st m) with
  | HTrue => pass
  | HFalse => set_state (state.set_heat_ok (HSince (self.time s)))
  | HSince t0 =>
    if Qlt_bool (cfg.setting_heat_mode_delay c) (self.time s - t0) then
      heat_command true ;;
      set_state (state.set_heat_ok HTrue)
    else pass
  end.

(** *** "RUNNING ONLY after this point" *)

Definition check_power (s : self.t) : prog P unit :=
  m <- get ;;
  if Qlt_bool (self.m_power s) (cfg.misc_min_power c) then
    match var.t_no_power (vars m) with
    | None => set_var (var.set_t_no_power (Some (self.time s)))
    | Some t0 =>
      if Qlt_bool 20 (self.time s - t0) then goto Run.off else pass
    end
  else set_var (var.set_t_no_power None).

(** "The pump rate is controlled by its intended output heat now" *)
Definition pump_rate (s : self.t) : prog P Q :=
  if Qlt_bool (cfg.adj_max c) (self.t_out s) then ret 1
  else
    l_pump <- call_pid pids.pump pids.set_pump (self.t_out s) (self.time s) ;;
    set_pid (fun ps => pids.set_flow
      (pid_move_to (pids.flow ps) (self.r_flow s) (Some l_pump) (Some (self.time s))) ps) ;;
    ret l_pump.

Definition cascade (s : self.t) (T : temps) : prog P unit :=
  l_pump <- pump_rate s ;;
  l_load <- call_pid pids.load pids.set_load (t_cur T) (self.time s) ;;
  l_buffer <- call_pid pids.buffer pids.set_buffer (self.tb_low s) (self.time s) ;;
  l_limit <- call_pid pids.limit pids.set_limit (self.t_out s) (self.time s) ;;
  let lim := Qmin (Qmin l_load l_buffer) l_limit in
  set_load lim ;;
  set_flow_pwm l_pump ;;
  set_state (state.set_load_last (Some lim)).

Definition update_cop (s : self.t) : prog P unit :=
  if Qtruthy (self.m_power s) then
    m <- get ;;
    let cop := (116 # 100) * 60 * self.r_flow s * (self.t_out s - self.t_in s)
               / 1000 / self.m_power s in
    let m_cop' := m_cop m + (1 # 1000) * (cop - m_cop m) in
    modify (with_m_cop m_cop') ;;
    if (var.n_cop (vars m) <=? 0)%Z then
      set_var (var.set_n_cop 100%Z) ;;
      cl_set sensor_cop (VNum m_cop') false
    else set_var (var.set_n_cop (var.n_cop (vars m) - 1)%Z)
  else pass.

(** "Finally, we might want to turn the heat exchanger off." *)
Definition check_done (s : self.t) (T : temps) : prog P unit :=
  if Qle_bool (t_adj T) (t_cur T) then
    m <- get ;;
    match state.t_run (st m) with
    | None => raise (AttributeError "t_run")
    | Some t_run =>
      if Qlt_bool (cfg.lim_power_time c) (self.time s - t_run)
         && Qle_bool (t_set_off T) (self.tb_mid s)
      then goto Run.off
      else if Qle_bool (t_low T) (self.tb_low s) then goto Run.off
      else pass
    end
  else pass.

Definition running (s : self.t) (T : temps) : prog P unit :=
  check_power s ;;
  sync_setpoint pids.load pids.set_load (t_load T) ;;
  sync_setpoint pids.buffer pids.set_buffer (t_buffer T) ;;
  sync_setpoint pids.limit pids.set_limit (t_limit T) ;;
  sync_setpoint pids.pump pids.set_pump (t_pump T) ;;
  cascade s T ;;
  update_cop s ;;
  check_done s T.

(** *** One pass through [while True:] *)

(** Part 1: the transition check, the redirect and the entry actions *)
Definition state_change (s : self.t) : prog P unit :=
  m <- get ;;
  let orun := var.orun (vars m) in
  check_transition orun (var.run (vars m)) ;;
  redirect orun ;;
  leave_state orun ;;
  enter_state s orun ;;
  commit_state.

(** the rest of the body: switches, targets, state handling, heating
    path and, in [Run.run], the cascade *)
Definition evaluate (s : self.t) : prog P unit :=
  check_ice s ;;
  check_main s ;;
  check_heat s ;;
  m <- get ;;
  let T := targets c s (var.cm_heat (vars m)) in
  handle_state s T ;;
  heat_path s ;;
  m <- get ;;
  if negb (Run.eqb (var.run (vars m)) Run.run) then continue
  else running s T.

Definition loop_body (s : self.t) : prog P unit :=
  state_change s ;;
  evaluate s.

Inductive result : Type :=
| Ok (m : machine P)
| Error (e : exn).

(** One iteration, started with an empty output list: [out] of the result
    is what this iteration wrote. *)
Definition iteration (s : self.t) (m : machine P) : result :=
  match loop_body s (with_out (fun _ => []) m) with
  | Next _ m' => Ok m'
  | Continue m' => Ok m'
  | Raise e => Error e
  end.

(** The loop over the successive snapshots of [self]. *)
Fixpoint run_loop (ss : list self.t) (m : machine P) : result :=
  match ss with
  | [] => Ok m
  | s :: ss' =>
    match iteration s m with
    | Ok m' => run_loop ss' m'
    | Error e => Error e
    end
  end.

(** The states entered along the loop, one per completed iteration. *)
Fixpoint entered (ss : list self.t) (m : machine P) : list (option Run.t) :=
  match ss with
  | [] => []
  | s :: ss' =>
    match iteration s m with
    | Ok m' => var.orun (vars m') :: entered ss' m'
    | Error _ => []
    end
  end.

(** *** Summaries used by the proofs *)

(** the state the entry actions are run for: [run] after the redirect *)
Definition entered_run (m : machine P) : Run.t :=
  if Run.eqb (var.run (vars m)) Run.off && negb (in_off_tuple (var.orun (vars m)))
  then Run.down else var.run (vars m).

(** [self.m_ice and not m_ice] *)
Definition ice_edge (s : self.t) (m : machine P) : bool :=
  self.m_ice s && negb (var.m_ice (vars m)).

(** [not self.cm_main or bool(self.m_errors)] *)
Definition main_off (s : self.t) : bool :=
  negb (self.cm_main s) || bool_decide (self.m_errors s ≠ ∅).

(** the state that "State handling" asks for, if any *)
Definition advance (s : self.t) (T : temps) (m : machine P) : option Run.t :=
  match var.run (vars m) with
  | Run.off =>
    if is_true (var.cm_main (vars m)) && negb (bool_decide (self.m_errors s ≠ ∅))
       && (force_on m || Qlt_bool (t_cur T) (t_set_on T))
    then Some Run.wait_time else None
  | Run.wait_time =>
    if Qlt_bool (match state.t_load (st m) with Some t => t | None => 0 end
                 + cfg.misc_start_delay c) (self.time s)
    then Some Run.wait_flow else None
  | Run.wait_flow => if Qtruthy (self.r_flow s) then Some Run.flow else None
  | Run.flow =>
    if Qle_bool (cfg.misc_start_flow_init_rate c * 3 / 4) (self.r_flow s)
    then Some Run.wait_power else None
  | Run.wait_power =>
    if Qle_bool (cfg.misc_min_power c) (self.m_power s) then Some Run.temp else None
  | Run.temp =>
    if Qlt_bool (cfg.misc_start_delta c) (self.t_out s - self.t_in s)
    then Some Run.run else None
  | Run.run => None
  | Run.ice => if negb (self.m_ice s) then Some Run.down else None
  | Run.down =>
    if Qlt_bool (self.t_out s - self.t_in s) (cfg.misc_stop_delta c)
    then Some Run.off else None
  end.

(** the control variables are left alone *)
Definition keeps (m m' : machine P) : Prop :=
  var.run (vars m') = var.run (vars m) /\
  var.orun (vars m') = var.orun (vars m) /\
  var.m_ice (vars m') = var.m_ice (vars m) /\
  var.cm_main (vars m') = var.cm_main (vars m) /\
  var.cm_heat (vars m') = var.cm_heat (vars m) /\
  force_on m' = force_on m.

(** a program that always falls through and keeps the control variables *)
Definition quiet {A} (p : prog P A) : Prop :=
  forall m, exists a m', p m = Next a m' /\ keeps m m'.

(** a program that falls through, or asks for [off], or misses [t_run] *)
Definition stops {A} (p : prog P A) : Prop :=
  forall m,
    match p m with
    | Next _ m' => keeps m m'
    | Continue m' =>
        var.run (vars m') = Run.off /\ var.orun (vars m') = var.orun (vars m)
    | Raise e => e = AttributeError "t_run"
    end.

(** what [set_load p] writes *)
Definition set_load_writes (p : Q) : list action :=
  if Qlt_bool p (cfg.lim_power_min c)
  then [ClSet cmd_power (VNum 0) true;
        ClSet cmd_mode_path (VNum (cfg.cmd_mode_off c)) true]
  else [ClSet cmd_power (VNum (Qmin p 1)) true;
        ClSet cmd_mode_path (VNum (cfg.cmd_mode_on c)) true].

(** the loop memory after
    [if pid.state.get("setpoint",None) != v: pid.setpoint(v)] *)
Definition synced (p : P) (v : Q) : P :=
  match pid_get_setpoint p with
  | Some old => if negb (Qeq_bool old v) then pid_setpoint p v else p
  | None => pid_setpoint p v
  end.

(** the outputs of the three load loops on a pass through the cascade *)
Definition l_load (s : self.t) (T : temps) (m : machine P) : Q :=
  fst (pid_call (synced (pids.load (pid m)) (t_load T)) (t_cur T) (self.time s)).

Definition l_buffer (s : self.t) (T : temps) (m : machine P) : Q :=
  fst (pid_call (synced (pids.buffer (pid m)) (t_buffer T)) (self.tb_low s) (self.time s)).

Definition l_limit (s : self.t) (T : temps) (m : machine P) : Q :=
  fst (pid_call (synced (pids.limit (pid m)) (t_limit T)) (self.t_out s) (self.time s)).

(** [lim = min(l_load, l_buffer, l_limit)] *)
Definition lim (s : self.t) (T : temps) (m : machine P) : Q :=
  Qmin (Qmin (l_load s T m) (l_buffer s T m)) (l_limit s T m).

(** [l_pump]: 1 above the maximum, else the output of the pump loop *)
Definition l_pump (s : self.t) (T : temps) (m : machine P) : Q :=
  if Qlt_bool (cfg.adj_max c) (self.t_out s) then 1
  else fst (pid_call (synced (pids.pump (pid m)) (t_pump T)) (self.t_out s) (self.time s)).

(** no power drawn for more than 20 seconds *)
Definition stalled (s : self.t) (m : machine P) : bool :=
  Qlt_bool (self.m_power s) (cfg.misc_min_power c)
  && match var.t_no_power (vars m) with
     | Some t0 => Qlt_bool 20 (self.time s - t0)
     | None => false
     end.

(** a pass in [Run.run] that leaves through a [continue] before the cascade *)
Definition preempted (s : self.t) (m : machine P) : bool :=
  ice_edge s m || (main_off s && is_true (var.cm_main (vars m))) || stalled s m.

(** nothing written to the load command or to the flow port *)
Definition silent (w : list action) : Prop :=
  power_writes w = [] /\ flow_writes w = [].

(** the loops, the load and pump memory of [state] and the run start are
    left alone, and what is written is silent *)
Definition calm (m m' : machine P) : Prop :=
  pid m' = pid m
  /\ state.load_last (st m') = state.load_last (st m)
  /\ state.last_pwm (st m') = state.last_pwm (st m)
  /\ state.t_run (st m') = state.t_run (st m)
  /\ exists w, out m' = out m ++ w /\ silent w.

(** only the loop memory differs *)
Definition only_pid (m m' : machine P) : Prop :=
  vars m' = vars m /\ st m' = st m /\ out m' = out m.

(** What a pass through the cascade leaves behind, seen from the machine
    [m] the iteration started with: after [pre], the writes of
    [set_load(lim)], then the pump speed, then silent writes only. *)
Definition cascaded (s : self.t) (T : temps) (m m' : machine P) (pre : list action)
  : Prop :=
  exists post,
    out m' = pre ++ set_load_writes (lim s T m) ++ [FlowPwm (l_pump s T m)] ++ post
    /\ silent post
    /\ state.load_last (st m') = Some (lim s T m)
    /\ state.last_pwm (st m') = Some (l_pump s T m)
    /\ (Qlt_bool (cfg.adj_max c) (self.t_out s) = true ->
        pids.pump (pid m') = synced (pids.pump (pid m)) (t_pump T)).

(** a program that is calm however it ends *)
Definition calmly {A} (p : prog P A) : Prop :=
  forall m,
    match p m with
    | Next _ m' => calm m m'
    | Continue m' => calm m m'
    | Raise _ => True
    end.

(** [state.heat_ok] after the heating-path block *)
Definition heat_ok_after (s : self.t) (m : machine P) : heat_ok_t :=
  match heat_path s m with
  | Next _ m' => state.heat_ok (st m')
  | Continue m' => state.heat_ok (st m')
  | Raise _ => state.heat_ok (st m)
  end.

(** One evaluation of the heating-path block: only this block writes
    [state.heat_ok], everything else is as the cycle finds it. *)
Definition heat_step (h : heat_ok_t) (x : self.t * machine P) : heat_ok_t :=
  heat_ok_after (fst x) (with_st (state.set_heat_ok h) (snd x)).

Definition heat_run (h : heat_ok_t) (cycles : list (self.t * machine P)) : heat_ok_t :=
  fold_left heat_step cycles h.

(** a cycle evaluated outside [Run.run] *)
Definition not_running (x : self.t * machine P) : Prop :=
  var.run (vars (snd x)) <> Run.run.

(** a cycle on which the local [heat_ok] is true *)
Definition cond_met (x : self.t * machine P) : Prop :=
  heat_cond (fst x) (snd x) = true.

End Controller.

Arguments Ok {P}.
Arguments Error {P}.

(** ** A feedback loop with a fixed output

    The simplest implementation of the interface: it remembers its setpoint
    and answers every call with the same number. The concrete runs below
    use it to pick the loop outputs freely. *)

Record fixed_pid : Type := { fp_setpoint : option Q; fp_out : Q }.

#[global] Instance fixed_CPID : CPID fixed_pid := {|
  pid_call p _ _ := (fp_out p, p);
  pid_setpoint p v := {| fp_setpoint := Some v; fp_out := fp_out p |};
  pid_get_setpoint p := fp_setpoint p;
  pid_reset p := p;
  pid_move_to p _ _ _ := p
|}.

Definition fixed (q : Q) : fixed_pid := {| fp_setpoint := None; fp_out := q |}.

(** ** The fault monitor: [Data.err_mon] *)

Module err.
(** One message of the error watch, its path already completed by the
    [PathLongener]. [value = None] is a message without a ["value"] key. *)
Record msg : Type := { path_of : path; value_of : option Z }.

Inductive log : Type :=
| WP_COMM_ERR                          (* print("WP COMM ERR") *)
| ERROR (v : Z)                        (* print("ERROR", m.value) *)
| ERROR_at (p : path) (v : Z)          (* print("ERROR", m.path, m.value) *)
| BANNER (errs : gmap path Z).         (* print("****** ERROR ********", errs) *)

Record t : Type := {
  m_errors : gmap path Z;     (* self.m_errors *)
  logged : list log;          (* what was printed *)
  triggers : nat              (* calls of self.trigger() *)
}.

Definition start : t := {| m_errors := ∅; logged := []; triggers := 0 |}.

(** the body of [async for m in msgs:] *)
Definition step (d : t) (m : msg) : t :=
  match value_of m with
  | None => d
  | Some v =>
    let errs := m_errors d in
    let err := err_base ++ path_of m in
    let was := bool_decide (errs ≠ ∅) in
    let r :=
      if negb (v =? 0)%Z then
        if (v =? 30055)%Z then (errs, [WP_COMM_ERR])
        else if bool_decide (path_of m = P_1) then (errs, [ERROR v])
        else (<[err := v]> errs, [ERROR_at (path_of m) v])
      else (delete err errs, []) in
    let errs' := fst r in
    {| m_errors := errs';
       logged := logged d ++ snd r
                 ++ (if was || bool_decide (errs' ≠ ∅) then [BANNER errs'] else []);
       triggers := S (triggers d) |}
  end.

Definition err_mon (msgs : list msg) (d : t) : t := fold_left step msgs d.

(** [isFaulted]: [bool(self.m_errors)] *)
Definition faulted (d : t) : bool := bool_decide (m_errors d ≠ ∅).
End err.

(** ** The startup barrier: [Data._kv], [Data.all_done], [Data.run_init] *)

Module barrier.
(** What a subscription delivers. *)
Inductive msg : Type :=
| UpToDate      (* m.get("state","") == "uptodate" *)
| Unknown       (* neither a state marker nor a value *)
| Value.        (* "value" in m *)

#[global] Instance msg_eq_dec : EqDecision msg.
Proof. solve_decision. Defined.

Record t : Type := {
  want : gset string;     (* self._want *)
  known : gset string;    (* the names v with hasattr(self, v) *)
  miss : gset string      (* the _kv tasks whose local miss is True *)
}.

(** the names handed to [_kv] by [run_init] *)
Definition required : list string :=
  ["c_flow"; "cm_main"; "cm_heat"; "c_heat"; "c_heat_night"; "c_water";
   "m_passthru"; "t_in"; "t_out"; "r_flow"; "m_ice"; "m_cop";
   "tb_water"; "tb_heat"; "tb_mid"; "tb_low"; "m_power"]%string.

(** after the [tg.start(self._kv, ...)] calls: every task has run
    [self._want.add(v)] and none has seen a message *)
Definition start : t :=
  {| want := list_to_set required; known := ∅; miss := ∅ |}.

(** [self._want.remove(v)] raises [KeyError] when [v] is not in the set *)
Definition remove (v : string) (b : t) : exn + t :=
  if bool_decide (v ∈ want b)
  then inr {| want := want b ∖ {[v]}; known := known b; miss := miss b |}
  else inl (KeyError v).

Definition set_miss (v : string) (flag : bool) (b : t) : t :=
  {| want := want b; known := known b;
     miss := if flag then miss b ∪ {[v]} else miss b ∖ {[v]} |}.

(** [self.has(v, m.value)] as far as the barrier sees it *)
Definition has (v : string) (b : t) : t :=
  {| want := want b; known := known b ∪ {[v]}; miss := miss b |}.

(** the body of [async for m in msgs:] in the task [_kv(p, v)] *)
Definition kv (v : string) (m : msg) (b : t) : exn + t :=
  match m with
  | UpToDate =>
    if bool_decide (v ∈ known b)
    then remove v (set_miss v false b)
    else inr (set_miss v true b)
  | Unknown => inr b
  | Value =>
    if bool_decide (v ∈ miss b)
    then match remove v (set_miss v false b) with
         | inr b' => inr (has v b')
         | inl e => inl e
         end
    else inr (has v b)
  end.

(** [all_done] under [anyio.fail_after(init_timeout)]. [evs] are the
    messages handled before the timeout, in the order the event loop
    runs the tasks. The wait ends as soon as [_want] is empty; when the
    messages run out first the timeout fires and [run_init] raises
    [ValueError("missing:"+repr(self._want))]. *)
Fixpoint all_done (evs : list (string * msg)) (b : t) : exn + t :=
  if bool_decide (want b = ∅) then inr b
  else match evs with
  | [] => inl (ValueError_missing (want b))
  | (v, m) :: evs' =>
    match kv v m b with
    | inr b' => all_done evs' b'
    | inl e => inl e
    end
  end.

Definition run_init (evs : list (string * msg)) : exn + t := all_done evs start.

(** a value for [v] was handled: [v] has been observed *)
Definition valued (v : string) (seen : list (string * msg)) : Prop :=
  (v, Value) ∈ seen.

(** the subscription of [v] reported that it is up to date *)
Definition marked (v : string) (seen : list (string * msg)) : Prop :=
  (v, UpToDate) ∈ seen.

#[global] Instance valued_dec v seen : Decision (valued v seen).
Proof. unfold valued. apply _. Defined.

#[global] Instance marked_dec v seen : Decision (marked v seen).
Proof. unfold marked. apply _. Defined.

(** the three sets, read off the messages handled so far *)
Definition tracks (b : t) (seen : list (string * msg)) : Prop :=
  (forall v, v ∈ want b <-> v ∈ required /\ ~ (valued v seen /\ marked v seen))
  /\ (forall v, v ∈ known b <-> valued v seen)
  /\ (forall v, v ∈ miss b <-> marked v seen /\ ~ valued v seen).
End barrier.

(** ** Concrete runs

    The built-in configuration, loops with fixed outputs 0.5 (load),
    0.6 (buffer), 0.7 (limit), 0.3 (pump), 0.4 (flow), and a few snapshots
    of the installation. *)

Definition demo_pids : pids.t fixed_pid := {|
  pids.load := fixed (5 # 10); pids.buffer := fixed (6 # 10);
  pids.limit := fixed (7 # 10); pids.pump := fixed (3 # 10);
  pids.flow := fixed (4 # 10)
|}.

Definition demo_vars (orun : option Run.t) (run : Run.t) : var.t := {|
  var.run := run; var.orun := orun; var.m_ice := false;
  var.cm_main := Some true; var.cm_heat := Some false; var.n_cop := 5;
  var.t_no_power := None; var.heat_off := Some false
|}.

Definition demo_machine (orun : option Run.t) (run : Run.t) (s : state.t)
  : machine fixed_pid :=
  {| vars := demo_vars orun run; st := s; pid := demo_pids;
     force_on := false; m_cop := 3; out := [] |}.

(** The scenario of the specification: inlet and outlet at 30, no flow,
    water setpoint 38 (so the "on" threshold is 40), buffer top at 35,
    main switch on, no faults. *)
Definition s_cold : self.t := {|
  self.cm_main := true; self.cm_heat := false; self.c_heat := 30;
  self.c_water := 38; self.t_in := 30; self.t_out := 30; self.r_flow := 0;
  self.m_ice := false; self.tb_water := 35; self.tb_heat := 30;
  self.tb_mid := 30; self.tb_low := 30; self.m_power := 0; self.time := 1000;
  self.m_errors := ∅
|}.

(** the same with the buffer top at 45, above the threshold *)
Definition s_warm : self.t := {|
  self.cm_main := true; self.cm_heat := false; self.c_heat := 30;
  self.c_water := 38; self.t_in := 30; self.t_out := 30; self.r_flow := 0;
  self.m_ice := false; self.tb_water := 45; self.tb_heat := 30;
  self.tb_mid := 30; self.tb_low := 30; self.m_power := 0; self.time := 1000;
  self.m_errors := ∅
|}.

(** running, with the outlet at 65 (the configured maximum is 61) and the
    heating buffer at [tb_heat]; the heating setpoint is 30 *)
Definition s_hot (tb_heat time : Q) : self.t := {|
  self.cm_main := true; self.cm_heat := false; self.c_heat := 30;
  self.c_water := 38; self.t_in := 30; self.t_out := 65; self.r_flow := 15;
  self.m_ice := false; self.tb_water := 35; self.tb_heat := tb_heat;
  self.tb_mid := 30; self.tb_low := 30; self.m_power := 2; self.time := time;
  self.m_errors := ∅
|}.

(** running, buffer charged: top at 45, bottom at 40; outlet minus inlet is 35 *)
Definition s_done (cm_main : bool) : self.t := {|
  self.cm_main := cm_main; self.cm_heat := false; self.c_heat := 30;
  self.c_water := 38; self.t_in := 30; self.t_out := 65; self.r_flow := 15;
  self.m_ice := false; self.tb_water := 45; self.tb_heat := 30;
  self.tb_mid := 30; self.tb_low := 40; self.m_power := 2; self.time := 1000;
  self.m_errors := ∅
|}.

Definition st_off : state.t := state.empty.

(** [self.state] in the middle of a run: pump at 50%, heating enabled *)
Definition st_run (h : heat_ok_t) : state.t := {|
  state.run := 6; state.last_pwm := Some (5 # 10); state.last_load := Some (5 # 10);
  state.load_last := Some (5 # 10); state.t_run := Some 900;
  state.t_load := Some 990; state.heat_ok := h; state.last_pump := None
|}.

Definition m_off : machine fixed_pid := demo_machine (Some Run.off) Run.off st_off.
Definition m_run (h : heat_ok_t) : machine fixed_pid :=
  demo_machine (Some Run.run) Run.run (st_run h).
Definition m_ice : machine fixed_pid :=
  with_vars (var.set_m_ice true) (demo_machine (Some Run.ice) Run.ice (st_run HFalse)).

(** ** The start of [run_pump] and the shutdown procedure [Data.off] *)

Section Shutdown.
Context {P : Type} `{CPID P}.
Variable c : cfg.t.

(** The machine at the first pass of the loop: [run = Run(self.state.get("run",0))]
    and the other assignments before [while True:]. A number that is no
    [Run] value makes [Run(...)] raise: [None]. [GPIO.setup] of the heating
    pin writes nothing that the loop reads and is not recorded; [tlast]
    only paces a [print]. *)
Definition start_of (st0 : state.t) (ps : pids.t P) (force : bool) (cop : Q)
  : option (machine P) :=
  match Run.of_value (state.run st0) with
  | Some r =>
    Some {| vars := var.init r; st := st0; pid := ps; force_on := force;
            m_cop := cop; out := [] |}
  | None => None
  end.

(** the machine after a program that does not raise *)
Definition after {A} (p : prog P A) (m : machine P) : machine P :=
  match p m with
  | Next _ m' => m'
  | Continue m' => m'
  | Raise _ => m
  end.

(** [self.t_out-self.t_in > self.cfg.misc.stop.delta] *)
Definition hot (s : self.t) : bool :=
  Qlt_bool (cfg.misc_stop_delta c) (self.t_out s - self.t_in s).

(** [while hot: await self.handle_flow(); await self.wait()]: [s] is the
    snapshot the test reads, [ss] are the snapshots the following waits
    return. The flag tells whether the loop was left; when the snapshots
    run out first the procedure is still inside [self.wait()]. *)
Fixpoint cool_down (s : self.t) (ss : list self.t) (m : machine P)
  : machine P * bool :=
  if hot s then
    let m1 := after (handle_flow s) m in
    match ss with
    | [] => (m1, false)
    | s' :: ss' => cool_down s' ss' m1
    end
  else (m, true).

(** the machine and what [self.save()] has written to the state file,
    oldest first: each save dumps [self.state] as it is at that moment *)
Record off_state : Type := { off_machine : machine P; saved : list state.t }.

Inductive off_result : Type :=
| OffDone (d : off_state)         (* the procedure returned *)
| OffWaiting (d : off_state)      (* still cooling down *)
| OffValueError (n : Z).          (* Run(n) raised *)

Definition off (s0 : self.t) (ss : list self.t) (d : off_state) : off_result :=
  let m := off_machine d in
  match Run.of_value (state.run (st m)) with
  | None => OffValueError (state.run (st m))
  | Some _ =>
    let m1 := with_st (state.set_run (Run.value Run.down)) m in
    let saved1 := saved d ++ [st m1] in
    let m2 := after (set_load c 0) m1 in
    let r := cool_down s0 ss m2 in
    if snd r then
      let m4 := after (set_flow_pwm 0) (fst r) in
      let m5 := with_st (state.set_run 0) m4 in
      OffDone {| off_machine := m5; saved := saved1 ++ [st m5] |}
    else OffWaiting {| off_machine := fst r; saved := saved1 |}
  end.

(** *** Predicates for the invariants of the loop *)


(** What every part of the loop body but [self.state.run = int(run)]
    respects: the persisted [state.run] is left alone, a recorded start of
    the run is kept, [force_on] is at most cleared, and the output list
    only grows. *)
Definition steady (m m' : machine P) : Prop :=
  state.run (st m') = state.run (st m)
  /\ (forall t, state.t_run (st m) = Some t -> state.t_run (st m') = Some t)
  /\ (force_on m' = true -> force_on m = true)
  /\ exists w, out m' = out m ++ w.

(** a program that is steady however it ends *)
Definition steadily {A} (p : prog P A) : Prop :=
  forall m,
    match p m with
    | Next _ m' => steady m m'
    | Continue m' => steady m m'
    | Raise _ => True
    end.

End Shutdown.

(** a fault table as [err_mon] builds it: no code 0, no code 30055, every
    key below [pump], none for the path [:1] *)
Definition fault_table_sound (errs : gmap path Z) : Prop :=
  forall k v, errs !! k = Some v ->
    v <> 0%Z /\ v <> 30055%Z /\ exists p, k = err_base ++ p /\ p <> P_1.

(** the messages that carry a value *)
Definition with_value (msgs : list err.msg) : list err.msg :=
  filter (fun m => is_Some (err.value_of m)) msgs.

(** the states in which the heat pump is not driven *)
Definition resting (r : Run.t) : Prop :=
  r = Run.off \/ r = Run.wait_time \/ r = Run.wait_flow.

(** only the flow port is written *)
Definition flow_only (w : list action) : Prop :=
  Forall (fun a => exists r, a = FlowPwm r) w.

(** the cold installation with the ice sensor raised *)
Definition s_iced : self.t := {|
  self.cm_main := true; self.cm_heat := false; self.c_heat := 30;
  self.c_water := 38; self.t_in := 30; self.t_out := 30; self.r_flow := 0;
  self.m_ice := true; self.tb_water := 35; self.tb_heat := 30;
  self.tb_mid := 30; self.tb_low := 30; self.m_power := 0; self.time := 1000;
  self.m_errors := ∅
|}.

(** * Proofs *)

(** ** Comparisons *)

Lemma Qlt_bool_iff (x y : Q) : Qlt_bool x y = true <-> x < y.
Proof.
  unfold Qlt_bool. rewrite negb_true_iff. split.
  - intros H. apply Qnot_le_lt. intros Hle.
    apply Qle_bool_iff in Hle. congruence.
  - intros H. destruct (Qle_bool y x) eqn:E; [|reflexivity].
    apply Qle_bool_iff in E. exfalso. exact (Qlt_not_le _ _ H E).
Qed.

Lemma Qlt_bool_false_iff (x y : Q) : Qlt_bool x y = false <-> y <= x.
Proof.
  unfold Qlt_bool. rewrite negb_false_iff. apply Qle_bool_iff.
Qed.

Lemma Run_eqb_eq (a b : Run.t) : Run.eqb a b = true <-> a = b.
Proof.
  unfold Run.eqb. rewrite Z.eqb_eq. split; [|congruence].
  destruct a, b; simpl; intros H; first [reflexivity | discriminate H].
Qed.

Lemma Run_of_value_value (r : Run.t) : Run.of_value (Run.value r) = Some r.
Proof. destruct r; reflexivity. Qed.

#[local] Arguments Qle_bool : simpl never.
#[local] Arguments Qeq_bool : simpl never.
#[local] Arguments Qlt_bool : simpl never.
#[local] Arguments Qtruthy : simpl never.
#[local] Arguments Qplus : simpl never.
#[local] Arguments Qminus : simpl never.
#[local] Arguments Qmult : simpl never.
#[local] Arguments Qdiv : simpl never.
#[local] Arguments Qmin : simpl never.
#[local] Arguments Qmax : simpl never.
#[local] Arguments targets : simpl never.
#[local] Arguments bool_decide : simpl never.

(** ** The loop body, phase by phase *)

Section Logic.
Context {P : Type} `{CPID P}.
Variable c : cfg.t.

Lemma bind_eq {A B} (p : prog P A) (k : A -> prog P B) m :
  bind p k m = match p m with
               | Next a m' => k a m'
               | Continue m' => Continue m'
               | Raise e => Raise e
               end.
Proof. reflexivity. Qed.

Lemma keeps_refl (m : machine P) : keeps m m.
Proof. repeat split. Qed.

Lemma keeps_trans (m1 m2 m3 : machine P) : keeps m1 m2 -> keeps m2 m3 -> keeps m1 m3.
Proof.
  unfold keeps. intros (?&?&?&?&?&?) (?&?&?&?&?&?).
  repeat split; congruence.
Qed.

Lemma quiet_bind {A B} (p : prog P A) (k : A -> prog P B) :
  quiet p -> (forall a, quiet (k a)) -> quiet (bind p k).
Proof.
  intros Hp Hk m. destruct (Hp m) as (a & m1 & E1 & K1).
  destruct (Hk a m1) as (b & m2 & E2 & K2).
  exists b, m2. rewrite bind_eq, E1, E2. split; [reflexivity|].
  eapply keeps_trans; eassumption.
Qed.

Lemma quiet_ret {A} (a : A) : quiet (@ret P A a).
Proof. intros m. exists a, m. split; [reflexivity | apply keeps_refl]. Qed.

Lemma quiet_pass : quiet (@pass P).
Proof. apply quiet_ret. Qed.

Lemma quiet_emit a : quiet (@emit P a).
Proof. intros m. eexists tt, _. split; [reflexivity|]. repeat split. Qed.

Lemma quiet_set_state f : quiet (@set_state P f).
Proof. intros m. eexists tt, _. split; [reflexivity|]. repeat split. Qed.

Lemma quiet_set_pid f : quiet (@set_pid P f).
Proof. intros m. eexists tt, _. split; [reflexivity|]. repeat split. Qed.

Lemma quiet_call_pid sel upd i t : quiet (@call_pid P _ sel upd i t).
Proof. intros m. eexists _, _. split; [reflexivity|]. repeat split. Qed.

Lemma quiet_get_bind {A} (k : machine P -> prog P A) :
  (forall m0, quiet (k m0)) -> quiet (bind get k).
Proof. intros Hk m. rewrite bind_eq. cbn. apply Hk. Qed.

Create HintDb quiet.
#[local] Hint Resolve quiet_ret quiet_pass quiet_emit quiet_set_state quiet_set_pid quiet_call_pid : quiet.

Ltac quiet_tac :=
  repeat match goal with
    | |- quiet (bind get _) => apply quiet_get_bind; intros ?
    | |- quiet (bind _ _) => apply quiet_bind; [|intros ?]
    | |- quiet (if ?b then _ else _) => destruct b
    | |- quiet (match ?x with _ => _ end) => destruct x
    | |- quiet _ => solve [auto with quiet]
    end.

Lemma quiet_cl_set p v i : quiet (@cl_set P p v i).
Proof. unfold cl_set. quiet_tac. Qed.
#[local] Hint Resolve quiet_cl_set : quiet.

Lemma quiet_set_flow_pwm r : quiet (@set_flow_pwm P r).
Proof. unfold set_flow_pwm. quiet_tac. Qed.
#[local] Hint Resolve quiet_set_flow_pwm : quiet.

Lemma quiet_set_load p : quiet (@set_load P c p).
Proof. unfold set_load. quiet_tac. Qed.
#[local] Hint Resolve quiet_set_load : quiet.

Lemma quiet_handle_flow s : quiet (@handle_flow P _ s).
Proof. unfold handle_flow. quiet_tac. Qed.
#[local] Hint Resolve quiet_handle_flow : quiet.

Lemma quiet_sync_setpoint sel upd v : quiet (@sync_setpoint P _ sel upd v).
Proof. unfold sync_setpoint. quiet_tac. Qed.

Lemma quiet_heat_command b : quiet (@heat_command P c b).
Proof. unfold heat_command. quiet_tac. Qed.
#[local] Hint Resolve quiet_sync_setpoint quiet_heat_command : quiet.

Lemma quiet_heat_path s : quiet (@heat_path P c s).
Proof. unfold heat_path. quiet_tac. Qed.

Lemma quiet_leave_state o : quiet (@leave_state P c o).
Proof. unfold leave_state. quiet_tac. Qed.

Lemma quiet_pump_rate s : quiet (@pump_rate P _ c s).
Proof. unfold pump_rate. quiet_tac. Qed.
#[local] Hint Resolve quiet_pump_rate : quiet.

Lemma quiet_cascade s T : quiet (@cascade P _ c s T).
Proof. unfold cascade. quiet_tac. Qed.


Lemma quiet_set_heat_off v : quiet (@set_var P (var.set_heat_off v)).
Proof. intros m. eexists tt, _. split; [reflexivity|]. repeat split. Qed.
Lemma quiet_set_n_cop v : quiet (@set_var P (var.set_n_cop v)).
Proof. intros m. eexists tt, _. split; [reflexivity|]. repeat split. Qed.
Lemma quiet_set_t_no_power v : quiet (@set_var P (var.set_t_no_power v)).
Proof. intros m. eexists tt, _. split; [reflexivity|]. repeat split. Qed.
Lemma quiet_with_m_cop q : quiet (@modify P (with_m_cop q)).
Proof. intros m. eexists tt, _. split; [reflexivity|]. repeat split. Qed.
#[local] Hint Resolve quiet_set_heat_off quiet_set_n_cop quiet_set_t_no_power quiet_with_m_cop : quiet.

Lemma quiet_enter_state s o : quiet (@enter_state P _ c s o).
Proof. unfold enter_state. quiet_tac. Qed.

Lemma quiet_update_cop s : quiet (@update_cop P s).
Proof. unfold update_cop. quiet_tac. Qed.


(** *** The transition check, the redirect and the switches *)

Lemma check_transition_legal orun r (m : machine P) :
  legal orun r -> check_transition orun r m = Next tt m.
Proof.
  intros [r0| r0 | o | o | o r0 Hv | o Hne | ].
  - destruct r0; reflexivity.
  - reflexivity.
  - destruct o as [[]|]; reflexivity.
  - destruct o as [[]|]; reflexivity.
  - destruct o, r0; simpl in Hv; try discriminate Hv; reflexivity.
  - destruct o; try reflexivity. contradiction Hne; reflexivity.
  - reflexivity.
Qed.

Lemma check_transition_illegal o r (m : machine P) :
  ~ legal (Some o) r -> check_transition (Some o) r m = Raise (ValueError_cannot_go o r).
Proof.
  intros Hn.
  destruct o, r; try reflexivity; exfalso; apply Hn;
    first [ apply legal_same | apply legal_off | apply legal_ice
          | apply legal_advance; reflexivity | apply legal_down; discriminate
          | apply legal_down_off ].
Qed.

Ltac legal_tac :=
  first [ apply legal_same | apply legal_startup | apply legal_off | apply legal_ice
        | apply legal_advance; reflexivity | apply legal_down; discriminate
        | apply legal_down_off ].

Lemma legal_decide orun r : legal orun r \/ ~ legal orun r.
Proof.
  destruct orun as [o|]; [|left; legal_tac].
  destruct o, r;
    first [ left; solve [legal_tac]
          | right; intros Hl; inversion Hl; subst; simpl in *;
            first [discriminate | congruence] ].
Qed.

Lemma redirect_eq orun (m : machine P) :
  redirect orun m =
  Next tt (if Run.eqb (var.run (vars m)) Run.off && negb (in_off_tuple orun)
           then with_vars (var.set_run Run.down) m else m).
Proof.
  unfold redirect. rewrite bind_eq. cbn [get].
  destruct (Run.eqb _ _); [|reflexivity].
  destruct (in_off_tuple orun); reflexivity.
Qed.

Lemma commit_state_eq (m : machine P) :
  commit_state m =
  Next tt (with_st (state.set_run (Run.value (var.run (vars m))))
             (with_vars (var.set_orun (Some (var.run (vars m)))) m)).
Proof. reflexivity. Qed.

Lemma check_ice_inv s (m : machine P) :
  match check_ice s m with
  | Next _ m' =>
      ice_edge s m = false /\ vars m' = var.set_m_ice (self.m_ice s) (vars m)
      /\ force_on m' = force_on m
  | Continue m' =>
      ice_edge s m = true /\ var.run (vars m') = Run.ice
      /\ var.orun (vars m') = var.orun (vars m)
  | Raise _ => False
  end.
Proof.
  unfold check_ice, ice_edge. rewrite bind_eq. cbn [get].
  destruct (self.m_ice s), (var.m_ice (vars m)) eqn:E; cbn; repeat split;
    destruct (vars m); cbn in *; first [congruence | subst; reflexivity].
Qed.

Lemma check_main_inv s (m : machine P) :
  match check_main s m with
  | Next _ m' =>
      (main_off s = true -> is_true (var.cm_main (vars m)) = false)
      /\ vars m' = (if main_off s then vars m
                    else var.set_cm_main (Some true) (vars m))
      /\ force_on m' = force_on m
  | Continue m' =>
      main_off s = true /\ is_true (var.cm_main (vars m)) = true
      /\ var.run (vars m') = Run.off
      /\ var.orun (vars m') = var.orun (vars m)
  | Raise _ => False
  end.
Proof.
  unfold check_main, main_off. rewrite bind_eq. cbn [get].
  destruct (negb (self.cm_main s) || bool_decide (self.m_errors s ≠ ∅)).
  - destruct (is_true (var.cm_main (vars m))) eqn:E; cbn; repeat split; congruence.
  - destruct (var.cm_main (vars m)) as [[]|] eqn:E; cbn; repeat split;
      try discriminate; destruct (vars m); cbn in *;
      first [congruence | subst; reflexivity].
Qed.

Lemma check_heat_inv s (m : machine P) :
  exists m', check_heat s m = Next tt m'
    /\ vars m' = var.set_cm_heat (Some (self.cm_heat s)) (vars m)
    /\ force_on m' = force_on m.
Proof.
  unfold check_heat. rewrite bind_eq. cbn [get].
  case_bool_decide as E.
  - eexists. split; [reflexivity|]. split; reflexivity.
  - exists m. split; [reflexivity|]. split; [|reflexivity].
    destruct (vars m); cbn in *.
    first [congruence | subst; reflexivity].
Qed.

Ltac use_quiet L :=
  rewrite bind_eq;
  let a := fresh "a" in let m := fresh "m" in
  let E := fresh "E" in let K := fresh "K" in
  destruct L as (a & m & E & K); rewrite E.

Lemma handle_state_inv s T (m : machine P) :
  match handle_state c s T m with
  | Next _ m' => advance c s T m = None /\ keeps m m'
  | Continue m' =>
      advance c s T m = Some (var.run (vars m'))
      /\ var.orun (vars m') = var.orun (vars m)
  | Raise _ => False
  end.
Proof.
  unfold handle_state, advance, goto. rewrite bind_eq. cbn [get].
  destruct (var.run (vars m)) eqn:Er.
  - destruct (is_true _); cbn [negb andb]; [|split; [reflexivity|apply keeps_refl]].
    destruct (bool_decide _); cbn [negb andb]; [split; [reflexivity|apply keeps_refl]|].
    destruct (force_on m || Qlt_bool _ _); cbn; repeat split.
  - destruct (Qlt_bool _ _); cbn; repeat split.
  - destruct (Qtruthy _); cbn; repeat split.
  - destruct (Qle_bool _ _); [cbn; repeat split|].
    use_quiet (quiet_call_pid pids.flow pids.set_flow (self.r_flow s) (self.time s) m).
    destruct (quiet_set_flow_pwm a m0) as (a' & m' & E' & K'). rewrite E'.
    split; [reflexivity|]. eapply keeps_trans; eassumption.
  - destruct (Qle_bool _ _); [cbn; repeat split|].
    use_quiet (quiet_call_pid pids.flow pids.set_flow (self.r_flow s) (self.time s) m).
    destruct (quiet_set_flow_pwm a m0) as (a' & m' & E' & K'). rewrite E'.
    split; [reflexivity|]. eapply keeps_trans; eassumption.
  - rewrite bind_eq. cbn [set_state modify].
    destruct (Qlt_bool _ _); [cbn; repeat split|].
    destruct (quiet_handle_flow s (with_st (state.set_t_load (Some (self.time s))) m))
      as (a' & m' & E' & K'). rewrite E'.
    split; [reflexivity|]. eapply keeps_trans; [|eassumption]. repeat split.
  - cbn. repeat split.
  - use_quiet (quiet_handle_flow s m).
    destruct (self.m_ice s); cbn; [split; [reflexivity|assumption]|].
    split; [reflexivity|]. apply K.
  - use_quiet (quiet_handle_flow s m).
    destruct (Qlt_bool _ _); cbn; [|split; [reflexivity|assumption]].
    split; [reflexivity|]. apply K.
Qed.


Lemma quiet_stops {A} (p : prog P A) : quiet p -> stops p.
Proof. intros Hq m. destruct (Hq m) as (a & m' & -> & K). exact K. Qed.

Lemma stops_bind {A B} (p : prog P A) (k : A -> prog P B) :
  stops p -> (forall a, stops (k a)) -> stops (bind p k).
Proof.
  intros Hp Hk m. rewrite bind_eq. specialize (Hp m).
  destruct (p m) as [a m1|m1|e]; [|exact Hp|exact Hp].
  specialize (Hk a m1). destruct (k a m1) as [b m2|m2|e].
  - eapply keeps_trans; eassumption.
  - destruct Hp as (_ & Ho & _). destruct Hk as (Hr & Ho'). split; congruence.
  - exact Hk.
Qed.

Lemma stops_goto_off : stops (@goto P Run.off).
Proof. intros m. cbn. split; reflexivity. Qed.

Lemma stops_check_power s : stops (@check_power P c s).
Proof.
  unfold check_power. intros m. rewrite bind_eq. cbn [get].
  destruct (Qlt_bool _ _); [|repeat split].
  destruct (var.t_no_power (vars m)); [|repeat split].
  destruct (Qlt_bool _ _); [apply stops_goto_off | apply keeps_refl].
Qed.

Lemma stops_check_done s T : stops (@check_done P c s T).
Proof.
  unfold check_done. intros m.
  destruct (Qle_bool _ _); [|apply keeps_refl].
  rewrite bind_eq. cbn [get].
  destruct (state.t_run (st m)); [|reflexivity].
  destruct (_ && _); [apply stops_goto_off|].
  destruct (Qle_bool _ _); [apply stops_goto_off | apply keeps_refl].
Qed.

Lemma stops_running s T : stops (@running P _ c s T).
Proof.
  unfold running.
  repeat (apply stops_bind; [|intros _]);
    first [ apply stops_check_power | apply stops_check_done
          | apply quiet_stops; first [ apply quiet_sync_setpoint | apply quiet_cascade
                                     | apply quiet_update_cop ] ].
Qed.

(** *** One iteration, as seen from the state machine *)

Lemma state_change_inv s (m : machine P) :
  match state_change c s m with
  | Next _ m' =>
      legal (var.orun (vars m)) (var.run (vars m))
      /\ var.run (vars m') = entered_run m
      /\ var.orun (vars m') = Some (entered_run m)
      /\ var.m_ice (vars m') = var.m_ice (vars m)
      /\ var.cm_main (vars m') = var.cm_main (vars m)
      /\ force_on m' = force_on m
  | Continue _ => False
  | Raise e =>
      exists o, var.orun (vars m) = Some o
        /\ ~ legal (Some o) (var.run (vars m))
        /\ e = ValueError_cannot_go o (var.run (vars m))
  end.
Proof.
  unfold state_change. rewrite bind_eq. cbn [get]. rewrite bind_eq.
  destruct (legal_decide (var.orun (vars m)) (var.run (vars m))) as [Hl|Hn].
  2:{ destruct (var.orun (vars m)) as [o|] eqn:Eo; [|contradiction Hn; legal_tac].
      rewrite (check_transition_illegal _ _ _ Hn). exists o. auto. }
  rewrite (check_transition_legal _ _ _ Hl).
  rewrite bind_eq, redirect_eq.
  set (m1 := if Run.eqb (var.run (vars m)) Run.off && negb (in_off_tuple (var.orun (vars m)))
             then with_vars (var.set_run Run.down) m else m).
  assert (H1 : var.run (vars m1) = entered_run m
               /\ var.orun (vars m1) = var.orun (vars m)
               /\ var.m_ice (vars m1) = var.m_ice (vars m)
               /\ var.cm_main (vars m1) = var.cm_main (vars m)
               /\ force_on m1 = force_on m).
  { unfold m1, entered_run. destruct (_ && _); repeat split. }
  clearbody m1. destruct H1 as (Hr1 & Ho1 & Hi1 & Hc1 & Hf1).
  use_quiet (quiet_leave_state (var.orun (vars m)) m1).
  destruct K as (Kr & Ko & Ki & Kc & _ & Kf).
  use_quiet (quiet_enter_state s (var.orun (vars m)) m0).
  destruct K as (Kr' & Ko' & Ki' & Kc' & _ & Kf').
  rewrite commit_state_eq. cbn.
  repeat split; congruence.
Qed.

Lemma evaluate_inv s (m : machine P) :
  let Q (m' : machine P) :=
    var.orun (vars m') = var.orun (vars m)
    /\ ( (ice_edge s m = true /\ var.run (vars m') = Run.ice)
       \/ (ice_edge s m = false /\ main_off s = true
           /\ is_true (var.cm_main (vars m)) = true
           /\ var.run (vars m') = Run.off)
       \/ (ice_edge s m = false
           /\ (main_off s = true -> is_true (var.cm_main (vars m)) = false)
           /\ exists m1 : machine P,
                var.run (vars m1) = var.run (vars m)
                /\ force_on m1 = force_on m
                /\ var.cm_main (vars m1)
                   = (if main_off s then var.cm_main (vars m) else Some true)
                /\ match advance c s (targets c s (Some (self.cm_heat s))) m1 with
                   | Some r' => var.run (vars m') = r'
                   | None =>
                       var.run (vars m') = var.run (vars m)
                       \/ (var.run (vars m) = Run.run /\ var.run (vars m') = Run.off)
                   end) ) in
  match evaluate c s m with
  | Next _ m' => Q m'
  | Continue m' => Q m'
  | Raise e => var.run (vars m) = Run.run /\ e = AttributeError "t_run"
  end.
Proof.
  intros Q. unfold evaluate. rewrite bind_eq.
  generalize (check_ice_inv s m).
  destruct (check_ice s m) as [[] m1|m1|e]; [| |contradiction].
  2:{ intros (He & Hr & Ho). split; [exact Ho|]. left. auto. }
  intros (He & Hv1 & Hf1). rewrite bind_eq.
  generalize (check_main_inv s m1).
  destruct (check_main s m1) as [[] m2|m2|e]; [| |contradiction].
  2:{ intros (Hm & Hc & Hr & Ho). rewrite Hv1 in Hc, Ho.
      split; [exact Ho|]. right. left. auto. }
  intros (Hm & Hv2 & Hf2). rewrite bind_eq.
  destruct (check_heat_inv s m2) as (m3 & E3 & Hv3 & Hf3). rewrite E3.
  rewrite bind_eq. cbn [get].
  assert (Hh : var.cm_heat (vars m3) = Some (self.cm_heat s)) by (rewrite Hv3; reflexivity).
  rewrite Hh.
  assert (Hr3 : var.run (vars m3) = var.run (vars m)).
  { rewrite Hv3, Hv2, Hv1. destruct (main_off s); reflexivity. }
  assert (Ho3 : var.orun (vars m3) = var.orun (vars m)).
  { rewrite Hv3, Hv2, Hv1. destruct (main_off s); reflexivity. }
  assert (Hc3 : var.cm_main (vars m3)
                = if main_off s then var.cm_main (vars m) else Some true).
  { rewrite Hv3, Hv2, Hv1. destruct (main_off s); reflexivity. }
  assert (Hm' : main_off s = true -> is_true (var.cm_main (vars m)) = false).
  { intros E. specialize (Hm E). rewrite Hv1 in Hm. exact Hm. }
  assert (Hf : force_on m3 = force_on m) by congruence.
  rewrite bind_eq.
  generalize (handle_state_inv s (targets c s (Some (self.cm_heat s))) m3).
  destruct (handle_state c s _ m3) as [[] m4|m4|e]; [| |contradiction].
  2:{ intros (Ha & Ho). split; [congruence|]. right. right.
      split; [exact He|]. split; [exact Hm'|].
      exists m3. repeat split; try assumption. rewrite Ha. reflexivity. }
  intros (Ha & K4).
  use_quiet (quiet_heat_path s m4).
  rewrite bind_eq. cbn [get].
  assert (K30 : keeps m3 m0) by (eapply keeps_trans; eassumption).
  destruct K30 as (Kr & Ko & _).
  assert (Hstay : forall m', var.run (vars m') = var.run (vars m)
                    \/ (var.run (vars m) = Run.run /\ var.run (vars m') = Run.off) ->
                  var.orun (vars m') = var.orun (vars m) -> Q m').
  { intros m' Hr Ho. split; [exact Ho|]. right. right.
    split; [exact He|]. split; [exact Hm'|].
    exists m3. repeat split; try assumption. rewrite Ha. exact Hr. }
  destruct (Run.eqb (var.run (vars m0)) Run.run) eqn:Er; cbn [negb].
  - apply Run_eqb_eq in Er.
    generalize (stops_running s (targets c s (Some (self.cm_heat s))) m0).
    destruct (running c s _ m0) as [[] m5|m5|e].
    + intros (Kr5 & Ko5 & _). apply Hstay; [left|]; congruence.
    + intros (Kr5 & Ko5). apply Hstay; [right; split|]; congruence.
    + intros ->. split; [congruence|reflexivity].
  - cbn. apply Hstay; [left|]; congruence.
Qed.

Lemma iteration_inv s (m : machine P) :
  match iteration c s m with
  | Error e =>
      (exists o, var.orun (vars m) = Some o
         /\ ~ legal (Some o) (var.run (vars m))
         /\ e = ValueError_cannot_go o (var.run (vars m)))
      \/ (legal (var.orun (vars m)) (var.run (vars m))
          /\ entered_run m = Run.run /\ e = AttributeError "t_run")
  | Ok m' =>
      legal (var.orun (vars m)) (var.run (vars m))
      /\ var.orun (vars m') = Some (entered_run m)
      /\ ( (ice_edge s m = true /\ var.run (vars m') = Run.ice)
         \/ (ice_edge s m = false /\ main_off s = true
             /\ is_true (var.cm_main (vars m)) = true
             /\ var.run (vars m') = Run.off)
         \/ (ice_edge s m = false
             /\ (main_off s = true -> is_true (var.cm_main (vars m)) = false)
             /\ exists m1 : machine P,
                  var.run (vars m1) = entered_run m
                  /\ force_on m1 = force_on m
                  /\ var.cm_main (vars m1)
                     = (if main_off s then var.cm_main (vars m) else Some true)
                  /\ match advance c s (targets c s (Some (self.cm_heat s))) m1 with
                     | Some r' => var.run (vars m') = r'
                     | None =>
                         var.run (vars m') = entered_run m
                         \/ (entered_run m = Run.run /\ var.run (vars m') = Run.off)
                     end) )
  end.
Proof.
  unfold iteration, loop_body. rewrite bind_eq.
  generalize (state_change_inv s (with_out (fun _ => []) m)).
  change (vars (with_out (fun _ => []) m)) with (vars m).
  change (entered_run (with_out (fun _ => []) m)) with (entered_run m).
  change (force_on (with_out (fun _ => []) m)) with (force_on m).
  destruct (state_change c s _) as [[] m1|m1|e]; [| contradiction |].
  2:{ intros (o & Ho & Hn & ->). left. exists o. auto. }
  intros (Hl & Hr & Ho & Hi & Hc & Hf).
  generalize (evaluate_inv s m1). cbv zeta.
  unfold ice_edge. rewrite Hr, Ho, Hi, Hc, Hf.
  destruct (evaluate c s m1) as [[] m2|m2|e].
  - intros (Ho2 & HQ). split; [exact Hl|]. split; [exact Ho2|]. exact HQ.
  - intros (Ho2 & HQ). split; [exact Hl|]. split; [exact Ho2|]. exact HQ.
  - intros (Hrr & ->). right. auto.
Qed.


Lemma iteration_total s (m : machine P) :
  legal (var.orun (vars m)) (var.run (vars m)) ->
  entered_run m <> Run.run ->
  exists m', iteration c s m = Ok m'.
Proof.
  intros Hl Hne. generalize (iteration_inv s m).
  destruct (iteration c s m) as [m'|e]; [eauto|].
  intros [(o & Ho & Hn & _)|(_ & Hr & _)]; [|contradiction].
  rewrite Ho in Hl. contradiction.
Qed.

(** C3: a pair (orun, run) outside the legal-transition table makes the
    iteration raise [ValueError("Cannot go from ... to ...")] before
    anything else happens; no state is entered and nothing is re-mapped. *)
Theorem illegal_transition_raises s (m : machine P) :
  ~ legal (var.orun (vars m)) (var.run (vars m)) ->
  exists o, var.orun (vars m) = Some o
    /\ iteration c s m = Error (ValueError_cannot_go o (var.run (vars m))).
Proof.
  intros Hn. generalize (iteration_inv s m).
  destruct (iteration c s m) as [m'|e].
  - intros (Hl & _). contradiction.
  - intros [(o & Ho & _ & ->)|(Hl & _)]; [|contradiction].
    exists o. auto.
Qed.

(** C4, as amended: in state off, with the main switch on, no faults and no
    new ice alarm, the loop asks for wait_time exactly when the forced-on
    flag is set or the current buffer temperature is BELOW the "on"
    threshold; at or above the threshold (and not forced) it stays off. *)
Theorem off_starts_when_cold s (m : machine P) :
  var.orun (vars m) = Some Run.off ->
  var.run (vars m) = Run.off ->
  ice_edge s m = false ->
  self.cm_main s = true ->
  self.m_errors s = ∅ ->
  let T := targets c s (Some (self.cm_heat s)) in
  exists m', iteration c s m = Ok m'
    /\ var.orun (vars m') = Some Run.off
    /\ (force_on m = true \/ t_cur T < t_set_on T -> var.run (vars m') = Run.wait_time)
    /\ (force_on m = false -> t_set_on T <= t_cur T -> var.run (vars m') = Run.off).
Proof.
  intros Ho Hr Hice Hmain Herr T.
  assert (He : entered_run m = Run.off) by (unfold entered_run; rewrite Ho, Hr; reflexivity).
  assert (Hoff : main_off s = false).
  { unfold main_off. rewrite Hmain, Herr. reflexivity. }
  destruct (iteration_total s m) as (m' & Em).
  { rewrite Ho, Hr. legal_tac. }
  { rewrite He. discriminate. }
  exists m'. split; [exact Em|].
  generalize (iteration_inv s m). rewrite Em, He.
  intros (_ & Ho' & Hcases). split; [exact Ho'|].
  destruct Hcases as [(Hi & _)|[(_ & Hm & _)|(_ & _ & m1 & Hr1 & Hf1 & Hc1 & Hadv)]];
    [congruence | congruence |].
  rewrite Hoff in Hc1. fold T in Hadv. clearbody T.
  unfold advance in Hadv. rewrite Hr1, Hc1, Herr, Hf1 in Hadv.
  rewrite bool_decide_eq_false_2 in Hadv by (intros Hx; apply Hx; reflexivity).
  cbn [is_true andb negb] in Hadv.
  split.
  - intros Hcond.
    assert (Eb : force_on m || Qlt_bool (t_cur T) (t_set_on T) = true).
    { destruct Hcond as [->|Hlt]; [reflexivity|].
      apply Qlt_bool_iff in Hlt. rewrite Hlt. apply orb_true_r. }
    rewrite Eb in Hadv. exact Hadv.
  - intros Hf Hge. apply Qlt_bool_false_iff in Hge.
    rewrite Hf, Hge in Hadv. cbn in Hadv.
    destruct Hadv as [E|(E & _)]; [exact E | discriminate E].
Qed.

Lemma ice_targets r : legal (Some Run.ice) r -> r = Run.ice \/ r = Run.off \/ r = Run.down.
Proof. intros Hl. inversion Hl; subst; auto. destruct r; simpl in *; try discriminate; auto. Qed.

Lemma from_ice_not_run s (m m' : machine P) :
  var.orun (vars m) = Some Run.ice -> iteration c s m = Ok m' ->
  var.orun (vars m') <> Some Run.run.
Proof.
  intros Ho Em. generalize (iteration_inv s m). rewrite Em.
  intros (Hl & Ho' & _). rewrite Ho' . rewrite Ho in Hl.
  unfold entered_run. rewrite Ho.
  destruct (ice_targets _ Hl) as [->|[->| ->]]; cbn; discriminate.
Qed.

Lemma entered_no_ice_run ss : forall (m : machine P) i,
  (var.orun (vars m) :: entered c ss m) !! i = Some (Some Run.ice) ->
  (var.orun (vars m) :: entered c ss m) !! S i <> Some (Some Run.run).
Proof.
  induction ss as [|s ss IH]; intros m i Hi.
  - destruct i; cbn; discriminate.
  - cbn [entered] in *. destruct (iteration c s m) as [m'|e] eqn:Em.
    + destruct i as [|i].
      * cbn in Hi. cbn. injection Hi as Hi. intros [= Hr].
        exact (from_ice_not_run s m m' Hi Em Hr).
      * cbn in Hi. apply (IH m' i). exact Hi.
    + destruct i; cbn; discriminate.
Qed.

(** C5: from ice, once the ice sensor has cleared, the loop asks for down
    (or for off, which the redirect turns into down), and the next
    iteration enters down; no iteration that starts from ice enters run,
    so no execution has run directly after ice. *)
Theorem ice_leaves_through_down :
  (forall s (m : machine P),
     var.orun (vars m) = Some Run.ice -> var.run (vars m) = Run.ice ->
     self.m_ice s = false ->
     exists m', iteration c s m = Ok m'
       /\ (var.run (vars m') = Run.down \/ var.run (vars m') = Run.off)
       /\ forall s2, exists m'', iteration c s2 m' = Ok m''
            /\ var.orun (vars m'') = Some Run.down)
  /\ (forall s (m m' : machine P),
        var.orun (vars m) = Some Run.ice -> iteration c s m = Ok m' ->
        var.orun (vars m') <> Some Run.run)
  /\ (forall ss (m : machine P) i,
        (var.orun (vars m) :: entered c ss m) !! i = Some (Some Run.ice) ->
        (var.orun (vars m) :: entered c ss m) !! S i <> Some (Some Run.run)).
Proof.
  split; [|split; [exact from_ice_not_run | exact entered_no_ice_run]].
  intros s m Ho Hr Hice.
  assert (He : entered_run m = Run.ice) by (unfold entered_run; rewrite Hr; reflexivity).
  destruct (iteration_total s m) as (m' & Em).
  { rewrite Ho, Hr. legal_tac. }
  { rewrite He. discriminate. }
  exists m'. split; [exact Em|].
  generalize (iteration_inv s m). rewrite Em, He.
  intros (_ & Ho' & Hcases).
  assert (Hr' : var.run (vars m') = Run.down \/ var.run (vars m') = Run.off).
  { destruct Hcases as [(Hi & _)|[(_ & _ & _ & E)|(_ & _ & m1 & Hr1 & _ & _ & Hadv)]].
    - unfold ice_edge in Hi. rewrite Hice in Hi. discriminate Hi.
    - right. exact E.
    - unfold advance in Hadv. rewrite Hr1, Hice in Hadv. cbn in Hadv. left. exact Hadv. }
  split; [exact Hr'|].
  intros s2.
  assert (He2 : entered_run m' = Run.down).
  { unfold entered_run. rewrite Ho'. destruct Hr' as [-> | ->]; reflexivity. }
  destruct (iteration_total s2 m') as (m'' & Em2).
  { rewrite Ho'. destruct Hr' as [-> | ->]; legal_tac. }
  { rewrite He2. discriminate. }
  exists m''. split; [exact Em2|].
  generalize (iteration_inv s2 m'). rewrite Em2, He2. intros (_ & E & _). exact E.
Qed.

(** C10, as amended: a request for off coming from a state outside
    (off, wait_time, wait_flow, wait_power, down) enters down instead; from
    flow, temp, run or ice the state off is never entered directly; as long
    as no main-switch edge intervenes (switch off or a fault while the
    loop's own flag is still set), down asks for off only with outlet minus
    inlet below the stop delta, and then it does. *)
Theorem off_only_after_down :
  (forall s (m : machine P),
     var.run (vars m) = Run.off -> in_off_tuple (var.orun (vars m)) = false ->
     exists m', iteration c s m = Ok m' /\ var.orun (vars m') = Some Run.down)
  /\ (forall s (m m' : machine P) o,
        var.orun (vars m) = Some o -> in_off_tuple (Some o) = false ->
        iteration c s m = Ok m' -> var.orun (vars m') <> Some Run.off)
  /\ (forall s (m m' : machine P),
        var.orun (vars m) = Some Run.down -> var.run (vars m) = Run.down ->
        main_off s && is_true (var.cm_main (vars m)) = false ->
        iteration c s m = Ok m' -> var.run (vars m') = Run.off ->
        self.t_out s - self.t_in s < cfg.misc_stop_delta c)
  /\ (forall s (m : machine P),
        var.orun (vars m) = Some Run.down -> var.run (vars m) = Run.down ->
        ice_edge s m = false ->
        self.t_out s - self.t_in s < cfg.misc_stop_delta c ->
        exists m', iteration c s m = Ok m' /\ var.run (vars m') = Run.off).
Proof.
  split; [|split; [|split]].
  - intros s m Hr Hin.
    assert (He : entered_run m = Run.down).
    { unfold entered_run. rewrite Hr, Hin. reflexivity. }
    destruct (iteration_total s m) as (m' & Em).
    { rewrite Hr. legal_tac. }
    { rewrite He. discriminate. }
    exists m'. split; [exact Em|].
    generalize (iteration_inv s m). rewrite Em, He. intros (_ & E & _). exact E.
  - intros s m m' o Ho Hin Em.
    generalize (iteration_inv s m). rewrite Em. intros (_ & -> & _).
    unfold entered_run. rewrite Ho, Hin.
    destruct (Run.eqb (var.run (vars m)) Run.off) eqn:E; cbn; [discriminate|].
    intros [= Hr]. rewrite Hr in E. discriminate E.
  - intros s m m' Ho Hr Hedge Em Hoff.
    assert (He : entered_run m = Run.down) by (unfold entered_run; rewrite Hr; reflexivity).
    generalize (iteration_inv s m). rewrite Em, He.
    intros (_ & _ & [(_ & E)|[(_ & Hm & Hc & _)|(_ & _ & m1 & Hr1 & _ & _ & Hadv)]]).
    + congruence.
    + rewrite Hm, Hc in Hedge. discriminate Hedge.
    + unfold advance in Hadv. rewrite Hr1 in Hadv.
      destruct (Qlt_bool _ _) eqn:Eq.
      * apply Qlt_bool_iff. exact Eq.
      * destruct Hadv as [E|(E & _)]; congruence.
  - intros s m Ho Hr Hice Hlt.
    assert (He : entered_run m = Run.down) by (unfold entered_run; rewrite Hr; reflexivity).
    destruct (iteration_total s m) as (m' & Em).
    { rewrite Ho, Hr. legal_tac. }
    { rewrite He. discriminate. }
    exists m'. split; [exact Em|].
    generalize (iteration_inv s m). rewrite Em, He.
    intros (_ & _ & [(E & _)|[(_ & _ & _ & E)|(_ & _ & m1 & Hr1 & _ & _ & Hadv)]]).
    + congruence.
    + exact E.
    + unfold advance in Hadv. rewrite Hr1 in Hadv.
      apply Qlt_bool_iff in Hlt. rewrite Hlt in Hadv. exact Hadv.
Qed.

End Logic.

(** ** The control cascade *)

Lemma Qmin_cases (x y : Q) : Qmin x y = x \/ Qmin x y = y.
Proof. unfold Qmin, GenericMinMax.gmin. destruct (x ?= y); auto. Qed.

Lemma Qmin3_spec (a b d : Q) :
  let lim := Qmin (Qmin a b) d in
  lim <= a /\ lim <= b /\ lim <= d /\ (lim = a \/ lim = b \/ lim = d).
Proof.
  cbv zeta. split; [|split; [|split]].
  - eapply Qle_trans; [apply Q.le_min_l | apply Q.le_min_l].
  - eapply Qle_trans; [apply Q.le_min_l | apply Q.le_min_r].
  - apply Q.le_min_r.
  - destruct (Qmin_cases (Qmin a b) d) as [E|E]; rewrite E; [|auto].
    destruct (Qmin_cases a b) as [E'|E']; rewrite E'; auto.
Qed.

Lemma power_writes_app (l1 l2 : list action) :
  power_writes (l1 ++ l2) = power_writes l1 ++ power_writes l2.
Proof.
  induction l1 as [|a l1 IH]; [reflexivity|].
  destruct a as [[] [] ?| |]; cbn; rewrite ?IH; reflexivity.
Qed.

Lemma flow_writes_app (l1 l2 : list action) :
  flow_writes (l1 ++ l2) = flow_writes l1 ++ flow_writes l2.
Proof.
  induction l1 as [|a l1 IH]; [reflexivity|].
  destruct a; cbn; rewrite ?IH; reflexivity.
Qed.

Lemma silent_nil : silent [].
Proof. split; reflexivity. Qed.

Lemma silent_app (w1 w2 : list action) : silent w1 -> silent w2 -> silent (w1 ++ w2).
Proof.
  intros (P1 & F1) (P2 & F2). split.
  - rewrite power_writes_app, P1, P2. reflexivity.
  - rewrite flow_writes_app, F1, F2. reflexivity.
Qed.

Section Running.
Context {P : Type} `{CPID P}.
Variable c : cfg.t.

Lemma calm_refl (m : machine P) : calm m m.
Proof.
  repeat split. exists []. rewrite app_nil_r. split; [reflexivity | apply silent_nil].
Qed.

Lemma calm_trans (m1 m2 m3 : machine P) : calm m1 m2 -> calm m2 m3 -> calm m1 m3.
Proof.
  intros (Hp & Hl & Hw & Ht & w & Ho & Hs) (Hp' & Hl' & Hw' & Ht' & w' & Ho' & Hs').
  repeat split; try congruence.
  exists (w ++ w'). split; [|apply silent_app; assumption].
  rewrite Ho', Ho, app_assoc. reflexivity.
Qed.

Lemma calmly_bind {A B} (p : prog P A) (k : A -> prog P B) :
  calmly p -> (forall a, calmly (k a)) -> calmly (bind p k).
Proof.
  intros Hp Hk m. rewrite bind_eq. specialize (Hp m).
  destruct (p m) as [a m1|m1|e]; [|exact Hp|exact I].
  specialize (Hk a m1). destruct (k a m1) as [b m2|m2|e]; [| |exact I];
    eapply calm_trans; eassumption.
Qed.

Lemma calmly_get_bind {A} (k : machine P -> prog P A) :
  (forall m0, calmly (k m0)) -> calmly (bind get k).
Proof. intros Hk m. rewrite bind_eq. cbn. apply Hk. Qed.

Lemma calmly_ret {A} (a : A) : calmly (@ret P A a).
Proof. intros m. apply calm_refl. Qed.

Lemma calmly_pass : calmly (@pass P).
Proof. apply calmly_ret. Qed.

Lemma calmly_continue {A} : calmly (@continue P A).
Proof. intros m. apply calm_refl. Qed.

Lemma calmly_raise {A} e : calmly (@raise P A e).
Proof. intros m. exact I. Qed.

Lemma calmly_set_var f : calmly (@set_var P f).
Proof. intros m. cbn. apply (calm_refl m). Qed.

Lemma calmly_force_on b : calmly (@modify P (with_force_on b)).
Proof. intros m. cbn. apply (calm_refl m). Qed.

Lemma calmly_m_cop q : calmly (@modify P (with_m_cop q)).
Proof. intros m. cbn. apply (calm_refl m). Qed.

Lemma calmly_set_heat_ok h : calmly (@set_state P (state.set_heat_ok h)).
Proof. intros m. cbn. apply (calm_refl m). Qed.

Lemma calmly_emit a : silent [a] -> calmly (@emit P a).
Proof.
  intros Hs m. cbn. repeat split. exists [a]. split; [reflexivity | exact Hs].
Qed.

Lemma calmly_cl_set p v i : p <> cmd_power -> calmly (@cl_set P p v i).
Proof.
  intros Hp. apply calmly_emit. split; [|reflexivity].
  destruct p; try reflexivity. contradiction.
Qed.

Lemma calmly_heat_command b : calmly (@heat_command P c b).
Proof.
  apply calmly_emit. unfold heat_write.
  destruct (cfg.setting_heat_power c); split; reflexivity.
Qed.

Lemma calmly_goto r : calmly (@goto P r).
Proof. intros m. cbn. apply (calm_refl m). Qed.

Create HintDb calm.
#[local] Hint Resolve calmly_ret calmly_pass calmly_continue calmly_raise calmly_set_var
  calmly_force_on calmly_m_cop calmly_set_heat_ok calmly_heat_command calmly_goto : calm.

Ltac calm_tac :=
  repeat match goal with
    | |- calmly (bind get _) => apply calmly_get_bind; intros ?
    | |- calmly (bind _ _) => apply calmly_bind; [|intros ?]
    | |- calmly (if ?b then _ else _) => destruct b
    | |- calmly (match ?x with _ => _ end) => destruct x
    | |- calmly (cl_set _ _ _) => apply calmly_cl_set; discriminate
    | |- calmly _ => solve [auto with calm]
    end.

Lemma calmly_check_ice s : calmly (@check_ice P s).
Proof. unfold check_ice. calm_tac. Qed.

Lemma calmly_check_main s : calmly (@check_main P s).
Proof. unfold check_main. calm_tac. Qed.

Lemma calmly_check_heat s : calmly (@check_heat P s).
Proof. unfold check_heat. calm_tac. Qed.

Lemma calmly_heat_path s : calmly (@heat_path P c s).
Proof. unfold heat_path. calm_tac. Qed.

Lemma calmly_check_power s : calmly (@check_power P c s).
Proof. unfold check_power. calm_tac. Qed.

Lemma calmly_update_cop s : calmly (@update_cop P s).
Proof. unfold update_cop. calm_tac. Qed.

Lemma calmly_check_done s T : calmly (@check_done P c s T).
Proof. unfold check_done. calm_tac. Qed.


(** *** The setpoints *)

Ltac sync_tac :=
  unfold sync_setpoint, synced; rewrite bind_eq; cbn [get];
  match goal with |- context [pid_get_setpoint ?p] =>
    destruct (pid_get_setpoint p) as [old|] end;
  [match goal with |- context [Qeq_bool ?a ?b] => destruct (Qeq_bool a b) end|];
  cbn [negb]; eexists; (split; [reflexivity|]); cbn; repeat split.

Lemma sync_load v (m : machine P) :
  exists m', sync_setpoint pids.load pids.set_load v m = Next tt m'
    /\ pids.load (pid m') = synced (pids.load (pid m)) v
    /\ pids.buffer (pid m') = pids.buffer (pid m)
    /\ pids.limit (pid m') = pids.limit (pid m)
    /\ pids.pump (pid m') = pids.pump (pid m)
    /\ only_pid m m'.
Proof. sync_tac. Qed.

Lemma sync_buffer v (m : machine P) :
  exists m', sync_setpoint pids.buffer pids.set_buffer v m = Next tt m'
    /\ pids.load (pid m') = pids.load (pid m)
    /\ pids.buffer (pid m') = synced (pids.buffer (pid m)) v
    /\ pids.limit (pid m') = pids.limit (pid m)
    /\ pids.pump (pid m') = pids.pump (pid m)
    /\ only_pid m m'.
Proof. sync_tac. Qed.

Lemma sync_limit v (m : machine P) :
  exists m', sync_setpoint pids.limit pids.set_limit v m = Next tt m'
    /\ pids.load (pid m') = pids.load (pid m)
    /\ pids.buffer (pid m') = pids.buffer (pid m)
    /\ pids.limit (pid m') = synced (pids.limit (pid m)) v
    /\ pids.pump (pid m') = pids.pump (pid m)
    /\ only_pid m m'.
Proof. sync_tac. Qed.

Lemma sync_pump v (m : machine P) :
  exists m', sync_setpoint pids.pump pids.set_pump v m = Next tt m'
    /\ pids.load (pid m') = pids.load (pid m)
    /\ pids.buffer (pid m') = pids.buffer (pid m)
    /\ pids.limit (pid m') = pids.limit (pid m)
    /\ pids.pump (pid m') = synced (pids.pump (pid m)) v
    /\ only_pid m m'.
Proof. sync_tac. Qed.


(** *** The cascade *)

Lemma cascade_eq s T (m : machine P) :
  let l_load := fst (pid_call (pids.load (pid m)) (t_cur T) (self.time s)) in
  let l_buffer := fst (pid_call (pids.buffer (pid m)) (self.tb_low s) (self.time s)) in
  let l_limit := fst (pid_call (pids.limit (pid m)) (self.t_out s) (self.time s)) in
  let lim := Qmin (Qmin l_load l_buffer) l_limit in
  let l_pump :=
    if Qlt_bool (cfg.adj_max c) (self.t_out s) then 1
    else fst (pid_call (pids.pump (pid m)) (self.t_out s) (self.time s)) in
  exists m', cascade c s T m = Next tt m'
    /\ out m' = out m ++ set_load_writes c lim ++ [FlowPwm l_pump]
    /\ state.load_last (st m') = Some lim
    /\ state.last_pwm (st m') = Some l_pump
    /\ state.last_load (st m')
       = Some (if Qlt_bool lim (cfg.lim_power_min c) then 0 else lim)
    /\ state.t_run (st m') = state.t_run (st m)
    /\ vars m' = vars m
    /\ (Qlt_bool (cfg.adj_max c) (self.t_out s) = true ->
        pids.pump (pid m') = pids.pump (pid m)).
Proof.
  cbv zeta. unfold cascade, pump_rate, set_load_writes, set_load.
  destruct (Qlt_bool (cfg.adj_max c) (self.t_out s)) eqn:Emax.
  - cbn.
    match goal with |- context [Qlt_bool ?l (cfg.lim_power_min c)] =>
      destruct (Qlt_bool l (cfg.lim_power_min c)) end;
      eexists; (split; [reflexivity|]); cbn; rewrite <- !app_assoc; repeat split.
  - cbn.
    match goal with |- context [Qlt_bool ?l (cfg.lim_power_min c)] =>
      destruct (Qlt_bool l (cfg.lim_power_min c)) end;
      eexists; (split; [reflexivity|]); cbn; rewrite <- !app_assoc; repeat split;
      discriminate.
Qed.

Lemma check_power_cases s (m : machine P) :
  match check_power c s m with
  | Next _ m' =>
      stalled c s m = false /\ pid m' = pid m /\ st m' = st m /\ out m' = out m
  | Continue m' => stalled c s m = true /\ calm m m'
  | Raise _ => False
  end.
Proof.
  unfold check_power, stalled, goto. rewrite bind_eq. cbn [get].
  destruct (Qlt_bool (self.m_power s) (cfg.misc_min_power c)); cbn [andb]; [|repeat split].
  destruct (var.t_no_power (vars m)) as [t0|]; [|repeat split].
  destruct (Qlt_bool 20 (self.time s - t0)); cbn; [|repeat split].
  split; [reflexivity|]. apply (calm_refl m).
Qed.

Lemma check_done_raise s T (m : machine P) e :
  check_done c s T m = Raise e ->
  e = AttributeError "t_run" /\ state.t_run (st m) = None.
Proof.
  unfold check_done, goto. destruct (Qle_bool _ _); [|discriminate].
  rewrite bind_eq. cbn [get].
  destruct (state.t_run (st m)).
  - destruct (_ && _); [discriminate|]. destruct (Qle_bool _ _); discriminate.
  - cbn. intros [= <-]. auto.
Qed.

Lemma running_pass s T (m : machine P) :
  match running c s T m with
  | Next _ m' =>
      (stalled c s m = true /\ calm m m')
      \/ (stalled c s m = false /\ cascaded c s T m m' (out m))
  | Continue m' =>
      (stalled c s m = true /\ calm m m')
      \/ (stalled c s m = false /\ cascaded c s T m m' (out m))
  | Raise e => e = AttributeError "t_run" /\ state.t_run (st m) = None
  end.
Proof.
  unfold running. rewrite bind_eq.
  generalize (check_power_cases s m).
  destruct (check_power c s m) as [[] m1|m1|e]; [| |contradiction].
  2:{ intros (Hs & Hc). left. auto. }
  intros (Hs & Hp1 & Hs1 & Ho1).
  rewrite bind_eq.
  destruct (sync_load (t_load T) m1) as (m2 & E2 & Hl2 & Hb2 & Hi2 & Hu2 & _ & Hs2 & Ho2).
  rewrite E2, bind_eq.
  destruct (sync_buffer (t_buffer T) m2) as (m3 & E3 & Hl3 & Hb3 & Hi3 & Hu3 & _ & Hs3 & Ho3).
  rewrite E3, bind_eq.
  destruct (sync_limit (t_limit T) m3) as (m4 & E4 & Hl4 & Hb4 & Hi4 & Hu4 & _ & Hs4 & Ho4).
  rewrite E4, bind_eq.
  destruct (sync_pump (t_pump T) m4) as (m5 & E5 & Hl5 & Hb5 & Hi5 & Hu5 & _ & Hs5 & Ho5).
  rewrite E5, bind_eq.
  destruct (cascade_eq s T m5) as (m6 & E6 & Ho6 & Hll6 & Hlp6 & _ & Ht6 & _ & Hpump6).
  rewrite E6, bind_eq.
  assert (Hload : pids.load (pid m5) = synced (pids.load (pid m)) (t_load T)) by congruence.
  assert (Hbuf : pids.buffer (pid m5) = synced (pids.buffer (pid m)) (t_buffer T)) by congruence.
  assert (Hlim : pids.limit (pid m5) = synced (pids.limit (pid m)) (t_limit T)) by congruence.
  assert (Hpmp : pids.pump (pid m5) = synced (pids.pump (pid m)) (t_pump T)) by congruence.
  rewrite Hload, Hbuf, Hlim in Ho6, Hll6.
  rewrite Hpmp in Ho6, Hlp6, Hpump6.
  assert (Hout5 : out m5 = out m) by congruence.
  assert (Ht5 : state.t_run (st m5) = state.t_run (st m)) by congruence.
  rewrite Hout5 in Ho6.
  fold (l_load s T m) in Ho6, Hll6. fold (l_buffer s T m) in Ho6, Hll6.
  fold (l_limit s T m) in Ho6, Hll6. fold (lim s T m) in Ho6, Hll6.
  fold (l_pump c s T m) in Ho6, Hlp6.
  assert (Hfin : forall m', calm m6 m' -> cascaded c s T m m' (out m)).
  { intros m' (Hp & Hl & Hw & Ht & w & Ho & Hsil).
    exists w. split.
    - rewrite Ho, Ho6, <- !app_assoc. reflexivity.
    - split; [exact Hsil|]. split; [congruence|]. split; [congruence|].
      intros Hmax. rewrite Hp. apply Hpump6. exact Hmax. }
  destruct (quiet_update_cop s m6) as ([] & m7 & E7 & _).
  assert (Hc7 := calmly_update_cop s m6). rewrite E7 in Hc7. rewrite E7.
  generalize (calmly_check_done s T m7) (check_done_raise s T m7).
  destruct (check_done c s T m7) as [[] m8|m8|e].
  - intros Hc8 _. right. split; [exact Hs|]. apply Hfin.
    eapply calm_trans; eassumption.
  - intros Hc8 _. right. split; [exact Hs|]. apply Hfin.
    eapply calm_trans; eassumption.
  - intros _ Hr. destruct (Hr e eq_refl) as (-> & Hn). split; [reflexivity|].
    destruct Hc7 as (_ & _ & _ & Ht7 & _). congruence.
Qed.


Lemma heat_path_next s (m : machine P) :
  exists m', heat_path c s m = Next tt m' /\ vars m' = vars m.
Proof.
  unfold heat_path. rewrite bind_eq. cbn [get].
  destruct (negb (heat_cond s m)).
  - destruct (_ && _); eexists; split; reflexivity.
  - destruct (state.heat_ok (st m)); [| |eexists; split; reflexivity].
    + eexists; split; reflexivity.
    + destruct (Qlt_bool _ _); eexists; split; reflexivity.
Qed.

Lemma handle_state_run s T (m : machine P) :
  var.run (vars m) = Run.run ->
  handle_state c s T m = Next tt (with_st (state.set_t_load (Some (self.time s))) m).
Proof.
  intros Hr. unfold handle_state. rewrite bind_eq. cbn [get]. rewrite Hr. reflexivity.
Qed.

Lemma cascaded_transport s T (m0 m m' : machine P) pre :
  pid m = pid m0 -> cascaded c s T m m' pre -> cascaded c s T m0 m' pre.
Proof.
  intros Hp. unfold cascaded, lim, l_load, l_buffer, l_limit, l_pump.
  rewrite Hp. exact (fun x => x).
Qed.

Lemma evaluate_run s (m : machine P) :
  var.run (vars m) = Run.run ->
  let T := targets c s (Some (self.cm_heat s)) in
  let R (m' : machine P) :=
    (preempted c s m = true /\ calm m m')
    \/ (preempted c s m = false
        /\ exists pre, silent pre /\ cascaded c s T m m' (out m ++ pre)) in
  match evaluate c s m with
  | Next _ m' => R m'
  | Continue m' => R m'
  | Raise e => e = AttributeError "t_run" /\ state.t_run (st m) = None
  end.
Proof.
  intros Hr T R. unfold evaluate. rewrite bind_eq.
  generalize (check_ice_inv s m) (calmly_check_ice s m).
  destruct (check_ice s m) as [[] m1|m1|e]; [| |contradiction].
  2:{ intros (He & _) Hc. left. split; [|exact Hc].
      unfold preempted. rewrite He. reflexivity. }
  intros (He & Hv1 & _) Hc1. rewrite bind_eq.
  generalize (check_main_inv s m1) (calmly_check_main s m1).
  destruct (check_main s m1) as [[] m2|m2|e]; [| |contradiction].
  2:{ intros (Hm & Hcm & _) Hc2. left. split; [|eapply calm_trans; eassumption].
      rewrite Hv1 in Hcm. cbn in Hcm.
      unfold preempted. rewrite Hm, Hcm. rewrite orb_true_r. reflexivity. }
  intros (Hm & Hv2 & _) Hc2. rewrite bind_eq.
  destruct (check_heat_inv s m2) as (m3 & E3 & Hv3 & _).
  assert (Hc3 := calmly_check_heat s m2). rewrite E3 in Hc3. rewrite E3.
  rewrite bind_eq. cbn [get].
  assert (Hh : var.cm_heat (vars m3) = Some (self.cm_heat s)) by (rewrite Hv3; reflexivity).
  rewrite Hh. fold T.
  assert (Hr3 : var.run (vars m3) = Run.run).
  { rewrite Hv3, Hv2, Hv1. destruct (main_off s); exact Hr. }
  assert (Ht3 : var.t_no_power (vars m3) = var.t_no_power (vars m)).
  { rewrite Hv3, Hv2, Hv1. destruct (main_off s); reflexivity. }
  assert (Hnm : main_off s && is_true (var.cm_main (vars m)) = false).
  { destruct (main_off s); [|reflexivity]. rewrite Hv1 in Hm. cbn in Hm.
    rewrite (Hm eq_refl). reflexivity. }
  rewrite bind_eq, (handle_state_run s T m3 Hr3).
  set (m4 := with_st (state.set_t_load (Some (self.time s))) m3).
  assert (Hc4 : calm m3 m4) by (apply (calm_refl m3)).
  rewrite bind_eq.
  destruct (heat_path_next s m4) as (m5 & E5 & Hv5).
  assert (Hc5 := calmly_heat_path s m4). rewrite E5 in Hc5. rewrite E5.
  rewrite bind_eq. cbn [get].
  assert (Hr5 : var.run (vars m5) = Run.run) by (rewrite Hv5; exact Hr3).
  rewrite Hr5. cbn [Run.eqb Run.value Z.eqb Pos.eqb negb].
  assert (Hc : calm m m5).
  { eapply calm_trans; [exact Hc1|]. eapply calm_trans; [exact Hc2|].
    eapply calm_trans; [exact Hc3|]. eapply calm_trans; [exact Hc4|exact Hc5]. }
  assert (Hst : stalled c s m5 = stalled c s m).
  { unfold stalled. rewrite Hv5. change (vars m4) with (vars m3). rewrite Ht3. reflexivity. }
  assert (Hpre : preempted c s m = stalled c s m).
  { unfold preempted. rewrite He, Hnm. reflexivity. }
  destruct Hc as (Hp & Hl & Hw & Ht & w & Ho & Hsil).
  assert (Hcalm : calm m m5).
  { repeat split; try assumption. exists w. auto. }
  generalize (running_pass s T m5). rewrite Hst, Ho, <- Hpre.
  destruct (running c s T m5) as [[] m6|m6|e].
  - intros [(Hs & Hc6)|(Hs & Hc6)]; [left|right]; (split; [exact Hs|]).
    + eapply calm_trans; eassumption.
    + exists w. split; [exact Hsil|]. eapply cascaded_transport; eassumption.
  - intros [(Hs & Hc6)|(Hs & Hc6)]; [left|right]; (split; [exact Hs|]).
    + eapply calm_trans; eassumption.
    + exists w. split; [exact Hsil|]. eapply cascaded_transport; eassumption.
  - intros (-> & Hn). split; [reflexivity | congruence].
Qed.

Lemma state_change_steady s (m : machine P) :
  var.orun (vars m) = Some Run.run -> var.run (vars m) = Run.run ->
  exists m', state_change c s m = Next tt m'
    /\ vars m' = vars m /\ pid m' = pid m /\ out m' = out m
    /\ state.t_run (st m') = state.t_run (st m).
Proof.
  intros Ho Hr. destruct m as [v ? ? ? ? ?]. destruct v. cbn in Ho, Hr. subst.
  unfold state_change. cbn.
  eexists. split; [reflexivity|]. repeat split.
Qed.

Lemma run_iteration s (m : machine P) :
  var.orun (vars m) = Some Run.run -> var.run (vars m) = Run.run ->
  let T := targets c s (Some (self.cm_heat s)) in
  match iteration c s m with
  | Ok m' =>
      (preempted c s m = true /\ silent (out m'))
      \/ (preempted c s m = false
          /\ exists pre, silent pre /\ cascaded c s T m m' pre)
  | Error e => e = AttributeError "t_run" /\ state.t_run (st m) = None
  end.
Proof.
  intros Ho Hr T. unfold iteration, loop_body. rewrite bind_eq.
  destruct (state_change_steady s (with_out (fun _ => []) m) Ho Hr)
    as (m1 & E1 & Hv1 & Hp1 & Ho1 & Ht1).
  rewrite E1. cbn in Hv1, Hp1, Ho1, Ht1.
  assert (Hr1 : var.run (vars m1) = Run.run) by (rewrite Hv1; exact Hr).
  generalize (evaluate_run s m1 Hr1). cbv zeta. fold T.
  assert (Hpre : preempted c s m1 = preempted c s m).
  { unfold preempted, ice_edge, stalled. rewrite Hv1. reflexivity. }
  rewrite Hpre, Ho1. cbn [app].
  assert (Hsil : forall m', calm m1 m' -> silent (out m')).
  { intros m' (_ & _ & _ & _ & w & Hw & Hs). rewrite Hw, Ho1. exact Hs. }
  destruct (evaluate c s m1) as [[] m2|m2|e].
  - intros [(Hs & Hc)|(Hs & pre & Hsp & Hc)]; [left; auto|right].
    split; [exact Hs|]. exists pre. split; [exact Hsp|].
    eapply cascaded_transport; eassumption.
  - intros [(Hs & Hc)|(Hs & pre & Hsp & Hc)]; [left; auto|right].
    split; [exact Hs|]. exists pre. split; [exact Hsp|].
    eapply cascaded_transport; eassumption.
  - intros (-> & Hn). split; [reflexivity|congruence].
Qed.

(** C2: on a pass in [Run.run] that is not pre-empted, [set_load] is
    called with the minimum of the outputs of the load, buffer and limit
    loops: its writes are the only writes to the load command in that
    iteration, and the value is kept in [state.load_last]. *)
Theorem load_command_is_minimum s (m : machine P) :
  var.orun (vars m) = Some Run.run -> var.run (vars m) = Run.run ->
  preempted c s m = false ->
  state.t_run (st m) <> None ->
  let T := targets c s (Some (self.cm_heat s)) in
  exists m' pre post,
    iteration c s m = Ok m'
    /\ out m' = pre ++ set_load_writes c (lim s T m)
                    ++ [FlowPwm (l_pump c s T m)] ++ post
    /\ silent pre /\ silent post
    /\ state.load_last (st m') = Some (lim s T m)
    /\ lim s T m <= l_load s T m
    /\ lim s T m <= l_buffer s T m
    /\ lim s T m <= l_limit s T m
    /\ (lim s T m = l_load s T m \/ lim s T m = l_buffer s T m
        \/ lim s T m = l_limit s T m).
Proof.
  intros Ho Hr Hpre Ht T.
  generalize (run_iteration s m Ho Hr). cbv zeta. fold T.
  destruct (iteration c s m) as [m'|e].
  - intros [(Hp & _)|(_ & pre & Hsp & post & Hout & Hspo & Hll & _)]; [congruence|].
    exists m', pre, post. split; [reflexivity|]. split; [exact Hout|].
    split; [exact Hsp|]. split; [exact Hspo|]. split; [exact Hll|].
    apply Qmin3_spec.
  - intros (_ & Hn). contradiction.
Qed.

(** C1, as amended: on a pass in [Run.run] that is not pre-empted, with the
    outlet above [cfg.adj.max], the pump speed sent is 1 and the pump loop
    is not consulted; the load command is not forced to 0, it stays the
    minimum of the three loop outputs. *)
Theorem overtemperature_forces_pump_only s (m : machine P) :
  var.orun (vars m) = Some Run.run -> var.run (vars m) = Run.run ->
  preempted c s m = false ->
  state.t_run (st m) <> None ->
  cfg.adj_max c < self.t_out s ->
  let T := targets c s (Some (self.cm_heat s)) in
  exists m' pre post,
    iteration c s m = Ok m'
    /\ out m' = pre ++ set_load_writes c (lim s T m) ++ [FlowPwm 1] ++ post
    /\ silent pre /\ silent post
    /\ state.last_pwm (st m') = Some 1
    /\ pids.pump (pid m') = synced (pids.pump (pid m)) (t_pump T)
    /\ state.load_last (st m') = Some (lim s T m).
Proof.
  intros Ho Hr Hpre Ht Hmax T. apply Qlt_bool_iff in Hmax.
  generalize (run_iteration s m Ho Hr). cbv zeta. fold T.
  destruct (iteration c s m) as [m'|e].
  - intros [(Hp & _)|(_ & pre & Hsp & post & Hout & Hspo & Hll & Hlp & Hpump)];
      [congruence|].
    unfold l_pump in Hout, Hlp. rewrite Hmax in Hout, Hlp.
    exists m', pre, post. split; [reflexivity|]. split; [exact Hout|].
    split; [exact Hsp|]. split; [exact Hspo|]. split; [exact Hlp|].
    split; [exact (Hpump Hmax) | exact Hll].
  - intros (_ & Hn). contradiction.
Qed.

End Running.

(** ** The heating path *)

Section Heating.
Context {P : Type} `{CPID P}.
Variable c : cfg.t.

Lemma heat_cond_with_heat_ok s h (m : machine P) :
  heat_cond s (with_st (state.set_heat_ok h) m) = heat_cond s m.
Proof. reflexivity. Qed.

Lemma heat_step_eq h s (m : machine P) :
  heat_step c h (s, m) =
  if heat_cond s m then
    match h with
    | HFalse => HSince (self.time s)
    | HSince t0 =>
      if Qlt_bool (cfg.setting_heat_mode_delay c) (self.time s - t0)
      then HTrue else HSince t0
    | HTrue => HTrue
    end
  else if negb (Run.eqb (var.run (vars m)) Run.run) && negb (is_HFalse h)
       then HFalse else h.
Proof.
  unfold heat_step, heat_ok_after, heat_path. cbn [fst snd].
  rewrite bind_eq. cbn [get]. rewrite heat_cond_with_heat_ok.
  destruct (heat_cond s m); cbn [negb].
  - destruct h; cbn; [reflexivity| |reflexivity].
    destruct (Qlt_bool _ _); reflexivity.
  - cbn. destruct (Run.eqb _ _), h; reflexivity.
Qed.

Lemma heat_run_snoc h cycles (x : self.t * machine P) :
  heat_run c h (cycles ++ [x]) = heat_step c (heat_run c h cycles) x.
Proof. unfold heat_run. rewrite fold_left_app. reflexivity. Qed.

Lemma pending_since (cycles : list (self.t * machine P)) :
  Forall not_running cycles ->
  forall t0, heat_run c HFalse cycles = HSince t0 ->
  exists pre x rest,
    cycles = pre ++ x :: rest /\ self.time (fst x) = t0
    /\ Forall cond_met (x :: rest).
Proof.
  induction cycles as [|[s m] l IH] using rev_ind; intros Hnr t0 Hrun.
  - discriminate Hrun.
  - apply Forall_app in Hnr. destruct Hnr as (Hl & Hx).
    apply Forall_inv in Hx. unfold not_running in Hx. cbn in Hx.
    rewrite heat_run_snoc, heat_step_eq in Hrun.
    destruct (heat_cond s m) eqn:Ec.
    + destruct (heat_run c HFalse l) as [|t1|] eqn:Eh.
      * injection Hrun as <-. exists l, (s, m), []. repeat split.
        constructor; [exact Ec | constructor].
      * destruct (Qlt_bool _ _); [discriminate Hrun|].
        injection Hrun as <-.
        destruct (IH Hl t1 eq_refl) as (pre & x & rest & -> & Ht & Hall).
        exists pre, x, (rest ++ [(s, m)]). split.
        { rewrite <- app_assoc. reflexivity. }
        split; [exact Ht|].
        change (x :: rest ++ [(s, m)]) with ((x :: rest) ++ [(s, m)]).
        apply Forall_app. split; [exact Hall|].
        constructor; [exact Ec | constructor].
      * discriminate Hrun.
    + assert (Er : Run.eqb (var.run (vars m)) Run.run = false).
      { destruct (Run.eqb _ _) eqn:E; [|reflexivity].
        apply Run_eqb_eq in E. contradiction. }
      rewrite Er in Hrun. cbn [negb andb] in Hrun.
      destruct (heat_run c HFalse l); cbn in Hrun; discriminate Hrun.
Qed.

Lemma heat_path_met s (m : machine P) :
  heat_cond s m = true ->
  exists m', heat_path c s m = Next tt m'
    /\ match state.heat_ok (st m) with
       | HFalse => state.heat_ok (st m') = HSince (self.time s) /\ out m' = out m
       | HSince t0 =>
         if Qlt_bool (cfg.setting_heat_mode_delay c) (self.time s - t0)
         then state.heat_ok (st m') = HTrue /\ out m' = out m ++ [heat_write c true]
         else m' = m
       | HTrue => m' = m
       end.
Proof.
  intros Ec. unfold heat_path. rewrite bind_eq. cbn [get]. rewrite Ec. cbn [negb].
  destruct (state.heat_ok (st m)) as [|t0|].
  - eexists. split; [reflexivity|]. split; reflexivity.
  - destruct (Qlt_bool _ _); eexists; (split; [reflexivity|]); [split|]; reflexivity.
  - eexists. split; reflexivity.
Qed.

(** C8, as amended: outside [Run.run] a cycle whose heating conditions are
    not met disables the heating path on that cycle (and drops a pending
    enable); in [Run.run] such a cycle changes nothing. When the conditions
    are met the first cycle records the time, and the path is enabled on a
    later cycle with the conditions met and more than the configured delay
    gone. Outside [Run.run] the conditions held on every evaluated cycle
    from the recording one to the enabling one. *)
Theorem heating_path_hysteresis :
  (forall s (m : machine P),
     heat_cond s m = false -> var.run (vars m) <> Run.run ->
     exists m', heat_path c s m = Next tt m'
       /\ state.heat_ok (st m') = HFalse
       /\ out m' = out m ++ (if is_HFalse (state.heat_ok (st m)) then []
                             else [heat_write c false]))
  /\ (forall s (m : machine P),
        heat_cond s m = false -> var.run (vars m) = Run.run ->
        heat_path c s m = Next tt m)
  /\ (forall s (m : machine P),
        heat_cond s m = true ->
        exists m', heat_path c s m = Next tt m'
          /\ match state.heat_ok (st m) with
             | HFalse => state.heat_ok (st m') = HSince (self.time s) /\ out m' = out m
             | HSince t0 =>
               if Qlt_bool (cfg.setting_heat_mode_delay c) (self.time s - t0)
               then state.heat_ok (st m') = HTrue
                    /\ out m' = out m ++ [heat_write c true]
               else m' = m
             | HTrue => m' = m
             end)
  /\ (forall (cycles : list (self.t * machine P)) s (m : machine P) t0,
        Forall not_running cycles ->
        heat_run c HFalse cycles = HSince t0 ->
        heat_step c (HSince t0) (s, m) = HTrue ->
        exists pre x rest,
          cycles = pre ++ x :: rest
          /\ self.time (fst x) = t0
          /\ Forall cond_met (x :: rest)
          /\ heat_cond s m = true
          /\ cfg.setting_heat_mode_delay c < self.time s - t0).
Proof.
  split; [|split; [|split; [exact heat_path_met|]]].
  - intros s m Ec Hr. unfold heat_path. rewrite bind_eq. cbn [get].
    rewrite Ec. cbn [negb].
    assert (Er : Run.eqb (var.run (vars m)) Run.run = false).
    { destruct (Run.eqb _ _) eqn:E; [|reflexivity].
      apply Run_eqb_eq in E. contradiction. }
    rewrite Er. cbn [negb andb].
    destruct (state.heat_ok (st m)) eqn:Eh; cbn.
    + exists m. rewrite app_nil_r. auto.
    + eexists. split; [reflexivity|]. split; reflexivity.
    + eexists. split; [reflexivity|]. split; reflexivity.
  - intros s m Ec Hr. unfold heat_path. rewrite bind_eq. cbn [get].
    rewrite Ec, Hr. reflexivity.
  - intros cycles s m t0 Hnr Hrun Hstep.
    destruct (pending_since cycles Hnr t0 Hrun) as (pre & x & rest & E & Ht & Hall).
    exists pre, x, rest. split; [exact E|]. split; [exact Ht|]. split; [exact Hall|].
    rewrite heat_step_eq in Hstep.
    destruct (heat_cond s m).
    + split; [reflexivity|]. apply Qlt_bool_iff.
      destruct (Qlt_bool _ _); [reflexivity | discriminate Hstep].
    + destruct (negb _ && _); discriminate Hstep.
Qed.

End Heating.

(** ** Value mapping *)

Lemma clamp01_id (f : Q) : 0 <= f -> f <= 1 -> Qmax 0 (Qmin 1 f) == f.
Proof.
  intros H0 H1. rewrite (Q.min_r 1 f H1). apply Q.max_r. exact H0.
Qed.

Lemma clamp01_bounds (f : Q) : 0 <= Qmax 0 (Qmin 1 f) /\ Qmax 0 (Qmin 1 f) <= 1.
Proof.
  split.
  - apply Q.le_max_l.
  - apply Q.max_lub; [discriminate | apply Q.le_min_l].
Qed.

Lemma pos2val_monotone (low high f g : Q) :
  low < high -> f <= g -> low + (high - low) * f <= low + (high - low) * g.
Proof.
  intros Hlh Hfg. apply Qplus_le_r.
  rewrite !(Qmult_comm (high - low)).
  apply Qmult_le_compat_r; [exact Hfg|].
  apply Qlt_le_weak. rewrite <- (Qplus_opp_r low).
  apply Qplus_lt_l. exact Hlh.
Qed.

(** At the call site [pos2val] is not asked to clamp, but its position comes
    from the clamped [val2pos]: the pump target lies between [t_low] and
    [t_limit] whenever these are in order. *)
Lemma t_pump_within (c : cfg.t) (s : self.t) (cm_heat : option bool) :
  let T := targets c s cm_heat in
  t_low T <= t_limit T -> t_low T <= t_pump T /\ t_pump T <= t_limit T.
Proof.
  cbv zeta. unfold targets. cbn [t_low t_limit t_pump].
  set (low := if is_true cm_heat && water_ok then _ else _).
  set (limit := Qmin _ _).
  set (f := val2pos _ _ _ true).
  intros Hle. unfold pos2val.
  assert (Hf : 0 <= f /\ f <= 1) by (unfold f, val2pos; apply clamp01_bounds).
  destruct Hf as (Hf0 & Hf1).
  assert (Hd : 0 <= limit - low).
  { rewrite <- (Qplus_opp_r low). apply Qplus_le_l. exact Hle. }
  split.
  - assert (E : low + 0 == low) by ring.
    apply Qle_trans with (low + 0); [rewrite E; apply Qle_refl|].
    apply Qplus_le_r. apply Qmult_le_0_compat; assumption.
  - assert (E : low + (limit - low) * 1 == limit) by ring.
    apply Qle_trans with (low + (limit - low) * 1); [|rewrite E; apply Qle_refl].
    apply Qplus_le_r. rewrite !(Qmult_comm (limit - low)).
    apply Qmult_le_compat_r; assumption.
Qed.

(** C9: for [low < high] the two mappings are inverse to each other on the
    clamped domain, [val2pos] with clamping stays within [0,1] and
    [pos2val] with clamping stays within [low,high]. *)
Theorem val2pos_pos2val_inverse (low high : Q) :
  low < high ->
  (forall f cl1 cl2, 0 <= f -> f <= 1 ->
     val2pos low (pos2val low f high cl1) high cl2 == f)
  /\ (forall x cl1 cl2, low <= x -> x <= high ->
        pos2val low (val2pos low x high cl1) high cl2 == x)
  /\ (forall x, 0 <= val2pos low x high true /\ val2pos low x high true <= 1)
  /\ (forall f, low <= pos2val low f high true /\ pos2val low f high true <= high).
Proof.
  intros Hlh.
  assert (Hne : ~ high - low == 0).
  { intros E. apply (Qlt_irrefl low). apply Qlt_le_trans with high; [exact Hlh|].
    assert (E' : high == low) by (rewrite <- (Qplus_0_l low), <- E; ring).
    rewrite E'. apply Qle_refl. }
  assert (Hrt : forall f, (low + (high - low) * f - low) / (high - low) == f).
  { intros f. field. exact Hne. }
  assert (Hpos : forall x, low <= x -> x <= high ->
            0 <= (x - low) / (high - low) /\ (x - low) / (high - low) <= 1).
  { intros x Hx1 Hx2.
    assert (Hd : 0 < high - low).
    { rewrite <- (Qplus_opp_r low). apply Qplus_lt_l. exact Hlh. }
    split.
    - apply Qle_shift_div_l; [exact Hd|]. rewrite Qmult_0_l.
      rewrite <- (Qplus_opp_r low). apply Qplus_le_l. exact Hx1.
    - apply Qle_shift_div_r; [exact Hd|]. rewrite Qmult_1_l.
      apply Qplus_le_l. exact Hx2. }
  split; [|split; [|split]].
  - intros f cl1 cl2 H0 H1. unfold val2pos, pos2val.
    assert (E1 : (if cl1 then Qmax 0 (Qmin 1 f) else f) == f).
    { destruct cl1; [apply clamp01_id; assumption | reflexivity]. }
    assert (E2 : (low + (high - low) * (if cl1 then Qmax 0 (Qmin 1 f) else f) - low)
                 / (high - low) == f).
    { rewrite E1. apply Hrt. }
    destruct cl2; [|exact E2].
    rewrite E2. apply clamp01_id; assumption.
  - intros x cl1 cl2 Hx1 Hx2. unfold val2pos, pos2val.
    destruct (Hpos x Hx1 Hx2) as (Hp0 & Hp1).
    assert (E1 : (if cl1 then Qmax 0 (Qmin 1 ((x - low) / (high - low)))
                  else (x - low) / (high - low)) == (x - low) / (high - low)).
    { destruct cl1; [apply clamp01_id; assumption | reflexivity]. }
    assert (E2 : (if cl2
                  then Qmax 0 (Qmin 1 (if cl1 then Qmax 0 (Qmin 1 ((x - low) / (high - low)))
                                       else (x - low) / (high - low)))
                  else (if cl1 then Qmax 0 (Qmin 1 ((x - low) / (high - low)))
                        else (x - low) / (high - low)))
                 == (x - low) / (high - low)).
    { destruct cl2; [|exact E1]. rewrite E1. apply clamp01_id; assumption. }
    rewrite E2. field. exact Hne.
  - intros x. unfold val2pos. apply clamp01_bounds.
  - intros f. unfold pos2val.
    destruct (clamp01_bounds f) as (H0 & H1). split.
    + assert (E : low + (high - low) * 0 == low) by ring.
      apply Qle_trans with (low + (high - low) * 0);
        [rewrite E; apply Qle_refl | apply pos2val_monotone; assumption].
    + assert (E : low + (high - low) * 1 == high) by ring.
      apply Qle_trans with (low + (high - low) * 1);
        [apply pos2val_monotone; assumption | rewrite E; apply Qle_refl].
Qed.


(** ** The fault monitor *)

(** C6, as amended: code 0 removes the path from the fault table; a
    nonzero code is stored under the path unless it is 30055 (the
    communication failure) or the path is [:1]: those two are logged and
    leave the table as it is. Other paths are untouched and every event
    triggers a re-evaluation. *)
Theorem fault_event (d : err.t) (p : path) (v : Z) :
  let d' := err.step d {| err.path_of := p; err.value_of := Some v |} in
  let key := err_base ++ p in
  (v = 0%Z -> err.m_errors d' = delete key (err.m_errors d)
              /\ err.m_errors d' !! key = None)
  /\ (v <> 0%Z -> v <> 30055%Z -> p <> P_1 ->
      err.m_errors d' = <[key := v]> (err.m_errors d)
      /\ err.m_errors d' !! key = Some v)
  /\ (v = 30055%Z \/ (v <> 0%Z /\ p = P_1) -> err.m_errors d' = err.m_errors d)
  /\ (v = 30055%Z -> exists banner,
        err.logged d' = err.logged d ++ [err.WP_COMM_ERR] ++ banner)
  /\ (forall q, q <> key -> err.m_errors d' !! q = err.m_errors d !! q)
  /\ err.triggers d' = S (err.triggers d).
Proof.
  cbv zeta. unfold err.step. cbn [err.value_of err.path_of err.m_errors err.logged err.triggers].
  split; [|split; [|split; [|split; [|split]]]].
  - intros ->. cbn [Z.eqb negb fst]. split; [reflexivity | apply lookup_delete_eq].
  - intros H0 H1 Hp.
    apply Z.eqb_neq in H0. apply Z.eqb_neq in H1. rewrite H0, H1. cbn [negb].
    rewrite bool_decide_eq_false_2 by exact Hp. cbn [fst].
    split; [reflexivity | apply lookup_insert_eq].
  - intros [-> | (H0 & ->)].
    + reflexivity.
    + apply Z.eqb_neq in H0. rewrite H0. cbn [negb].
      destruct (v =? 30055)%Z; [reflexivity|].
      rewrite bool_decide_eq_true_2 by reflexivity. reflexivity.
  - intros ->. cbn [Z.eqb negb fst snd]. eexists. reflexivity.
  - intros q Hq.
    destruct (v =? 0)%Z; cbn [negb].
    + cbn [fst]. apply lookup_delete_ne. congruence.
    + destruct (v =? 30055)%Z; [reflexivity|].
      case_bool_decide; [reflexivity|].
      cbn [fst]. apply lookup_insert_ne. congruence.
  - reflexivity.
Qed.

Lemma fault_comm_error_not_stored :
  let d' := err.step err.start
              {| err.path_of := [inl "x"%string]; err.value_of := Some 30055%Z |} in
  err.m_errors d' !! (err_base ++ [inl "x"%string]) = None
  /\ err.faulted d' = false
  /\ err.logged d' = [err.WP_COMM_ERR].
Proof. vm_compute. repeat split. Qed.

(** ** The startup barrier *)

Section Barrier.
Import barrier.

Lemma tracks_start : tracks start [].
Proof.
  unfold tracks, valued, marked, start. cbn [want known miss].
  split; [|split]; intros v.
  - rewrite elem_of_list_to_set. split.
    + intros Hv. split; [exact Hv|]. intros (Hx & _). inversion Hx.
    + intros (Hv & _). exact Hv.
  - split; [intros Hx; exfalso; set_solver | intros Hx; inversion Hx].
  - split; [intros Hx; exfalso; set_solver | intros (Hx & _); inversion Hx].
Qed.

Lemma seen_snoc (x y : string * msg) seen : x ∈ seen ++ [y] <-> x ∈ seen \/ x = y.
Proof. rewrite elem_of_app, list_elem_of_singleton. reflexivity. Qed.

Ltac tracks_tac Hw Hk Hm :=
  split; [|split]; intros u;
  rewrite ?seen_snoc, ?elem_of_difference, ?elem_of_union, ?elem_of_singleton,
          ?Hw, ?Hk, ?Hm, ?pair_equal_spec;
  clear Hw Hk Hm; intuition (subst; first [congruence | tauto]).

Lemma kv_tracks v m b b' seen :
  tracks b seen -> kv v m b = inr b' -> tracks b' (seen ++ [(v, m)]).
Proof.
  unfold tracks, valued, marked. intros (Hw & Hk & Hm) Hkv.
  destruct m; cbn [kv] in Hkv.
  - (* UpToDate *)
    case_bool_decide as Ek.
    + unfold remove in Hkv. cbn [want set_miss] in Hkv.
      case_bool_decide as Ew; [|discriminate Hkv].
      injection Hkv as <-. cbn [want known miss set_miss].
      rewrite Hk in Ek. tracks_tac Hw Hk Hm.
    + injection Hkv as <-. cbn [want known miss set_miss].
      rewrite Hk in Ek. tracks_tac Hw Hk Hm.
  - (* Unknown *)
    injection Hkv as <-. tracks_tac Hw Hk Hm.
  - (* Value *)
    case_bool_decide as Em.
    + unfold remove in Hkv. cbn [want set_miss] in Hkv.
      case_bool_decide as Ew; [|discriminate Hkv].
      injection Hkv as <-. cbn [want known miss set_miss has].
      rewrite Hm in Em. tracks_tac Hw Hk Hm.
    + injection Hkv as <-. cbn [want known miss has].
      rewrite Hm in Em. tracks_tac Hw Hk Hm.
Qed.


Lemma kv_error v m b e : kv v m b = inl e -> e = KeyError v.
Proof.
  unfold kv, remove. destruct m; repeat case_bool_decide; intros [=]; congruence.
Qed.

Lemma all_done_ok evs : forall b seen b',
  tracks b seen -> all_done evs b = inr b' ->
  exists seen', tracks b' seen' /\ (forall x, x ∈ seen' -> x ∈ seen ++ evs)
                /\ want b' = ∅.
Proof.
  induction evs as [|[v m] evs IH]; intros b seen b' Ht Hd; cbn [all_done] in Hd.
  - case_bool_decide as Ew; [|discriminate Hd]. injection Hd as <-.
    exists seen. split; [exact Ht|]. split; [|exact Ew].
    intros x Hx. rewrite app_nil_r. exact Hx.
  - case_bool_decide as Ew.
    + injection Hd as <-. exists seen. split; [exact Ht|]. split; [|exact Ew].
      intros x Hx. apply elem_of_app. left. exact Hx.
    + destruct (kv v m b) as [e|b1] eqn:Ek; [discriminate Hd|].
      destruct (IH b1 (seen ++ [(v, m)]) b' (kv_tracks _ _ _ _ _ Ht Ek) Hd)
        as (seen' & Ht' & Hsub & Hw).
      exists seen'. split; [exact Ht'|]. split; [|exact Hw].
      intros x Hx. specialize (Hsub x Hx). rewrite <- app_assoc in Hsub. exact Hsub.
Qed.

Lemma all_done_timeout evs : forall b seen w,
  tracks b seen -> all_done evs b = inl (ValueError_missing w) ->
  exists b', tracks b' (seen ++ evs) /\ w = want b' /\ w <> ∅.
Proof.
  induction evs as [|[v m] evs IH]; intros b seen w Ht Hd; cbn [all_done] in Hd.
  - case_bool_decide as Ew; [discriminate Hd|]. injection Hd as <-.
    exists b. rewrite app_nil_r. auto.
  - case_bool_decide as Ew; [discriminate Hd|].
    destruct (kv v m b) as [e|b1] eqn:Ek.
    + apply kv_error in Ek. subst e. discriminate Hd.
    + destruct (IH b1 (seen ++ [(v, m)]) w (kv_tracks _ _ _ _ _ Ht Ek) Hd)
        as (b' & Ht' & Hw).
      exists b'. rewrite <- app_assoc in Ht'. auto.
Qed.

Lemma all_done_error evs : forall b e,
  all_done evs b = inl e ->
  (exists w, e = ValueError_missing w) \/ (exists v, e = KeyError v).
Proof.
  induction evs as [|[v m] evs IH]; intros b e Hd; cbn [all_done] in Hd.
  - case_bool_decide; [discriminate Hd|]. injection Hd as <-. left. eauto.
  - case_bool_decide; [discriminate Hd|].
    destruct (kv v m b) as [e'|b1] eqn:Ek.
    + apply kv_error in Ek. subst e'. injection Hd as <-. right. eauto.
    + exact (IH b1 e Hd).
Qed.

(** C7, as amended: the barrier resolves only when every required quantity
    has been observed and its subscription has reported up-to-date; on
    timeout the error names exactly the required quantities for which that
    has not happened, among them every quantity never observed; and when
    all of them got that far in time, no timeout is raised. *)
Theorem startup_barrier :
  (forall evs b, run_init evs = inr b ->
     forall v, v ∈ required -> v ∈ known b /\ valued v evs /\ marked v evs)
  /\ (forall evs w, run_init evs = inl (ValueError_missing w) ->
        w <> ∅
        /\ (forall v, v ∈ w <-> v ∈ required /\ ~ (valued v evs /\ marked v evs))
        /\ (forall v, v ∈ required -> ~ valued v evs -> v ∈ w))
  /\ (forall evs,
        (forall v, v ∈ required -> valued v evs /\ marked v evs) ->
        (exists b, run_init evs = inr b)
        \/ (exists v, run_init evs = inl (KeyError v))).
Proof.
  assert (Htimeout : forall evs w, run_init evs = inl (ValueError_missing w) ->
            w <> ∅
            /\ (forall v, v ∈ w <-> v ∈ required /\ ~ (valued v evs /\ marked v evs))
            /\ (forall v, v ∈ required -> ~ valued v evs -> v ∈ w)).
  { intros evs w Hr. unfold run_init in Hr.
    destruct (all_done_timeout evs start [] w tracks_start Hr)
      as (b' & (Hw & _) & -> & Hne).
    cbn [app] in Hw.
    split; [exact Hne|]. split; [exact Hw|].
    intros v Hv Hn. apply Hw. tauto. }
  split; [|split; [exact Htimeout|]].
  - intros evs b Hr v Hv. unfold run_init in Hr.
    destruct (all_done_ok evs start [] b tracks_start Hr)
      as (seen' & (Hw & Hk & _) & Hsub & Hempty).
    assert (Hvm : valued v seen' /\ marked v seen').
    { destruct (decide (valued v seen')) as [Hx|Hx];
        destruct (decide (marked v seen')) as [Hy|Hy]; [auto| | |];
        exfalso; (assert (Hin : v ∈ want b) by (apply Hw; tauto));
        rewrite Hempty in Hin; set_solver. }
    destruct Hvm as (Hx & Hy).
    split; [apply Hk; exact Hx|].
    split; [apply (Hsub _ Hx) | apply (Hsub _ Hy)].
  - intros evs Hall. destruct (run_init evs) as [e|b] eqn:Er; [|left; eauto].
    destruct (all_done_error evs start e Er) as [(w & ->)|(v & ->)]; [|right; eauto].
    exfalso. destruct (Htimeout evs w Er) as (Hne & Hw & _).
    apply Hne. apply set_eq. intros v. split; [|set_solver].
    intros Hv. apply Hw in Hv. destruct Hv as (Hreq & Hn).
    exfalso. apply Hn. apply Hall. exact Hreq.
Qed.

Lemma barrier_names_observed_quantities :
  run_init (map (fun v => (v, Value)) required)
  = inl (ValueError_missing (list_to_set required)).
Proof. vm_compute. reflexivity. Qed.

End Barrier.

(** ** The theorems at concrete inputs *)

Lemma overtemperature_forces_pump_only_witness :
  preempted cfg.default (s_hot 30 1000) (m_run HTrue) = false
  /\ cfg.adj_max cfg.default < self.t_out (s_hot 30 1000)
  /\ exists m' pre post,
       iteration cfg.default (s_hot 30 1000) (m_run HTrue) = Ok m'
       /\ out m' = pre ++ set_load_writes cfg.default
                           (lim (s_hot 30 1000)
                              (targets cfg.default (s_hot 30 1000) (Some false))
                              (m_run HTrue))
                       ++ [FlowPwm 1] ++ post
       /\ silent pre /\ silent post
       /\ state.last_pwm (st m') = Some 1
       /\ pids.pump (pid m')
          = synced (fixed (3 # 10))
              (t_pump (targets cfg.default (s_hot 30 1000) (Some false)))
       /\ state.load_last (st m')
          = Some (lim (s_hot 30 1000)
                    (targets cfg.default (s_hot 30 1000) (Some false))
                    (m_run HTrue)).
Proof.
  split; [reflexivity|]. split; [reflexivity|].
  refine (overtemperature_forces_pump_only cfg.default (s_hot 30 1000) (m_run HTrue)
            eq_refl eq_refl eq_refl _ eq_refl).
  discriminate.
Defined.

Lemma load_command_is_minimum_witness :
  preempted cfg.default (s_hot 30 1000) (m_run HTrue) = false
  /\ exists m' pre post,
       iteration cfg.default (s_hot 30 1000) (m_run HTrue) = Ok m'
       /\ out m' = pre ++ set_load_writes cfg.default
                           (lim (s_hot 30 1000)
                              (targets cfg.default (s_hot 30 1000) (Some false))
                              (m_run HTrue))
                       ++ [FlowPwm (l_pump cfg.default (s_hot 30 1000)
                                      (targets cfg.default (s_hot 30 1000) (Some false))
                                      (m_run HTrue))] ++ post
       /\ silent pre /\ silent post
       /\ state.load_last (st m')
          = Some (lim (s_hot 30 1000)
                    (targets cfg.default (s_hot 30 1000) (Some false))
                    (m_run HTrue)).
Proof.
  split; [reflexivity|].
  destruct (load_command_is_minimum cfg.default (s_hot 30 1000) (m_run HTrue)
              eq_refl eq_refl eq_refl) as (m' & pre & post & E & Hout & Hp & Hq & Hl & _).
  { discriminate. }
  exists m', pre, post. auto.
Defined.

Lemma overtemperature_load_not_zero :
  exists m', iteration cfg.default (s_hot 30 1000) (m_run HTrue) = Ok m'
    /\ out m' = [ClSet cmd_power (VNum (5 # 10)) true;
                 ClSet cmd_mode_path (VNum 3) true;
                 FlowPwm 1]
    /\ state.last_load (st m') = Some (5 # 10)
    /\ ~ In (ClSet cmd_power (VNum 0) true) (out m').
Proof.
  eexists. split; [vm_compute; reflexivity|].
  split; [reflexivity|]. split; [reflexivity|].
  cbn. intros [E|[E|[E|[]]]]; discriminate E.
Qed.

Lemma illegal_transition_raises_witness :
  ~ legal (Some Run.wait_time) Run.temp
  /\ exists o, Some Run.wait_time = Some o
       /\ iteration cfg.default s_cold
            (demo_machine (Some Run.wait_time) Run.temp st_off)
          = Error (ValueError_cannot_go o Run.temp).
Proof.
  assert (Hn : ~ legal (Some Run.wait_time) Run.temp).
  { intros Hl. inversion Hl. discriminate. }
  split; [exact Hn|].
  exact (illegal_transition_raises cfg.default s_cold
           (demo_machine (Some Run.wait_time) Run.temp st_off) Hn).
Defined.

Lemma off_starts_when_cold_witness :
  exists m', iteration cfg.default s_cold m_off = Ok m'
    /\ var.orun (vars m') = Some Run.off
    /\ (false = true \/ t_cur (targets cfg.default s_cold (Some false))
                        < t_set_on (targets cfg.default s_cold (Some false))
        -> var.run (vars m') = Run.wait_time)
    /\ (false = false -> t_set_on (targets cfg.default s_cold (Some false))
                         <= t_cur (targets cfg.default s_cold (Some false))
        -> var.run (vars m') = Run.off).
Proof.
  exact (off_starts_when_cold cfg.default s_cold m_off
           eq_refl eq_refl eq_refl eq_refl eq_refl).
Defined.

Lemma off_cold_buffer_starts :
  (Qlt_bool (t_cur (targets cfg.default s_cold (Some false)))
            (t_set_on (targets cfg.default s_cold (Some false))) = true
   /\ exists m', iteration cfg.default s_cold m_off = Ok m'
        /\ var.run (vars m') = Run.wait_time)
  /\ (Qlt_bool (t_set_on (targets cfg.default s_warm (Some false)))
               (t_cur (targets cfg.default s_warm (Some false))) = true
      /\ exists m', iteration cfg.default s_warm m_off = Ok m'
           /\ var.run (vars m') = Run.off).
Proof.
  split; (split; [vm_compute; reflexivity|]);
    eexists; (split; [vm_compute; reflexivity|]); reflexivity.
Qed.

Lemma ice_leaves_through_down_witness :
  exists m', iteration cfg.default s_cold m_ice = Ok m'
    /\ (var.run (vars m') = Run.down \/ var.run (vars m') = Run.off)
    /\ forall s2, exists m'', iteration cfg.default s2 m' = Ok m''
         /\ var.orun (vars m'') = Some Run.down.
Proof.
  exact (proj1 (ice_leaves_through_down cfg.default) s_cold m_ice
           eq_refl eq_refl eq_refl).
Defined.

Lemma fault_event_witness :
  let d' := err.step err.start
              {| err.path_of := [inl "x"%string]; err.value_of := Some 7%Z |} in
  err.m_errors d' = <[err_base ++ [inl "x"%string] := 7%Z]> ∅
  /\ err.m_errors d' !! (err_base ++ [inl "x"%string]) = Some 7%Z.
Proof.
  refine (proj1 (proj2 (fault_event err.start [inl "x"%string] 7%Z)) _ _ _);
    discriminate.
Defined.

Lemma startup_barrier_witness :
  list_to_set barrier.required <> (∅ : gset string)
  /\ (forall v, v ∈ (list_to_set barrier.required : gset string) <->
        v ∈ barrier.required
        /\ ~ (barrier.valued v [("t_in"%string, barrier.UpToDate)]
              /\ barrier.marked v [("t_in"%string, barrier.UpToDate)]))
  /\ (forall v, v ∈ barrier.required ->
        ~ barrier.valued v [("t_in"%string, barrier.UpToDate)] ->
        v ∈ (list_to_set barrier.required : gset string)).
Proof.
  refine (proj1 (proj2 startup_barrier) [("t_in"%string, barrier.UpToDate)] _ _).
  vm_compute. reflexivity.
Defined.

Lemma heating_path_hysteresis_witness :
  exists m', heat_path cfg.default (s_hot 25 1000)
               (demo_machine (Some Run.down) Run.down (st_run HTrue)) = Next tt m'
    /\ state.heat_ok (st m') = HFalse
    /\ out m' = [] ++ (if is_HFalse HTrue then [] else [heat_write cfg.default false]).
Proof.
  refine (proj1 (heating_path_hysteresis cfg.default) (s_hot 25 1000)
            (demo_machine (Some Run.down) Run.down (st_run HTrue)) _ _).
  - vm_compute. reflexivity.
  - discriminate.
Defined.

Lemma heating_not_disabled_while_running :
  (heat_cond (s_hot 25 1000) (m_run HTrue) = false
   /\ exists m', iteration cfg.default (s_hot 25 1000) (m_run HTrue) = Ok m'
        /\ state.heat_ok (st m') = HTrue
        /\ ~ In (heat_write cfg.default false) (out m'))
  /\ (heat_cond (s_hot 25 10) (m_run HFalse) = false
      /\ heat_run cfg.default HFalse
           [(s_hot 35 0, m_run HFalse); (s_hot 25 10, m_run HFalse)]
         = HSince 0
      /\ heat_step cfg.default (HSince 0) (s_hot 35 41, m_run HFalse) = HTrue).
Proof.
  split.
  - split; [vm_compute; reflexivity|].
    eexists. split; [vm_compute; reflexivity|]. split; [reflexivity|].
    cbn. intros [E|[E|[E|[]]]]; discriminate E.
  - split; [vm_compute; reflexivity|]. split; vm_compute; reflexivity.
Qed.

Lemma val2pos_pos2val_inverse_witness :
  40 < 61
  /\ (forall f cl1 cl2, 0 <= f -> f <= 1 ->
        val2pos 40 (pos2val 40 f 61 cl1) 61 cl2 == f).
Proof.
  split; [reflexivity|].
  exact (proj1 (val2pos_pos2val_inverse 40 61 eq_refl)).
Defined.

Lemma off_only_after_down_witness :
  exists m', iteration cfg.default (s_done true)
               (demo_machine (Some Run.run) Run.off (st_run HTrue)) = Ok m'
    /\ var.orun (vars m') = Some Run.down.
Proof.
  exact (proj1 (off_only_after_down cfg.default) (s_done true)
           (demo_machine (Some Run.run) Run.off (st_run HTrue)) eq_refl eq_refl).
Defined.

Lemma off_entered_without_cooldown :
  entered cfg.default [s_done true; s_done false; s_done false] (m_run HTrue)
  = [Some Run.run; Some Run.down; Some Run.off]
  /\ Forall (fun s => ~ self.t_out s - self.t_in s < cfg.misc_stop_delta cfg.default)
       [s_done true; s_done false; s_done false].
Proof.
  split; [vm_compute; reflexivity|].
  repeat constructor; intros Hlt; vm_compute in Hlt; discriminate Hlt.
Qed.

(** * Further properties of the code *)

(** ** What the loop body leaves alone *)

Section Steady.
Context {P : Type} `{CPID P}.
Variable c : cfg.t.

Lemma steady_refl (m : machine P) : steady m m.
Proof.
  repeat split; auto. exists []. rewrite app_nil_r. reflexivity.
Qed.

Lemma steady_trans (m1 m2 m3 : machine P) : steady m1 m2 -> steady m2 m3 -> steady m1 m3.
Proof.
  intros (Hr & Ht & Hf & w & Ho) (Hr' & Ht' & Hf' & w' & Ho').
  split; [congruence|]. split; [auto|]. split; [auto|].
  exists (w ++ w'). rewrite Ho', Ho, app_assoc. reflexivity.
Qed.

Lemma steadily_bind {A B} (p : prog P A) (k : A -> prog P B) :
  steadily p -> (forall a, steadily (k a)) -> steadily (bind p k).
Proof.
  intros Hp Hk m. rewrite bind_eq. specialize (Hp m).
  destruct (p m) as [a m1|m1|e]; [|exact Hp|exact I].
  specialize (Hk a m1). destruct (k a m1) as [b m2|m2|e]; [| |exact I];
    eapply steady_trans; eassumption.
Qed.

Lemma steadily_get_bind {A} (k : machine P -> prog P A) :
  (forall m0, steadily (k m0)) -> steadily (bind get k).
Proof. intros Hk m. rewrite bind_eq. cbn. apply Hk. Qed.

Lemma steadily_ret {A} (a : A) : steadily (@ret P A a).
Proof. intros m. apply steady_refl. Qed.

Lemma steadily_pass : steadily (@pass P).
Proof. apply steadily_ret. Qed.

Lemma steadily_continue {A} : steadily (@continue P A).
Proof. intros m. apply steady_refl. Qed.

Lemma steadily_raise {A} e : steadily (@raise P A e).
Proof. intros m. exact I. Qed.

Lemma steadily_set_var f : steadily (@set_var P f).
Proof. intros m. cbn. apply (steady_refl m). Qed.

Lemma steadily_set_pid f : steadily (@set_pid P f).
Proof. intros m. cbn. apply (steady_refl m). Qed.

Lemma steadily_call_pid sel upd i t : steadily (@call_pid P _ sel upd i t).
Proof. intros m. cbn. apply (steady_refl m). Qed.

Lemma steadily_m_cop q : steadily (@modify P (with_m_cop q)).
Proof. intros m. cbn. apply (steady_refl m). Qed.

Lemma steadily_clear_force_on : steadily (@modify P (with_force_on false)).
Proof.
  intros m. cbn. repeat split; auto; [discriminate|].
  exists []. rewrite app_nil_r. reflexivity.
Qed.

Lemma steadily_emit a : steadily (@emit P a).
Proof. intros m. cbn. repeat split; auto. exists [a]. reflexivity. Qed.

Lemma steadily_set_last_pwm v : steadily (@set_state P (state.set_last_pwm v)).
Proof. intros m. cbn. apply (steady_refl m). Qed.

Lemma steadily_set_last_load v : steadily (@set_state P (state.set_last_load v)).
Proof. intros m. cbn. apply (steady_refl m). Qed.

Lemma steadily_set_load_last v : steadily (@set_state P (state.set_load_last v)).
Proof. intros m. cbn. apply (steady_refl m). Qed.

Lemma steadily_set_t_load v : steadily (@set_state P (state.set_t_load v)).
Proof. intros m. cbn. apply (steady_refl m). Qed.

Lemma steadily_set_heat_ok v : steadily (@set_state P (state.set_heat_ok v)).
Proof. intros m. cbn. apply (steady_refl m). Qed.

Lemma steadily_set_last_pump v : steadily (@set_state P (state.set_last_pump v)).
Proof. intros m. cbn. apply (steady_refl m). Qed.

Lemma steadily_goto r : steadily (@goto P r).
Proof. intros m. cbn. apply (steady_refl m). Qed.

Create HintDb steady.
#[local] Hint Resolve steadily_ret steadily_pass steadily_continue steadily_raise
  steadily_set_var steadily_set_pid steadily_call_pid steadily_m_cop
  steadily_clear_force_on steadily_emit steadily_set_last_pwm steadily_set_last_load
  steadily_set_load_last steadily_set_t_load steadily_set_heat_ok
  steadily_set_last_pump steadily_goto : steady.

Ltac steady_tac :=
  repeat match goal with
    | |- steadily (bind get _) => apply steadily_get_bind; intros ?
    | |- steadily (bind _ _) => apply steadily_bind; [|intros ?]
    | |- steadily (if ?b then _ else _) => destruct b
    | |- steadily (match ?x with _ => _ end) => destruct x
    | |- steadily _ => solve [auto with steady]
    end.

Lemma steadily_cl_set p v i : steadily (@cl_set P p v i).
Proof. unfold cl_set. steady_tac. Qed.
#[local] Hint Resolve steadily_cl_set : steady.

Lemma steadily_set_flow_pwm r : steadily (@set_flow_pwm P r).
Proof. unfold set_flow_pwm. steady_tac. Qed.
#[local] Hint Resolve steadily_set_flow_pwm : steady.

Lemma steadily_set_load p : steadily (@set_load P c p).
Proof. unfold set_load. steady_tac. Qed.
#[local] Hint Resolve steadily_set_load : steady.

Lemma steadily_handle_flow s : steadily (@handle_flow P _ s).
Proof. unfold handle_flow. steady_tac. Qed.
#[local] Hint Resolve steadily_handle_flow : steady.

Lemma steadily_sync_setpoint sel upd v : steadily (@sync_setpoint P _ sel upd v).
Proof. unfold sync_setpoint. steady_tac. Qed.

Lemma steadily_heat_command b : steadily (@heat_command P c b).
Proof. unfold heat_command. steady_tac. Qed.
#[local] Hint Resolve steadily_sync_setpoint steadily_heat_command : steady.

Lemma steadily_leave_state o : steadily (@leave_state P c o).
Proof. unfold leave_state. steady_tac. Qed.

Lemma steadily_check_ice s : steadily (@check_ice P s).
Proof. unfold check_ice. steady_tac. Qed.

Lemma steadily_check_main s : steadily (@check_main P s).
Proof. unfold check_main. steady_tac. Qed.

Lemma steadily_check_heat s : steadily (@check_heat P s).
Proof. unfold check_heat. steady_tac. Qed.

Lemma steadily_handle_state s T : steadily (@handle_state P _ c s T).
Proof. unfold handle_state. steady_tac. Qed.

Lemma steadily_heat_path s : steadily (@heat_path P c s).
Proof. unfold heat_path. steady_tac. Qed.

Lemma steadily_check_power s : steadily (@check_power P c s).
Proof. unfold check_power. steady_tac. Qed.

Lemma steadily_pump_rate s : steadily (@pump_rate P _ c s).
Proof. unfold pump_rate. steady_tac. Qed.
#[local] Hint Resolve steadily_pump_rate : steady.

Lemma steadily_cascade s T : steadily (@cascade P _ c s T).
Proof. unfold cascade. steady_tac. Qed.

Lemma steadily_update_cop s : steadily (@update_cop P s).
Proof. unfold update_cop. steady_tac. Qed.

Lemma steadily_check_done s T : steadily (@check_done P c s T).
Proof. unfold check_done. steady_tac. Qed.

#[local] Hint Resolve steadily_check_ice steadily_check_main steadily_check_heat
  steadily_handle_state steadily_heat_path steadily_check_power steadily_cascade
  steadily_update_cop steadily_check_done : steady.

Lemma steadily_running s T : steadily (@running P _ c s T).
Proof. unfold running. steady_tac. Qed.
#[local] Hint Resolve steadily_running : steady.

Lemma steadily_evaluate s : steadily (@evaluate P _ c s).
Proof. unfold evaluate. steady_tac. Qed.

(** *** The entry actions and the persisted state *)

Lemma oeqb_eq o r : oeqb o r = true <-> o = Some r.
Proof.
  destruct o as [o|]; cbn; [|split; discriminate].
  rewrite Run_eqb_eq. split; congruence.
Qed.

Lemma steady_out_nil (m m' : machine P) :
  state.run (st m') = state.run (st m) ->
  (forall t, state.t_run (st m) = Some t -> state.t_run (st m') = Some t) ->
  force_on m' = force_on m -> out m' = out m -> steady m m'.
Proof.
  intros Hr Ht Hf Ho. split; [exact Hr|]. split; [exact Ht|].
  split; [congruence|]. exists []. rewrite app_nil_r. exact Ho.
Qed.

Lemma enter_state_inv s o (m : machine P) :
  match enter_state c s o m with
  | Next _ m' =>
      steady m m'
      /\ (var.run (vars m) = Run.run -> o <> Some Run.run ->
          state.t_run (st m') <> None)
  | Continue _ => False
  | Raise _ => False
  end.
Proof.
  destruct (quiet_enter_state c s o m) as ([] & m' & E & _). rewrite E.
  revert E.
  unfold enter_state. rewrite bind_eq. cbn [get]. rewrite bind_eq.
  cbn [set_var modify].
  destruct (oeqb o (var.run (vars m))) eqn:Eo.
  { intros [= <-]. split; [apply (steady_refl m)|].
    intros Hr Hne. apply oeqb_eq in Eo. exfalso. apply Hne. rewrite Eo, Hr. reflexivity. }
  destruct (var.run (vars m)) eqn:Er.
  7:{ cbn. destruct (state.t_run (st m)) as [t|] eqn:Et; destruct o; cbn;
        intros [= <-]; (split;
         [apply steady_out_nil; cbn; first [reflexivity | congruence]
         | intros _ _; cbn; congruence]). }
  all: match goal with |- ?p ?m1 = _ -> _ =>
         let Hs := fresh "Hs" in
         assert (Hs : steadily p) by steady_tac;
         specialize (Hs m1); intros E; rewrite E in Hs;
         split; [exact Hs | discriminate]
       end.
Qed.

(** Part 1 of the loop body, as far as the persisted state is concerned *)
Lemma state_change_persist s (m : machine P) :
  match state_change c s m with
  | Next _ m' =>
      state.run (st m') = Run.value (entered_run m)
      /\ (forall t, state.t_run (st m) = Some t -> state.t_run (st m') = Some t)
      /\ (entered_run m = Run.run -> var.orun (vars m) <> Some Run.run ->
          state.t_run (st m') <> None)
      /\ (force_on m' = true -> force_on m = true)
      /\ exists w, out m' = out m ++ w
  | Continue _ => True
  | Raise _ => True
  end.
Proof.
  destruct (legal_decide (var.orun (vars m)) (var.run (vars m))) as [Hl|Hn].
  2:{ generalize (state_change_inv c s m).
      destruct (state_change c s m) as [[] m'|m'|e]; [|exact (fun _ => I)..].
      intros (Hl & _). contradiction. }
  unfold state_change. rewrite bind_eq. cbn [get]. rewrite bind_eq.
  rewrite (check_transition_legal _ _ _ Hl).
  rewrite bind_eq, redirect_eq.
  set (m1 := if Run.eqb (var.run (vars m)) Run.off && negb (in_off_tuple (var.orun (vars m)))
             then with_vars (var.set_run Run.down) m else m).
  assert (H1 : var.run (vars m1) = entered_run m /\ steady m m1).
  { unfold m1, entered_run. destruct (_ && _); split; try reflexivity; apply (steady_refl m). }
  clearbody m1. destruct H1 as (Hr1 & Hs1).
  rewrite bind_eq.
  destruct (quiet_leave_state c (var.orun (vars m)) m1) as ([] & m2 & E2 & K2).
  assert (Hs2 := steadily_leave_state (var.orun (vars m)) m1). rewrite E2 in Hs2.
  rewrite E2. destruct K2 as (Kr2 & _).
  rewrite bind_eq.
  generalize (enter_state_inv s (var.orun (vars m)) m2).
  destruct (quiet_enter_state c s (var.orun (vars m)) m2) as ([] & m3 & E3 & K3).
  rewrite E3. intros (Hs3 & Ht3). destruct K3 as (Kr3 & _).
  rewrite commit_state_eq. cbn.
  assert (Hs : steady m m3).
  { eapply steady_trans; [exact Hs1|]. eapply steady_trans; eassumption. }
  destruct Hs as (_ & Ht & Hf & Hw).
  split; [congruence|]. split; [exact Ht|]. split; [|split; [exact Hf | exact Hw]].
  intros He Ho. apply Ht3; [congruence | exact Ho].
Qed.

(** one pass, as far as the persisted state is concerned *)
Lemma iteration_persist s (m m' : machine P) :
  iteration c s m = Ok m' ->
  state.run (st m') = Run.value (entered_run m)
  /\ (forall t, state.t_run (st m) = Some t -> state.t_run (st m') = Some t)
  /\ (entered_run m = Run.run -> var.orun (vars m) <> Some Run.run ->
      state.t_run (st m') <> None)
  /\ (force_on m' = true -> force_on m = true).
Proof.
  unfold iteration, loop_body. rewrite bind_eq.
  generalize (state_change_persist s (with_out (fun _ => []) m))
             (state_change_inv c s (with_out (fun _ => []) m)).
  change (entered_run (with_out (fun _ => []) m)) with (entered_run m).
  destruct (state_change c s _) as [[] m1|m1|e]; [|contradiction|discriminate].
  cbn [vars st force_on out with_out].
  intros (Hr1 & Ht1 & Hn1 & Hf1 & _) _.
  assert (Hfin : forall m2, steady m1 m2 ->
    state.run (st m2) = Run.value (entered_run m)
    /\ (forall t, state.t_run (st m) = Some t -> state.t_run (st m2) = Some t)
    /\ (entered_run m = Run.run -> var.orun (vars m) <> Some Run.run ->
        state.t_run (st m2) <> None)
    /\ (force_on m2 = true -> force_on m = true)).
  { intros m2 (Hr & Ht & Hf & _). split; [congruence|]. split; [auto|].
    split; [|auto]. intros He Ho.
    destruct (state.t_run (st m1)) as [t|] eqn:Et; [|contradiction (Hn1 He Ho); reflexivity].
    rewrite (Ht t eq_refl). discriminate. }
  generalize (steadily_evaluate s m1).
  destruct (evaluate c s m1) as [[] m2|m2|e]; [| |discriminate];
    intros Hs [= <-]; apply Hfin; exact Hs.
Qed.

(** X1: after every completed pass the persisted [state.run] is the
    number of the state entered on that pass (the loop's [orun]), so that
    [Run(self.state.get("run",0))] at the next start of [run_pump] yields
    that state. *)
Theorem persisted_run_is_state_entered s (m m' : machine P) :
  iteration c s m = Ok m' ->
  var.orun (vars m') = Some (entered_run m)
  /\ state.run (st m') = Run.value (entered_run m)
  /\ Run.of_value (state.run (st m')) = var.orun (vars m').
Proof.
  intros E. destruct (iteration_persist s m m' E) as (Hr & _).
  generalize (iteration_inv c s m). rewrite E. intros (_ & Ho & _).
  split; [exact Ho|]. split; [exact Hr|].
  rewrite Hr, Ho. apply Run_of_value_value.
Qed.

Ltac in_table :=
  first [ apply legal_same | apply legal_startup | apply legal_off | apply legal_ice
        | apply legal_advance; reflexivity | apply legal_down; discriminate
        | apply legal_down_off ].

(** whatever "State handling" asks for is in the table *)
Lemma advance_legal s T (m1 : machine P) r :
  advance c s T m1 = Some r -> legal (Some (var.run (vars m1))) r.
Proof.
  unfold advance. destruct (var.run (vars m1));
    repeat match goal with |- context [if ?b then _ else _] => destruct b end;
    intros [= <-]; in_table.
Qed.

Lemma iteration_legal_out s (m m' : machine P) :
  iteration c s m = Ok m' ->
  legal (var.orun (vars m')) (var.run (vars m')).
Proof.
  intros E. generalize (iteration_inv c s m). rewrite E.
  intros (_ & Ho & [(_ & Hr)|[(_ & _ & _ & Hr)|(_ & _ & m1 & Hr1 & _ & _ & Ha)]]);
    rewrite Ho; try (rewrite Hr; in_table).
  destruct (advance c s _ m1) as [r|] eqn:Ea.
  - rewrite Ha, <- Hr1. eapply advance_legal; eassumption.
  - destruct Ha as [->|(_ & ->)]; in_table.
Qed.

(** X2: the transition that a completed pass leaves for the next one is
    always in the table of legal transitions, whatever the pass started
    from: the check at the top of the loop can only fail on the first pass
    after the loop variables were set from outside. *)
Theorem iteration_leaves_legal_transition s (m m' : machine P) :
  iteration c s m = Ok m' ->
  legal (var.orun (vars m')) (var.run (vars m')).
Proof. apply iteration_legal_out. Qed.




Lemma run_loop_persist ss : forall (m m' : machine P),
  run_loop c ss m = Ok m' ->
  (forall t, state.t_run (st m) = Some t -> state.t_run (st m') = Some t)
  /\ (force_on m' = true -> force_on m = true).
Proof.
  induction ss as [|s ss IH]; intros m m'; cbn.
  - intros [= <-]. auto.
  - destruct (iteration c s m) as [m1|e] eqn:E1; [|discriminate].
    intros E. destruct (IH _ _ E) as (Ht & Hf).
    destruct (iteration_persist s m m1 E1) as (_ & Ht1 & _ & Hf1). auto.
Qed.

(** X4: once the start of a run is recorded in [state.t_run], no pass of
    the loop changes it, also not when a later run begins: [setdefault]
    leaves the old time in place. *)
Theorem t_run_is_recorded_once ss (m m' : machine P) t :
  run_loop c ss m = Ok m' ->
  state.t_run (st m) = Some t ->
  state.t_run (st m') = Some t.
Proof. intros E. apply (run_loop_persist ss m m' E). Qed.

(** X5: the loop never sets [force_on]: when the flag is set after any
    number of passes, it was set before them. *)
Theorem force_on_is_never_set ss (m m' : machine P) :
  run_loop c ss m = Ok m' ->
  force_on m' = true -> force_on m = true.
Proof. intros E. apply (run_loop_persist ss m m' E). Qed.

(** *** Pre-emption by the ice alarm and by the main switch *)

Lemma state_change_next s (m : machine P) :
  legal (var.orun (vars m)) (var.run (vars m)) ->
  exists m1, state_change c s m = Next tt m1
    /\ var.run (vars m1) = entered_run m
    /\ var.orun (vars m1) = Some (entered_run m)
    /\ var.m_ice (vars m1) = var.m_ice (vars m)
    /\ var.cm_main (vars m1) = var.cm_main (vars m).
Proof.
  intros Hl. generalize (state_change_inv c s m).
  destruct (state_change c s m) as [[] m1|m1|e]; [|contradiction|].
  - intros (_ & Hr & Ho & Hi & Hc & _). exists m1. auto.
  - intros (o & Ho & Hn & _). rewrite Ho in Hl. contradiction.
Qed.

Lemma evaluate_ice_edge s (m : machine P) :
  self.m_ice s = true -> var.m_ice (vars m) = false ->
  evaluate c s m
  = Continue (with_vars (var.set_run Run.ice)
                (with_out (fun l => l ++ [ClSet feedback_ice (VBool true) false])
                   (with_vars (var.set_m_ice true) m))).
Proof.
  intros Hs Hm. unfold evaluate. rewrite bind_eq. unfold check_ice.
  rewrite bind_eq. cbn [get]. rewrite Hs, Hm. reflexivity.
Qed.

(** X6: a new ice alarm pre-empts the pass in every state: after the
    entry actions of Part 1 the only thing done is to report the alarm
    and to ask for [Run.ice]; no state handling, no heating decision, no
    cascade. The pass always completes. *)
Theorem ice_alarm_preempts s (m : machine P) :
  legal (var.orun (vars m)) (var.run (vars m)) ->
  self.m_ice s = true -> var.m_ice (vars m) = false ->
  exists m1 m',
    state_change c s (with_out (fun _ => []) m) = Next tt m1
    /\ iteration c s m = Ok m'
    /\ var.run (vars m') = Run.ice
    /\ var.orun (vars m') = Some (entered_run m)
    /\ var.m_ice (vars m') = true
    /\ out m' = out m1 ++ [ClSet feedback_ice (VBool true) false]
    /\ st m' = st m1 /\ pid m' = pid m1.
Proof.
  intros Hl Hs Hm.
  destruct (state_change_next s (with_out (fun _ => []) m) Hl)
    as (m1 & E1 & Hr1 & Ho1 & Hi1 & _).
  exists m1. eexists. split; [exact E1|].
  unfold iteration, loop_body. rewrite bind_eq, E1.
  rewrite (evaluate_ice_edge s m1 Hs) by (rewrite Hi1; exact Hm).
  split; [reflexivity|]. cbn. repeat split. exact Ho1.
Qed.

Lemma evaluate_main_edge s (m : machine P) :
  ice_edge s m = false -> main_off s = true ->
  is_true (var.cm_main (vars m)) = true ->
  exists m1, check_ice s m = Next tt m1
    /\ evaluate c s m
       = Continue (with_vars (var.set_run Run.off)
                     (with_out (fun l => l ++ [ClSet feedback_main (VBool (self.cm_main s)) false])
                        (with_vars (var.set_cm_main (Some false)) m1))).
Proof.
  intros He Hm Hc. generalize (check_ice_inv s m).
  destruct (check_ice s m) as [[] m1|m1|e] eqn:E1; [| |contradiction].
  2:{ intros (He' & _). congruence. }
  intros (_ & Hv1 & _). exists m1. split; [reflexivity|].
  unfold evaluate. rewrite bind_eq, E1, bind_eq. unfold check_main.
  rewrite bind_eq. cbn [get]. unfold main_off in Hm. rewrite Hm.
  rewrite Hv1. cbn [var.cm_main var.set_m_ice]. rewrite Hc. reflexivity.
Qed.

(** X7: when the main switch is off or a fault is active while the
    loop's own main flag is still set (and no new ice alarm comes first),
    the pass completes in every state by asking for [off]; its last write
    reports [self.cm_main] as it is, also when a fault is the cause. *)
Theorem main_switch_forces_off s (m : machine P) :
  legal (var.orun (vars m)) (var.run (vars m)) ->
  ice_edge s m = false -> main_off s = true ->
  is_true (var.cm_main (vars m)) = true ->
  exists m' w,
    iteration c s m = Ok m'
    /\ var.run (vars m') = Run.off
    /\ var.orun (vars m') = Some (entered_run m)
    /\ var.cm_main (vars m') = Some false
    /\ out m' = w ++ [ClSet feedback_main (VBool (self.cm_main s)) false].
Proof.
  intros Hl He Hm Hc.
  destruct (state_change_next s (with_out (fun _ => []) m) Hl)
    as (m1 & E1 & Hr1 & Ho1 & Hi1 & Hc1).
  cbn [vars with_out] in Hi1, Hc1.
  destruct (evaluate_main_edge s m1) as (m2 & E2 & E3); try assumption.
  { unfold ice_edge in *. rewrite Hi1. exact He. }
  { rewrite Hc1. exact Hc. }
  generalize (check_ice_inv s m1). rewrite E2. intros (_ & Hv2 & _).
  eexists. exists (out m2). split.
  { unfold iteration, loop_body. rewrite bind_eq, E1, E3. reflexivity. }
  cbn. rewrite Hv2. cbn. repeat split. exact Ho1.
Qed.

(** X8: while the main switch is off or a fault is active, a machine
    resting in [off] stays there, whatever the temperatures and also when
    [force_on] is set (as long as the ice sensor is clear). *)
Theorem off_is_kept_while_main_off ss : forall (m : machine P),
  var.orun (vars m) = Some Run.off -> var.run (vars m) = Run.off ->
  Forall (fun s => main_off s = true /\ self.m_ice s = false) ss ->
  exists m', run_loop c ss m = Ok m'
    /\ var.orun (vars m') = Some Run.off /\ var.run (vars m') = Run.off.
Proof.
  induction ss as [|s ss IH]; intros m Ho Hr Hall.
  - exists m. auto.
  - inversion Hall as [|s' ss' (Hm & Hi) Hall']; subst.
    assert (Hent : entered_run m = Run.off).
    { unfold entered_run. rewrite Hr, Ho. reflexivity. }
    destruct (iteration_total c s m) as (m1 & E1).
    { rewrite Ho, Hr. apply legal_same. }
    { rewrite Hent. discriminate. }
    cbn. rewrite E1. apply IH; [| |exact Hall'].
    + generalize (iteration_inv c s m). rewrite E1. intros (_ & Ho1 & _). congruence.
    + generalize (iteration_inv c s m). rewrite E1.
      unfold ice_edge. rewrite Hi, Hm, Hent. cbn [andb].
      intros (_ & _ & [(Hx & _)|[(_ & _ & _ & Hx)|(_ & Hcm & m0 & Hr0 & _ & Hc0 & Ha)]]);
        [discriminate | exact Hx |].
      unfold advance in Ha. rewrite Hr0, Hc0, (Hcm eq_refl) in Ha. cbn [andb] in Ha.
      destruct Ha as [Hx|(Hx & _)]; [exact Hx | discriminate].
Qed.

(** *** The resting states *)

Lemma state_change_same s (m : machine P) :
  var.orun (vars m) = Some (var.run (vars m)) ->
  exists m', state_change c s m = Next tt m'
    /\ vars m' = vars m /\ calm m m' /\ out m' = out m.
Proof.
  intros Ho. destruct m as [v ? ? ? ? ?]. destruct v as [r ? ? ? ? ? ? ?].
  cbn in Ho. subst. unfold state_change.
  destruct r; cbn; (eexists; split; [reflexivity|]);
    (split; [reflexivity|]); (split; [|reflexivity]);
    repeat split; exists []; rewrite app_nil_r; (split; [reflexivity | apply silent_nil]).
Qed.

Lemma handle_state_resting s T (m : machine P) :
  resting (var.run (vars m)) ->
  match handle_state c s T m with
  | Next _ m' => calm m m'
  | Continue m' => calm m m'
  | Raise _ => False
  end.
Proof.
  unfold handle_state, goto. rewrite bind_eq. cbn [get].
  intros [Hr|[Hr|Hr]]; rewrite Hr;
    repeat match goal with |- context [if ?b then _ else _] => destruct b end;
    cbn; apply (calm_refl m).
Qed.

Lemma evaluate_resting s (m : machine P) :
  resting (var.run (vars m)) ->
  match evaluate c s m with
  | Next _ m' => calm m m'
  | Continue m' => calm m m'
  | Raise _ => False
  end.
Proof.
  intros Hr. unfold evaluate. rewrite bind_eq.
  generalize (check_ice_inv s m) (calmly_check_ice s m).
  destruct (check_ice s m) as [[] m1|m1|e]; [| |contradiction].
  2:{ intros _ Hc. exact Hc. }
  intros (_ & Hv1 & _) Hc1. rewrite bind_eq.
  generalize (check_main_inv s m1) (calmly_check_main s m1).
  destruct (check_main s m1) as [[] m2|m2|e]; [| |contradiction].
  2:{ intros _ Hc2. eapply calm_trans; eassumption. }
  intros (_ & Hv2 & _) Hc2. rewrite bind_eq.
  destruct (check_heat_inv s m2) as (m3 & E3 & Hv3 & _).
  assert (Hc3 := calmly_check_heat s m2). rewrite E3 in Hc3. rewrite E3.
  rewrite bind_eq. cbn [get]. rewrite bind_eq.
  assert (Hr3 : var.run (vars m3) = var.run (vars m)).
  { rewrite Hv3, Hv2, Hv1. destruct (main_off s); reflexivity. }
  assert (Hc03 : calm m m3).
  { eapply calm_trans; [exact Hc1|]. eapply calm_trans; eassumption. }
  generalize (handle_state_resting s (targets c s (var.cm_heat (vars m3))) m3)
             (handle_state_inv c s (targets c s (var.cm_heat (vars m3))) m3).
  rewrite Hr3.
  destruct (handle_state c s _ m3) as [[] m4|m4|e].
  3:{ intros Hx _. exact (Hx Hr). }
  2:{ intros Hx _. eapply calm_trans; [exact Hc03 | exact (Hx Hr)]. }
  intros Hx (_ & Hk4 & _). specialize (Hx Hr).
  destruct (heat_path_next c s m4) as (m5 & E5 & Hv5).
  assert (Hc5 := calmly_heat_path c s m4). rewrite E5 in Hc5.
  rewrite bind_eq, E5, bind_eq. cbn [get].
  assert (Hr5 : var.run (vars m5) = var.run (vars m)) by congruence.
  rewrite Hr5.
  assert (Hc : calm m m5).
  { eapply calm_trans; [exact Hc03|]. eapply calm_trans; eassumption. }
  destruct Hr as [Hr|[Hr|Hr]]; rewrite Hr; cbn; exact Hc.
Qed.

(** X9: while the machine rests in [off], [wait_time] or [wait_flow], a
    pass writes nothing to the load command and nothing to the flow port,
    and leaves the loops and the last pump speed alone. *)
Theorem resting_states_write_nothing s (m : machine P) :
  var.orun (vars m) = Some (var.run (vars m)) ->
  resting (var.run (vars m)) ->
  exists m', iteration c s m = Ok m'
    /\ silent (out m')
    /\ pid m' = pid m
    /\ state.last_pwm (st m') = state.last_pwm (st m).
Proof.
  intros Ho Hr.
  destruct (state_change_same s (with_out (fun _ => []) m) Ho)
    as (m1 & E1 & Hv1 & Hc1 & Ho1).
  generalize (evaluate_resting s m1). rewrite Hv1. intros Hx. specialize (Hx Hr).
  unfold iteration, loop_body. rewrite bind_eq, E1.
  assert (Hfin : forall m2, calm m1 m2 ->
            silent (out m2) /\ pid m2 = pid m
            /\ state.last_pwm (st m2) = state.last_pwm (st m)).
  { intros m2 Hc2. destruct (calm_trans _ _ _ Hc1 Hc2) as (Hp & _ & Hw & _ & w & Hw' & Hs).
    split; [|split; [exact Hp | exact Hw]]. rewrite Hw'. exact Hs. }
  destruct (evaluate c s m1) as [[] m2|m2|e]; [| |contradiction];
    exists m2; (split; [reflexivity|]); apply Hfin; exact Hx.
Qed.

(** *** The entry actions *)

Lemma state_change_enter_off s (m : machine P) :
  var.run (vars m) = Run.off ->
  in_off_tuple (var.orun (vars m)) = true ->
  var.orun (vars m) <> Some Run.off ->
  exists m1, state_change c s m = Next tt m1
    /\ vars m1 = var.set_heat_off (Some false) (var.set_orun (Some Run.off) (vars m))
    /\ out m1 = out m ++ FlowPwm 0 :: set_load_writes c 0
    /\ state.last_pwm (st m1) = None
    /\ state.last_load (st m1) = Some 0
    /\ state.run (st m1) = 0%Z
    /\ pid m1 = pid m.
Proof.
  intros Hr Ht Hne. destruct m as [v ? ? ? ? ?]. destruct v as [r o ? ? ? ? ? ?].
  cbn in Hr, Ht, Hne. subst r.
  unfold state_change, enter_state, set_load, set_load_writes.
  destruct o as [[]|]; try discriminate Ht; try (contradiction Hne; reflexivity);
    cbn; destruct (Qlt_bool 0 (cfg.lim_power_min c)); cbn;
    (eexists; split; [reflexivity|]); cbn; rewrite <- ?app_assoc; repeat split.
Qed.

(** X10: when [off] is entered (from [down] or from one of the waiting
    states), the pass first stops the pump and the load: flow 0, then
    [set_load(0)]; nothing else is written to either in that pass, and the
    remembered pump speed [state.last_pwm] is cleared. *)
Theorem entering_off_stops_pump_and_load s (m : machine P) :
  var.run (vars m) = Run.off ->
  in_off_tuple (var.orun (vars m)) = true ->
  var.orun (vars m) <> Some Run.off ->
  exists m' w,
    iteration c s m = Ok m'
    /\ var.orun (vars m') = Some Run.off
    /\ out m' = FlowPwm 0 :: set_load_writes c 0 ++ w
    /\ silent w
    /\ state.last_pwm (st m') = None.
Proof.
  intros Hr Ht Hne.
  destruct (state_change_enter_off s (with_out (fun _ => []) m) Hr Ht Hne)
    as (m1 & E1 & Hv1 & Ho1 & Hw1 & _).
  cbn [out with_out app] in Ho1.
  assert (Hr1 : var.run (vars m1) = Run.off) by (rewrite Hv1; exact Hr).
  generalize (evaluate_resting s m1) (evaluate_inv c s m1). cbv zeta.
  rewrite Hr1. intros Hx Hy. specialize (Hx (or_introl eq_refl)).
  unfold iteration, loop_body. rewrite bind_eq, E1.
  assert (Hfin : forall m2, calm m1 m2 -> var.orun (vars m2) = var.orun (vars m1) ->
            var.orun (vars m2) = Some Run.off
            /\ exists w, out m2 = FlowPwm 0 :: set_load_writes c 0 ++ w
                 /\ silent w /\ state.last_pwm (st m2) = None).
  { intros m2 (_ & _ & Hw & _ & w & Hw' & Hs) Ho2.
    split; [rewrite Ho2, Hv1; reflexivity|].
    exists w. split; [rewrite Hw', Ho1; reflexivity|]. split; [exact Hs | congruence]. }
  destruct (evaluate c s m1) as [[] m2|m2|e]; [| |contradiction];
    destruct Hy as (Ho2 & _); destruct (Hfin m2 Hx Ho2) as (Ho & w & Hout & Hs & Hw);
    exists m2, w; auto.
Qed.

Lemma leave_state_pass o (m : machine P) :
  var.run (vars m) <> Run.run -> leave_state c o m = Next tt m.
Proof.
  intros Hne. unfold leave_state. rewrite bind_eq. cbn [get].
  destruct o; [reflexivity|].
  destruct (Run.eqb (var.run (vars m)) Run.run) eqn:E; [|reflexivity].
  apply Run_eqb_eq in E. contradiction.
Qed.

Lemma oeqb_ne o r : o <> Some r -> oeqb o r = false.
Proof.
  intros Hne. destruct (oeqb o r) eqn:E; [|reflexivity].
  apply oeqb_eq in E. contradiction.
Qed.

(** the flow setpoint of the two shutdown states *)
Lemma enter_state_shutdown s o (m : machine P) :
  var.run (vars m) = Run.ice \/ var.run (vars m) = Run.down ->
  o <> Some (var.run (vars m)) ->
  exists m', enter_state c s o m = Next tt m'
    /\ out m' = out m ++ [ClSet cmd_mode_path (VNum (cfg.cmd_mode_off c)) false;
                          ClSet cmd_power (VNum 0) false]
    /\ var.heat_off (vars m') = Some true
    /\ pids.flow (pid m')
       = pid_setpoint (pids.flow (pid m))
           (if Run.eqb (var.run (vars m)) Run.ice
            then cfg.misc_de_ice c else cfg.misc_stop_flow c)
    /\ st m' = st m.
Proof.
  intros Hr Hne. unfold enter_state. rewrite bind_eq. cbn [get]. rewrite bind_eq.
  cbn [set_var modify]. rewrite (oeqb_ne _ _ Hne).
  destruct Hr as [Hr|Hr]; rewrite Hr; cbn;
    (eexists; split; [reflexivity|]); cbn; rewrite <- ?app_assoc; repeat split.
Qed.

Lemma state_change_enter_shutdown s (m : machine P) :
  legal (var.orun (vars m)) (var.run (vars m)) ->
  entered_run m = Run.ice \/ entered_run m = Run.down ->
  var.orun (vars m) <> Some (entered_run m) ->
  exists m1, state_change c s m = Next tt m1
    /\ out m1 = out m ++ [ClSet cmd_mode_path (VNum (cfg.cmd_mode_off c)) false;
                          ClSet cmd_power (VNum 0) false]
    /\ var.heat_off (vars m1) = Some true
    /\ pids.flow (pid m1)
       = pid_setpoint (pids.flow (pid m))
           (if Run.eqb (entered_run m) Run.ice
            then cfg.misc_de_ice c else cfg.misc_stop_flow c).
Proof.
  intros Hl He Hne.
  assert (Hnr : entered_run m <> Run.run) by (destruct He as [-> | ->]; discriminate).
  unfold state_change. rewrite bind_eq. cbn [get]. rewrite bind_eq.
  rewrite (check_transition_legal _ _ _ Hl).
  rewrite bind_eq, redirect_eq.
  set (m0 := if Run.eqb (var.run (vars m)) Run.off && negb (in_off_tuple (var.orun (vars m)))
             then with_vars (var.set_run Run.down) m else m).
  assert (H0 : var.run (vars m0) = entered_run m /\ out m0 = out m /\ pid m0 = pid m).
  { unfold m0, entered_run. destruct (_ && _); repeat split. }
  clearbody m0. destruct H0 as (Hr0 & Hout0 & Hp0).
  rewrite bind_eq, leave_state_pass by congruence.
  destruct (enter_state_shutdown s (var.orun (vars m)) m0)
    as (m2 & E2 & Hout2 & Hh2 & Hf2 & Hs2).
  { rewrite Hr0. exact He. }
  { rewrite Hr0. exact Hne. }
  rewrite bind_eq, E2, commit_state_eq.
  eexists. split; [reflexivity|]. cbn.
  rewrite Hout2, Hout0, Hh2, Hf2, Hr0, Hp0. repeat split.
Qed.

(** X11: when [Run.ice] or [Run.down] is entered, also through the
    redirect of a request for [off] from an active state, the first two
    writes of the pass switch the heat pump off: mode off, then power 0,
    both sent unconditionally ([idem] left out); heating is blocked
    ([heat_off]) and the flow loop gets the de-icing or the cool-down
    setpoint. The pass always completes. *)
Theorem shutdown_entry_switches_heat_pump_off s (m : machine P) :
  legal (var.orun (vars m)) (var.run (vars m)) ->
  entered_run m = Run.ice \/ entered_run m = Run.down ->
  var.orun (vars m) <> Some (entered_run m) ->
  exists m1 m' w,
    state_change c s (with_out (fun _ => []) m) = Next tt m1
    /\ var.heat_off (vars m1) = Some true
    /\ pids.flow (pid m1)
       = pid_setpoint (pids.flow (pid m))
           (if Run.eqb (entered_run m) Run.ice
            then cfg.misc_de_ice c else cfg.misc_stop_flow c)
    /\ iteration c s m = Ok m'
    /\ var.orun (vars m') = Some (entered_run m)
    /\ out m' = [ClSet cmd_mode_path (VNum (cfg.cmd_mode_off c)) false;
                 ClSet cmd_power (VNum 0) false] ++ w.
Proof.
  intros Hl He Hne.
  assert (Hnr : entered_run m <> Run.run) by (destruct He as [-> | ->]; discriminate).
  destruct (iteration_total c s m Hl Hnr) as (m' & E).
  generalize (iteration_inv c s m). rewrite E. intros (_ & Ho' & _).
  destruct (state_change_enter_shutdown s (with_out (fun _ => []) m) Hl He Hne)
    as (m1 & E1 & Hout1 & Hh1 & Hf1).
  cbn [out with_out app] in Hout1.
  assert (Hs := steadily_evaluate s m1).
  revert E. unfold iteration, loop_body. rewrite bind_eq, E1. intros E.
  assert (Hw : exists w, out m' = out m1 ++ w).
  { destruct (evaluate c s m1) as [[] m3|m3|e]; [| |discriminate];
      injection E as <-; destruct Hs as (_ & _ & _ & Hw); exact Hw. }
  destruct Hw as (w & Hw). exists m1, m', w.
  split; [reflexivity|]. split; [exact Hh1|]. split; [exact Hf1|].
  split; [reflexivity|]. split; [exact Ho'|]. rewrite Hw, Hout1. reflexivity.
Qed.

Lemma set_load_eq p (m : machine P) :
  set_load c p m
  = Next tt (with_st (state.set_last_load
                        (Some (if Qlt_bool p (cfg.lim_power_min c) then 0 else p)))
               (with_out (fun l => l ++ set_load_writes c p) m)).
Proof.
  unfold set_load, set_load_writes.
  destruct (Qlt_bool p (cfg.lim_power_min c)); cbn; unfold with_st, with_out; cbn; rewrite <- app_assoc; reflexivity.
Qed.

(** X12: a restart in [Run.run] re-sends the persisted load before
    anything else and then forgets it ([state.load_last] is cleared); the
    load, buffer and limit loops are taken as restored, not reset, and
    the recorded start of the run is kept when there is one. *)
Theorem restart_in_run_resends_load s st0 ps force cop (m : machine P) l :
  start_of st0 ps force cop = Some m ->
  state.run st0 = Run.value Run.run ->
  state.load_last st0 = Some l ->
  exists m1,
    state_change c s m = Next tt m1
    /\ out m1 = set_load_writes c l
    /\ state.load_last (st m1) = None
    /\ state.last_load (st m1)
       = Some (if Qlt_bool l (cfg.lim_power_min c) then 0 else l)
    /\ state.t_run (st m1)
       = Some (match state.t_run st0 with Some t => t | None => self.time s end)
    /\ pids.load (pid m1) = pids.load ps
    /\ pids.buffer (pid m1) = pids.buffer ps
    /\ pids.limit (pid m1) = pids.limit ps
    /\ pids.pump (pid m1)
       = pid_move_to (pids.pump ps) (self.t_out s) (state.last_pwm st0)
           (Some (self.time s))
    /\ var.orun (vars m1) = Some Run.run.
Proof.
  unfold start_of. intros Hs Hr Hl. rewrite Hr in Hs. cbn in Hs.
  injection Hs as <-.
  unfold state_change. rewrite bind_eq. cbn [get]. rewrite bind_eq.
  rewrite check_transition_legal by apply legal_startup.
  rewrite bind_eq, redirect_eq. cbn [vars var.run var.init Run.eqb Run.value Z.eqb andb].
  rewrite bind_eq. unfold leave_state. rewrite bind_eq.
  cbn [get vars var.orun var.run var.init st Run.eqb Run.value Z.eqb Pos.eqb].
  rewrite Hl, set_load_eq. rewrite bind_eq.
  unfold enter_state. rewrite bind_eq. cbn [get]. rewrite bind_eq.
  cbn [set_var modify vars var.orun var.run var.init with_st with_vars with_out oeqb].
  destruct (state.t_run st0) as [t|] eqn:Et; cbn; rewrite ?Et;
    (eexists; split; [reflexivity|]); cbn; rewrite ?Et; repeat split.
Qed.

(** X13: [Run.run] is entered only from [Run.temp], or at the start of
    [run_pump] from the persisted state: on every completed pass that is in
    [run], the previous pass was in [temp] or in [run], or there was none. *)
Theorem run_is_entered_only_from_temp s (m m' : machine P) :
  iteration c s m = Ok m' ->
  var.orun (vars m') = Some Run.run ->
  var.orun (vars m) = None
  \/ var.orun (vars m) = Some Run.temp
  \/ var.orun (vars m) = Some Run.run.
Proof.
  intros E Ho'. generalize (iteration_inv c s m). rewrite E.
  intros (Hl & Ho & _). rewrite Ho in Ho'. injection Ho' as He.
  assert (Hr : var.run (vars m) = Run.run).
  { unfold entered_run in He. destruct (_ && _); [discriminate | exact He]. }
  rewrite Hr in Hl. destruct (var.orun (vars m)) as [o|]; [|auto].
  right. inversion Hl as [r0| | | |o0 r0 Hv|o0 Hne|]; subst; [auto|].
  destruct o; cbn in Hv; try discriminate Hv. auto.
Qed.

End Steady.

(** ** The actuator helpers and the shutdown procedure *)

Lemma Run_of_value_some (n : Z) (r : Run.t) :
  Run.of_value n = Some r <-> n = Run.value r.
Proof.
  split; [|intros ->; apply Run_of_value_value].
  destruct n as [|p|p]; cbn; try discriminate; [intros [= <-]; reflexivity|].
  do 4 (try destruct p as [p|p|]); cbn; try discriminate; intros [= <-]; reflexivity.
Qed.

(** X14: [Run(n)] and [run.value] are inverse to each other, and exactly
    the numbers 0..8 are states: every other number makes [Run(n)] raise. *)
Theorem Run_value_round_trip (n : Z) :
  (forall r, Run.of_value n = Some r <-> n = Run.value r)
  /\ (Run.of_value n = None <-> (n < 0 \/ 8 < n)%Z).
Proof.
  split; [intros r; apply Run_of_value_some|]. split.
  - intros Hn. destruct (Z_lt_le_dec n 0) as [|H0]; [auto|].
    destruct (Z_lt_le_dec 8 n) as [|H8]; [auto|]. exfalso.
    assert (Hc : (n = 0 \/ n = 1 \/ n = 2 \/ n = 3 \/ n = 4 \/ n = 5 \/ n = 6
                  \/ n = 7 \/ n = 8)%Z) by lia.
    repeat destruct Hc as [Hc|Hc]; subst n; discriminate Hn.
  - intros Hr. destruct (Run.of_value n) as [r|] eqn:E; [|reflexivity].
    apply Run_of_value_some in E. subst n. destruct r; cbn in Hr; lia.
Qed.

Section Actuators.
Context {P : Type} `{CPID P}.
Variable c : cfg.t.

(** X15: [set_load] never sends a power above 1. A request below
    [cfg.lim.power.min] sends power 0 and switches the mode off; any other
    request sends [min(p,1)] and switches the mode on, while
    [state.last_load] keeps the request as it came. *)
Theorem set_load_bounds (p : Q) (m : machine P) :
  exists q mode m',
    set_load c p m = Next tt m'
    /\ out m' = out m ++ [ClSet cmd_power (VNum q) true;
                          ClSet cmd_mode_path (VNum mode) true]
    /\ q <= 1
    /\ ( (p < cfg.lim_power_min c /\ q = 0 /\ mode = cfg.cmd_mode_off c
          /\ state.last_load (st m') = Some 0)
       \/ (cfg.lim_power_min c <= p /\ q = Qmin p 1 /\ q <= p
           /\ mode = cfg.cmd_mode_on c
           /\ state.last_load (st m') = Some p) )
    /\ vars m' = vars m /\ pid m' = pid m.
Proof.
  rewrite set_load_eq. unfold set_load_writes.
  destruct (Qlt_bool p (cfg.lim_power_min c)) eqn:E.
  - apply Qlt_bool_iff in E.
    exists 0, (cfg.cmd_mode_off c). eexists. split; [reflexivity|].
    split; [reflexivity|]. split; [discriminate|]. split; [|split; reflexivity].
    left. auto.
  - apply Qlt_bool_false_iff in E.
    exists (Qmin p 1), (cfg.cmd_mode_on c). eexists. split; [reflexivity|].
    split; [reflexivity|]. split; [apply Q.le_min_r|]. split; [|split; reflexivity].
    right. split; [exact E|]. split; [reflexivity|]. split; [apply Q.le_min_l|].
    split; reflexivity.
Qed.

Lemma Qmax_cases (x y : Q) : Qmax x y = x \/ Qmax x y = y.
Proof. unfold Qmax, GenericMinMax.gmax. destruct (x ?= y); auto. Qed.

Lemma handle_flow_eq s (m : machine P) :
  let rf := pid_call (pids.flow (pid m)) (self.r_flow s) (self.time s) in
  let rp := pid_call (pids.pump (pid m)) (self.t_out s) (self.time s) in
  let res := Qmax (fst rf) (fst rp) in
  handle_flow s m
  = Next tt
      (with_st (state.set_last_pump (Some res))
         (with_out (fun l => l ++ [FlowPwm res])
            (with_st (state.set_last_pwm (Some res))
               (with_pid (pids.set_pump (snd rp))
                  (with_pid (pids.set_flow (snd rf)) m))))).
Proof. reflexivity. Qed.

(** X16: [handle_flow] consults the flow loop and the pump loop once
    each and sends the larger of the two outputs to the flow port, so that
    the pump runs at least as fast as either loop asks; the value is
    remembered in [state.last_pwm] and [state.last_pump]. *)
Theorem handle_flow_sends_larger_output s (m : machine P) :
  let rf := pid_call (pids.flow (pid m)) (self.r_flow s) (self.time s) in
  let rp := pid_call (pids.pump (pid m)) (self.t_out s) (self.time s) in
  exists res m',
    handle_flow s m = Next tt m'
    /\ out m' = out m ++ [FlowPwm res]
    /\ fst rf <= res /\ fst rp <= res /\ (res = fst rf \/ res = fst rp)
    /\ state.last_pwm (st m') = Some res
    /\ state.last_pump (st m') = Some res
    /\ pids.flow (pid m') = snd rf /\ pids.pump (pid m') = snd rp
    /\ vars m' = vars m.
Proof.
  cbv zeta. rewrite handle_flow_eq. cbv zeta.
  eexists. eexists. split; [reflexivity|]. cbn.
  split; [reflexivity|]. split; [apply Q.le_max_l|]. split; [apply Q.le_max_r|].
  split; [apply Qmax_cases|]. repeat split.
Qed.


(** *** [Data.off] *)

Lemma after_handle_flow s (m : machine P) :
  let rf := pid_call (pids.flow (pid m)) (self.r_flow s) (self.time s) in
  let rp := pid_call (pids.pump (pid m)) (self.t_out s) (self.time s) in
  let res := Qmax (fst rf) (fst rp) in
  after (handle_flow s) m
  = with_st (state.set_last_pump (Some res))
      (with_out (fun l => l ++ [FlowPwm res])
         (with_st (state.set_last_pwm (Some res))
            (with_pid (pids.set_pump (snd rp))
               (with_pid (pids.set_flow (snd rf)) m)))).
Proof. reflexivity. Qed.

Lemma cool_down_inv ss : forall s (m : machine P),
  let r := cool_down c s ss m in
  vars (fst r) = vars m
  /\ state.run (st (fst r)) = state.run (st m)
  /\ state.last_load (st (fst r)) = state.last_load (st m)
  /\ (exists w, out (fst r) = out m ++ w /\ flow_only w
        /\ (if snd r then length w <= length ss else length w = S (length ss))%nat)
  /\ (snd r = true <-> Exists (fun s => hot c s = false) (s :: ss)).
Proof.
  induction ss as [|s' ss IH]; intros s m; cbn [cool_down].
  - destruct (hot c s) eqn:Eh; cbn [fst snd].
    + rewrite after_handle_flow. cbn. repeat split.
      * eexists. split; [reflexivity|]. split; [repeat constructor; eauto|].
        reflexivity.
      * discriminate.
      * intros Hx. inversion Hx as [? ? Hy|? ? Hy]; [congruence | inversion Hy].
    + repeat split.
      * exists []. rewrite app_nil_r. split; [reflexivity|].
        split; [constructor|]. cbn; lia.
      * intros _. constructor. exact Eh.
  - destruct (hot c s) eqn:Eh.
    + assert (H1 : vars (after (handle_flow s) m) = vars m
                   /\ state.run (st (after (handle_flow s) m)) = state.run (st m)
                   /\ state.last_load (st (after (handle_flow s) m)) = state.last_load (st m)
                   /\ exists r, out (after (handle_flow s) m) = out m ++ [FlowPwm r]).
      { rewrite after_handle_flow. cbn. repeat split. eexists. reflexivity. }
      set (m1 := after (handle_flow s) m) in *. clearbody m1.
      destruct H1 as (Hv1 & Hr1 & Hl1 & r1 & Ho1).
      specialize (IH s' m1). cbv zeta in IH.
      destruct IH as (Hv & Hr & Hl & (w & Hw & Hf & Hlen) & Hiff).
      split; [congruence|]. split; [congruence|]. split; [congruence|]. split.
      * exists (FlowPwm r1 :: w). split; [rewrite Hw, Ho1, <- app_assoc; reflexivity|].
        split; [constructor; eauto|]. cbn [app length].
        destruct (snd (cool_down c s' ss m1)); lia.
      * rewrite Hiff. split; [intros Hx; apply Exists_cons_tl; exact Hx|].
        intros Hx. inversion Hx as [? ? Hy|? ? Hy]; [congruence | exact Hy].
    + cbn [fst snd]. repeat split.
      * exists []. rewrite app_nil_r. split; [reflexivity|].
        split; [constructor|]. cbn; lia.
      * intros _. constructor. exact Eh.
Qed.

(** X18: [off] returns exactly when the persisted [state.run] is one of
    the nine states and the exchanger has cooled down on some snapshot:
    outlet minus inlet at most [cfg.misc.stop.delta]. While every snapshot
    is hotter it keeps waiting. *)
Theorem off_returns_iff_cooled s0 ss (d : off_state) :
  (exists d', off c s0 ss d = OffDone d')
  <-> (Run.of_value (state.run (st (off_machine d))) <> None
       /\ Exists (fun s => self.t_out s - self.t_in s <= cfg.misc_stop_delta c)
            (s0 :: ss)).
Proof.
  assert (Hhot : Exists (fun s => hot c s = false) (s0 :: ss)
                 <-> Exists (fun s => self.t_out s - self.t_in s <= cfg.misc_stop_delta c)
                       (s0 :: ss)).
  { rewrite !Exists_exists. split; intros (x & Hin & Hx); exists x; (split; [exact Hin|]);
      unfold hot in *; apply Qlt_bool_false_iff; exact Hx. }
  rewrite <- Hhot. unfold off.
  destruct (Run.of_value (state.run (st (off_machine d)))) as [r|].
  2:{ split; [intros (d' & Hx); discriminate Hx | intros (Hx & _); contradiction]. }
  match goal with |- context [cool_down c s0 ss ?m] =>
    destruct (cool_down_inv ss s0 m) as (_ & _ & _ & _ & Hiff);
    destruct (snd (cool_down c s0 ss m)) end.
  - split; [|eauto]. intros _. split; [discriminate | apply Hiff; reflexivity].
  - split; [intros (d' & Hx); discriminate Hx|].
    intros (_ & Hx). apply Hiff in Hx. discriminate Hx.
Qed.

(** X19: when [off] returns, the load was switched off first
    ([set_load(0)]), only the flow port was written while cooling down, and
    the last write sets the flow to 0. The state was saved twice: with
    [run = Run.down.value] before anything was written, and with [run = 0]
    at the end. *)
Theorem off_leaves_everything_off s0 ss (d d' : off_state) :
  off c s0 ss d = OffDone d' ->
  exists w s1,
    out (off_machine d')
    = out (off_machine d) ++ set_load_writes c 0 ++ w ++ [FlowPwm 0]
    /\ flow_only w /\ (length w <= length ss)%nat
    /\ saved d' = saved d ++ [s1; st (off_machine d')]
    /\ state.run s1 = Run.value Run.down
    /\ state.run (st (off_machine d')) = 0%Z
    /\ state.last_pwm (st (off_machine d')) = Some 0
    /\ state.last_load (st (off_machine d')) = Some 0
    /\ vars (off_machine d') = vars (off_machine d).
Proof.
  unfold off.
  destruct (Run.of_value (state.run (st (off_machine d)))) as [r|]; [|discriminate].
  match goal with |- context [cool_down c s0 ss ?m] =>
    destruct (cool_down_inv ss s0 m) as (Hv & Hr & Hl & (w & Hw & Hf & Hlen) & Hiff);
    set (m2 := m) in *;
    destruct (cool_down c s0 ss m2) as [m3 b] eqn:Ec end.
  cbn [fst snd] in *. destruct b; [|discriminate].
  intros [= <-]. cbn [off_machine saved].
  unfold m2 in Hw, Hv, Hl. unfold after in Hw, Hv, Hl.
  rewrite set_load_eq in Hw, Hv, Hl. cbn in Hw, Hv, Hl.
  exists w. eexists. cbn.
  split; [rewrite Hw, <- !app_assoc; reflexivity|]. split; [exact Hf|].
  split; [exact Hlen|]. split; [rewrite <- app_assoc; reflexivity|].
  split; [reflexivity|]. split; [reflexivity|]. split; [reflexivity|].
  split; [|exact Hv]. rewrite Hl. destruct (Qlt_bool 0 _); reflexivity.
Qed.

(** X20: while [off] is still cooling down, every snapshot so far was
    hotter than the stop delta, the flow port was written once per
    snapshot and nothing else after [set_load(0)], and the state on disk
    says [Run.down]: a restart resumes in [down]. *)
Theorem off_waits_in_down s0 ss (d d' : off_state) :
  off c s0 ss d = OffWaiting d' ->
  Forall (fun s => cfg.misc_stop_delta c < self.t_out s - self.t_in s) (s0 :: ss)
  /\ exists w s1,
       out (off_machine d') = out (off_machine d) ++ set_load_writes c 0 ++ w
       /\ flow_only w /\ length w = S (length ss)
       /\ saved d' = saved d ++ [s1]
       /\ state.run s1 = Run.value Run.down
       /\ Run.of_value (state.run (st (off_machine d'))) = Some Run.down.
Proof.
  unfold off.
  destruct (Run.of_value (state.run (st (off_machine d)))) as [r|]; [|discriminate].
  match goal with |- context [cool_down c s0 ss ?m] =>
    destruct (cool_down_inv ss s0 m) as (Hv & Hr & Hl & (w & Hw & Hf & Hlen) & Hiff);
    set (m2 := m) in *;
    destruct (cool_down c s0 ss m2) as [m3 b] eqn:Ec end.
  cbn [fst snd] in *. destruct b; [discriminate|].
  intros [= <-]. cbn [off_machine saved]. split.
  - apply Forall_forall. intros x Hin.
    destruct (hot c x) eqn:Eh; [apply Qlt_bool_iff; exact Eh|].
    assert (Hx : Exists (fun s => hot c s = false) (s0 :: ss)).
    { apply Exists_exists. exists x. auto. }
    apply Hiff in Hx. discriminate Hx.
  - unfold m2 in Hw, Hr. unfold after in Hw, Hr.
    rewrite set_load_eq in Hw, Hr. cbn in Hw, Hr.
    exists w. eexists.
    split; [rewrite Hw, <- !app_assoc; reflexivity|]. split; [exact Hf|].
    split; [exact Hlen|]. split; [reflexivity|]. split; [reflexivity|].
    rewrite Hr. reflexivity.
Qed.

End Actuators.

(** ** The fault monitor *)

Lemma fault_table_sound_step (d : err.t) (m : err.msg) :
  fault_table_sound (err.m_errors d) -> fault_table_sound (err.m_errors (err.step d m)).
Proof.
  intros Hs. unfold err.step. destruct (err.value_of m) as [v|]; [|exact Hs].
  cbn [err.m_errors].
  destruct (Z.eqb_spec v 0) as [->|Hv0]; cbn [negb fst].
  - intros k x Hk. apply lookup_delete_Some in Hk. apply Hs. apply Hk.
  - destruct (Z.eqb_spec v 30055) as [->|Hv]; cbn [fst]; [exact Hs|].
    case_bool_decide as Hp; cbn [fst]; [exact Hs|].
    intros k x Hk. apply lookup_insert_Some in Hk.
    destruct Hk as [(<- & <-)|(_ & Hk)]; [|apply Hs; exact Hk].
    split; [exact Hv0|]. split; [exact Hv|]. eauto.
Qed.

(** X21: whatever the fault feed delivers, the fault table built by
    [err_mon] never holds the code 0, never the communication-failure code
    30055, and only keys below [pump] whose feed path is not [:1]. *)
Theorem fault_table_is_sound (msgs : list err.msg) :
  fault_table_sound (err.m_errors (err.err_mon msgs err.start)).
Proof.
  unfold err.err_mon.
  assert (Hg : forall d, fault_table_sound (err.m_errors d) ->
                 fault_table_sound (err.m_errors (fold_left err.step msgs d))).
  { induction msgs as [|m msgs IH]; intros d Hd; [exact Hd|].
    cbn. apply IH. apply fault_table_sound_step. exact Hd. }
  apply Hg. intros k v Hk. cbn in Hk. rewrite lookup_empty in Hk. discriminate.
Qed.

(** X22: a fault report followed by the code 0 for the same path leaves
    no entry for that path, whatever the reported code was; when the path
    had no entry before, the table is as it was. *)
Theorem fault_set_then_cleared (d : err.t) (p : path) (v : Z) :
  let d' := err.step (err.step d {| err.path_of := p; err.value_of := Some v |})
              {| err.path_of := p; err.value_of := Some 0%Z |} in
  err.m_errors d' = delete (err_base ++ p) (err.m_errors d)
  /\ err.m_errors d' !! (err_base ++ p) = None
  /\ (err.m_errors d !! (err_base ++ p) = None -> err.m_errors d' = err.m_errors d)
  /\ err.triggers d' = S (S (err.triggers d)).
Proof.
  cbv zeta. unfold err.step. cbn [err.value_of err.path_of err.m_errors err.triggers fst].
  assert (E : delete (err_base ++ p)
                (fst (if negb (v =? 0)%Z
                      then if (v =? 30055)%Z then (err.m_errors d, [err.WP_COMM_ERR])
                           else if bool_decide (p = P_1) then (err.m_errors d, [err.ERROR v])
                           else (<[err_base ++ p := v]> (err.m_errors d),
                                 [err.ERROR_at p v])
                      else (delete (err_base ++ p) (err.m_errors d), [])))
              = delete (err_base ++ p) (err.m_errors d)).
  { destruct (negb (v =? 0)%Z); [|cbn [fst]; apply delete_delete_eq].
    destruct (v =? 30055)%Z; [reflexivity|].
    destruct (bool_decide (p = P_1)); [reflexivity|].
    cbn [fst]. apply delete_insert_eq. }
  cbn [Z.eqb negb fst]. rewrite E.
  split; [reflexivity|]. split; [apply lookup_delete_eq|]. split; [|reflexivity].
  intros Hn. apply delete_id. exact Hn.
Qed.

Lemma err_step_no_value (d : err.t) (m : err.msg) :
  err.value_of m = None -> err.step d m = d.
Proof. intros E. unfold err.step. rewrite E. reflexivity. Qed.

(** X23: messages without a value are skipped by [err_mon]: they change
    nothing and wake nobody; every message with a value calls
    [self.trigger()] exactly once, fault or not. *)
Theorem fault_feed_triggers (msgs : list err.msg) (d : err.t) :
  err.err_mon msgs d = err.err_mon (with_value msgs) d
  /\ err.triggers (err.err_mon msgs d)
     = (err.triggers d + length (with_value msgs))%nat.
Proof.
  unfold err.err_mon, with_value. revert d.
  induction msgs as [|m msgs IH]; intros d.
  - cbn. split; [reflexivity | lia].
  - destruct (err.value_of m) as [v|] eqn:Ev.
    + rewrite filter_cons_True by (rewrite Ev; eauto). cbn [fold_left length].
      destruct (IH (err.step d m)) as (IH1 & IH2). split; [exact IH1|].
      rewrite IH2. unfold err.step. rewrite Ev. cbn [err.triggers]. lia.
    + rewrite filter_cons_False by (rewrite Ev; intros [x Hx]; discriminate Hx).
      cbn [fold_left]. rewrite (err_step_no_value d m Ev). apply IH.
Qed.

(** ** The startup barrier, message by message *)

Section BarrierSteps.
Import barrier.

(** X24: for a name that is still wanted and has no marker pending, the
    first value and the up-to-date marker may come in either order: both
    orders are handled without error and leave the same sets, with the
    name no longer wanted. *)
Theorem value_and_marker_commute (v : string) (b : t) :
  v ∈ want b -> v ∉ miss b ->
  exists b1 b2 b',
    kv v Value b = inr b1 /\ kv v UpToDate b1 = inr b'
    /\ kv v UpToDate b = inr b2 /\ kv v Value b2 = inr b'
    /\ want b' = want b ∖ {[v]}
    /\ known b' = known b ∪ {[v]}
    /\ miss b' = miss b.
Proof.
  intros Hw Hm.
  assert (Hmiss : miss b ∖ {[v]} = miss b).
  { apply set_eq. intros x. rewrite elem_of_difference, elem_of_singleton.
    split; [tauto|]. intros Hx. split; [exact Hx | congruence]. }
  assert (Hmiss' : (miss b ∪ {[v]}) ∖ {[v]} = miss b).
  { apply set_eq. intros x.
    rewrite elem_of_difference, elem_of_union, elem_of_singleton.
    split; [tauto|]. intros Hx. split; [tauto | congruence]. }
  assert (Hkn : v ∈ known b ∪ {[v]}).
  { apply elem_of_union. right. apply elem_of_singleton. reflexivity. }
  assert (Hmi : v ∈ miss b ∪ {[v]}).
  { apply elem_of_union. right. apply elem_of_singleton. reflexivity. }
  assert (E1 : kv v Value b = inr (has v b)).
  { unfold kv. rewrite (bool_decide_eq_false_2 _ Hm). reflexivity. }
  assert (E2 : kv v UpToDate (has v b)
               = inr {| want := want b ∖ {[v]}; known := known b ∪ {[v]};
                        miss := miss b |}).
  { unfold kv, has. cbn [known]. rewrite (bool_decide_eq_true_2 _ Hkn).
    unfold remove, set_miss. cbn [want known miss].
    rewrite (bool_decide_eq_true_2 _ Hw), Hmiss. reflexivity. }
  exists (has v b).
  destruct (decide (v ∈ known b)) as [Hk|Hk].
  - exists {| want := want b ∖ {[v]}; known := known b; miss := miss b |}.
    eexists. split; [exact E1|]. split; [exact E2|]. split.
    { unfold kv. rewrite (bool_decide_eq_true_2 _ Hk).
      unfold remove, set_miss. cbn [want known miss].
      rewrite (bool_decide_eq_true_2 _ Hw), Hmiss. reflexivity. }
    split.
    { unfold kv. cbn [miss]. rewrite (bool_decide_eq_false_2 _ Hm). reflexivity. }
    repeat split.
  - exists (set_miss v true b).
    eexists. split; [exact E1|]. split; [exact E2|]. split.
    { unfold kv. rewrite (bool_decide_eq_false_2 _ Hk). reflexivity. }
    split.
    { unfold kv, set_miss. cbn [miss]. rewrite (bool_decide_eq_true_2 _ Hmi).
      unfold remove. cbn [want known miss].
      rewrite (bool_decide_eq_true_2 _ Hw), Hmiss'. reflexivity. }
    repeat split.
Qed.

(** X25: once a name is complete (value handled and marker handled), a
    further value is accepted and changes none of the three sets, but a
    further up-to-date marker makes [self._want.remove(v)] raise
    [KeyError]. *)
Theorem marker_after_completion_raises (v : string) (b : t) seen :
  tracks b seen -> valued v seen -> marked v seen ->
  kv v UpToDate b = inl (KeyError v)
  /\ exists b', kv v Value b = inr b'
       /\ want b' = want b /\ known b' = known b /\ miss b' = miss b.
Proof.
  intros (Hw & Hk & Hm) Hv Hu.
  assert (Hin : v ∈ known b) by (apply Hk; exact Hv).
  assert (Hnw : v ∉ want b) by (rewrite Hw; tauto).
  assert (Hnm : v ∉ miss b) by (rewrite Hm; tauto).
  unfold kv, remove, set_miss, has. cbn.
  rewrite (bool_decide_eq_true_2 _ Hin), (bool_decide_eq_false_2 _ Hnw),
          (bool_decide_eq_false_2 _ Hnm).
  split; [reflexivity|]. eexists. split; [reflexivity|]. cbn.
  repeat split. apply set_eq. intros x.
  rewrite elem_of_union, elem_of_singleton. split; [|tauto].
  intros [Hx| ->]; [exact Hx | exact Hin].
Qed.

End BarrierSteps.

(** ** The targets and the COP *)

(** X26: the limit target never exceeds [cfg.adj.max] nor the load
    target, and with [adj.low] below [adj] on both circuits the "on"
    threshold lies between the low and the adjusted target. *)
Theorem targets_are_ordered (c : cfg.t) (s : self.t) (cm_heat : option bool) :
  let T := targets c s cm_heat in
  t_limit T <= cfg.adj_max c
  /\ t_limit T <= t_load T
  /\ (cfg.adj_low_water c <= cfg.adj_water c ->
      cfg.adj_low_heat c <= cfg.adj_heat c ->
      t_low T <= t_set_on T /\ t_set_on T <= t_adj T).
Proof.
  unfold targets. cbv zeta. cbn [t_limit t_load t_low t_set_on t_adj].
  split; [apply Q.le_min_l|]. split; [apply Q.le_min_r|].
  intros Hw Hh.
  set (lo := if is_true cm_heat && water_ok then _ else _).
  set (ad := if is_true cm_heat && water_ok then _ else _).
  assert (Hle : lo <= ad).
  { unfold lo, ad. destruct (is_true cm_heat && water_ok).
    - apply Q.max_le_compat; apply Qplus_le_r; assumption.
    - apply Qplus_le_r; assumption. }
  clearbody lo ad. split.
  - apply Qle_shift_div_l; [reflexivity|]. 
    setoid_replace (lo * 2) with (lo + lo) using relation Qeq by ring.
    apply Qplus_le_r. exact Hle.
  - apply Qle_shift_div_r; [reflexivity|].
    setoid_replace (ad * 2) with (ad + ad) using relation Qeq by ring.
    apply Qplus_le_l. exact Hle.
Qed.

(** ** The further properties at concrete inputs *)

Lemma persisted_run_is_state_entered_witness :
  exists m', iteration cfg.default s_cold m_off = Ok m'
    /\ var.orun (vars m') = Some (entered_run m_off)
    /\ state.run (st m') = Run.value (entered_run m_off)
    /\ Run.of_value (state.run (st m')) = var.orun (vars m').
Proof.
  eexists. split; [vm_compute; reflexivity|].
  refine (persisted_run_is_state_entered cfg.default s_cold m_off _ _).
  vm_compute. reflexivity.
Defined.

Lemma iteration_leaves_legal_transition_witness :
  exists m', iteration cfg.default s_cold m_off = Ok m'
    /\ legal (var.orun (vars m')) (var.run (vars m')).
Proof.
  eexists. split; [vm_compute; reflexivity|].
  refine (iteration_leaves_legal_transition cfg.default s_cold m_off _ _).
  vm_compute. reflexivity.
Defined.


Lemma t_run_is_recorded_once_witness :
  exists m', run_loop cfg.default [s_hot 30 1000; s_done true] (m_run HTrue) = Ok m'
    /\ state.t_run (st (m_run HTrue)) = Some 900
    /\ state.t_run (st m') = Some 900.
Proof.
  eexists. split; [vm_compute; reflexivity|]. split; [reflexivity|].
  refine (t_run_is_recorded_once cfg.default [s_hot 30 1000; s_done true] (m_run HTrue)
            _ 900 _ eq_refl).
  vm_compute. reflexivity.
Defined.

Lemma force_on_is_never_set_witness :
  exists m', run_loop cfg.default [s_hot 30 1000] (with_force_on true (m_run HTrue)) = Ok m'
    /\ force_on m' = true
    /\ force_on (with_force_on true (m_run HTrue)) = true.
Proof.
  eexists. split; [vm_compute; reflexivity|].
  match goal with |- force_on ?m' = true /\ _ =>
    split; [reflexivity|];
    refine (force_on_is_never_set cfg.default [s_hot 30 1000]
              (with_force_on true (m_run HTrue)) m' _ eq_refl)
  end.
  vm_compute. reflexivity.
Defined.

Lemma ice_alarm_preempts_witness :
  exists m1 m',
    state_change cfg.default s_iced (with_out (fun _ => []) (m_run HTrue)) = Next tt m1
    /\ iteration cfg.default s_iced (m_run HTrue) = Ok m'
    /\ var.run (vars m') = Run.ice
    /\ var.orun (vars m') = Some (entered_run (m_run HTrue))
    /\ var.m_ice (vars m') = true
    /\ out m' = out m1 ++ [ClSet feedback_ice (VBool true) false]
    /\ st m' = st m1 /\ pid m' = pid m1.
Proof.
  apply (ice_alarm_preempts cfg.default s_iced (m_run HTrue));
    [apply legal_same | reflexivity | reflexivity].
Defined.

Lemma main_switch_forces_off_witness :
  exists m' w,
    iteration cfg.default (s_done false) (m_run HTrue) = Ok m'
    /\ var.run (vars m') = Run.off
    /\ var.orun (vars m') = Some (entered_run (m_run HTrue))
    /\ var.cm_main (vars m') = Some false
    /\ out m' = w ++ [ClSet feedback_main (VBool false) false].
Proof.
  apply (main_switch_forces_off cfg.default (s_done false) (m_run HTrue));
    [apply legal_same | reflexivity | reflexivity | reflexivity].
Defined.

Lemma off_is_kept_while_main_off_witness :
  exists m', run_loop cfg.default [s_done false; s_done false]
               (with_force_on true
                  (with_vars (var.set_cm_main (Some false)) m_off)) = Ok m'
    /\ var.orun (vars m') = Some Run.off /\ var.run (vars m') = Run.off.
Proof.
  apply (off_is_kept_while_main_off cfg.default [s_done false; s_done false]);
    [reflexivity | reflexivity | repeat constructor].
Defined.

Lemma resting_states_write_nothing_witness :
  exists m', iteration cfg.default s_warm m_off = Ok m'
    /\ silent (out m')
    /\ pid m' = pid m_off
    /\ state.last_pwm (st m') = state.last_pwm (st m_off).
Proof.
  apply (resting_states_write_nothing cfg.default s_warm m_off);
    [reflexivity | left; reflexivity].
Defined.

Lemma entering_off_stops_pump_and_load_witness :
  exists m' w,
    iteration cfg.default s_cold (demo_machine (Some Run.down) Run.off (st_run HFalse))
    = Ok m'
    /\ var.orun (vars m') = Some Run.off
    /\ out m' = FlowPwm 0 :: set_load_writes cfg.default 0 ++ w
    /\ silent w
    /\ state.last_pwm (st m') = None.
Proof.
  apply (entering_off_stops_pump_and_load cfg.default s_cold
           (demo_machine (Some Run.down) Run.off (st_run HFalse)));
    [reflexivity | reflexivity | discriminate].
Defined.

Lemma shutdown_entry_switches_heat_pump_off_witness :
  entered_run (demo_machine (Some Run.run) Run.off (st_run HTrue)) = Run.down
  /\ exists m1 m' w,
       state_change cfg.default (s_done true)
         (with_out (fun _ => []) (demo_machine (Some Run.run) Run.off (st_run HTrue)))
       = Next tt m1
       /\ var.heat_off (vars m1) = Some true
       /\ pids.flow (pid m1) = pid_setpoint (fixed (4 # 10)) 10
       /\ iteration cfg.default (s_done true)
            (demo_machine (Some Run.run) Run.off (st_run HTrue)) = Ok m'
       /\ var.orun (vars m') = Some Run.down
       /\ out m' = [ClSet cmd_mode_path (VNum 0) false;
                    ClSet cmd_power (VNum 0) false] ++ w.
Proof.
  split; [reflexivity|].
  apply (shutdown_entry_switches_heat_pump_off cfg.default (s_done true)
           (demo_machine (Some Run.run) Run.off (st_run HTrue)));
    [apply legal_off | right; reflexivity | discriminate].
Defined.

Lemma restart_in_run_resends_load_witness :
  exists m m1,
    start_of (st_run HTrue) demo_pids false 3 = Some m
    /\ state_change cfg.default (s_hot 30 1000) m = Next tt m1
    /\ out m1 = set_load_writes cfg.default (5 # 10)
    /\ state.load_last (st m1) = None
    /\ state.t_run (st m1) = Some 900
    /\ pids.load (pid m1) = fixed (5 # 10)
    /\ var.orun (vars m1) = Some Run.run.
Proof.
  eexists.
  destruct (restart_in_run_resends_load cfg.default (s_hot 30 1000) (st_run HTrue)
              demo_pids false 3 _ (5 # 10) eq_refl eq_refl eq_refl)
    as (m1 & E & Ho & Hl & _ & Ht & Hp & _ & _ & _ & Hr).
  exists m1. repeat split; assumption.
Defined.

Lemma run_is_entered_only_from_temp_witness :
  exists m', iteration cfg.default (s_hot 30 1000)
               (demo_machine (Some Run.temp) Run.run (st_run HTrue)) = Ok m'
    /\ var.orun (vars m') = Some Run.run
    /\ (Some Run.temp = None \/ Some Run.temp = Some Run.temp
        \/ Some Run.temp = Some Run.run).
Proof.
  eexists. split; [vm_compute; reflexivity|].
  match goal with |- var.orun (vars ?m') = _ /\ _ =>
    split; [reflexivity|];
    refine (run_is_entered_only_from_temp cfg.default (s_hot 30 1000)
              (demo_machine (Some Run.temp) Run.run (st_run HTrue)) m' _ eq_refl)
  end.
  vm_compute. reflexivity.
Defined.


Lemma off_leaves_everything_off_witness :
  exists d' w s1,
    off cfg.default s_cold [] {| off_machine := m_run HTrue; saved := [] |} = OffDone d'
    /\ out (off_machine d') = [] ++ set_load_writes cfg.default 0 ++ w ++ [FlowPwm 0]
    /\ flow_only w
    /\ saved d' = [] ++ [s1; st (off_machine d')]
    /\ state.run s1 = 8%Z
    /\ state.run (st (off_machine d')) = 0%Z
    /\ state.last_pwm (st (off_machine d')) = Some 0.
Proof.
  eexists.
  destruct (off_leaves_everything_off cfg.default s_cold []
              {| off_machine := m_run HTrue; saved := [] |} _ eq_refl)
    as (w & s1 & Ho & Hf & _ & Hs & Hr1 & Hr & Hp & _).
  exists w, s1. split; [reflexivity|]. repeat split; assumption.
Defined.

Lemma off_waits_in_down_witness :
  exists d',
    off cfg.default (s_done true) [s_done true]
      {| off_machine := m_run HTrue; saved := [] |} = OffWaiting d'
    /\ Forall (fun s => cfg.misc_stop_delta cfg.default < self.t_out s - self.t_in s)
         [s_done true; s_done true]
    /\ Run.of_value (state.run (st (off_machine d'))) = Some Run.down.
Proof.
  eexists.
  destruct (off_waits_in_down cfg.default (s_done true) [s_done true]
              {| off_machine := m_run HTrue; saved := [] |} _ eq_refl)
    as (Hall & w & s1 & _ & _ & _ & _ & _ & Hr).
  split; [reflexivity|]. split; assumption.
Defined.

Lemma fault_set_then_cleared_witness :
  let d' := err.step (err.step err.start
                        {| err.path_of := [inl "x"%string]; err.value_of := Some 7%Z |})
              {| err.path_of := [inl "x"%string]; err.value_of := Some 0%Z |} in
  err.m_errors d' = err.m_errors err.start.
Proof.
  refine (proj1 (proj2 (proj2 (fault_set_then_cleared err.start [inl "x"%string] 7%Z))) _).
  reflexivity.
Defined.

Lemma value_and_marker_commute_witness :
  exists b1 b2 b',
    barrier.kv "t_in" barrier.Value barrier.start = inr b1
    /\ barrier.kv "t_in" barrier.UpToDate b1 = inr b'
    /\ barrier.kv "t_in" barrier.UpToDate barrier.start = inr b2
    /\ barrier.kv "t_in" barrier.Value b2 = inr b'
    /\ barrier.want b' = barrier.want barrier.start ∖ {["t_in"%string]}
    /\ barrier.known b' = barrier.known barrier.start ∪ {["t_in"%string]}
    /\ barrier.miss b' = barrier.miss barrier.start.
Proof.
  apply (value_and_marker_commute "t_in" barrier.start).
  - vm_compute. reflexivity.
  - apply not_elem_of_empty.
Defined.

Lemma marker_after_completion_raises_witness :
  exists b,
    barrier.tracks b [("t_in"%string, barrier.Value); ("t_in"%string, barrier.UpToDate)]
    /\ barrier.kv "t_in" barrier.UpToDate b = inl (KeyError "t_in")
    /\ exists b', barrier.kv "t_in" barrier.Value b = inr b'
         /\ barrier.want b' = barrier.want b /\ barrier.known b' = barrier.known b
         /\ barrier.miss b' = barrier.miss b.
Proof.
  destruct (barrier.kv "t_in" barrier.Value barrier.start) as [e|b1] eqn:E1;
    [vm_compute in E1; discriminate E1|].
  destruct (barrier.kv "t_in" barrier.UpToDate b1) as [e|b2] eqn:E2.
  { exfalso. revert E2. injection E1 as <-. vm_compute. discriminate. }
  assert (Ht : barrier.tracks b2
                 [("t_in"%string, barrier.Value); ("t_in"%string, barrier.UpToDate)]).
  { apply (kv_tracks _ _ b1 b2 [("t_in"%string, barrier.Value)]); [|exact E2].
    apply (kv_tracks _ _ barrier.start b1 []); [apply tracks_start | exact E1]. }
  exists b2. split; [exact Ht|].
  apply (marker_after_completion_raises "t_in" b2 _ Ht).
  - unfold barrier.valued. constructor.
  - unfold barrier.marked. constructor. constructor.
Defined.

Lemma targets_are_ordered_witness :
  let T := targets cfg.default s_cold (Some false) in
  t_low T <= t_set_on T /\ t_set_on T <= t_adj T.
Proof.
  refine (proj2 (proj2 (targets_are_ordered cfg.default s_cold (Some false))) _ _);
    discriminate.
Defined.
